(** * bhvr-ws: the poll ledger, the aggregator and the WebSocket registry

    A shallow embedding of the server side of the realtime voting service:
    - [server/src/utils/validation.ts]  (request validation, sanitising),
    - [server/src/utils/errors.ts]      (error kinds),
    - [server/src/data/store.ts]        (class [DataStore]),
    - [server/src/routes/polls.ts]      (the Hono route handlers),
    - [server/src/services/] (class [WebSocketManager]),
    - [server/src/index.ts] (the server),
    - [server/src/utils/id.ts] (the identifier generators),
    and of what the client sends to it:
    - [client/src/components/CreatePollForm.tsx], [PollAdmin.tsx],
      [VotePage.tsx] (the requests that the pages build),
    - [client/src/hooks/useWebSocket.ts] (the reconnection).

    Conventions of the embedding.
    - A JavaScript string is a [string]: one character per UTF-16 code unit,
      for code units below 256.
    - A JavaScript number that is a length or a counter is a [nat]; the
      percentage, the only number computed by a division, is a binary64
      [float], which is what a JavaScript number is.
    - A [Map<string, V>] is a [gmap string V]; a [Set<string>] is a
      [gset string]; a [Set] of objects is a list of records in insertion
      order, each record carrying the identity of the object.
    - What the code obtains from its environment (random identifiers, the
      clock, the state of a socket) is an argument of the embedded function. *)

From Stdlib Require Import Ascii String Floats.
From stdpp Require Import gmap strings list fin_maps.

Set Warnings "-register-all".

Local Open Scope string_scope.
Local Open Scope nat_scope.
Local Open Scope list_scope.

(** ** JSON values, as [c.req.json()] returns them *)

Module Json.

(** [JObj] lists the own properties of a parsed object, and a property is
    read at its first entry; [JNum] is a JavaScript number. *)
Inductive json : Type :=
| JNull
| JBool (b : bool)
| JNum (f : float)
| JStr (s : string)
| JArr (elems : list json)
| JObj (fields : list (string * json)).

(** The result of reading a property: [None] is [undefined]. *)
Definition jsval := option json.

(** [!v] is [negb (truthy v)]. *)
Definition truthy (v : jsval) : bool :=
  match v with
  | None => false
  | Some JNull => false
  | Some (JBool b) => b
  | Some (JNum f) => negb (PrimFloat.eqb f 0 || PrimFloat.is_nan f)
  | Some (JStr s) => negb (String.eqb s EmptyString)
  | Some (JArr _) => true
  | Some (JObj _) => true
  end.

Fixpoint assoc (k : string) (fields : list (string * json)) : jsval :=
  match fields with
  | [] => None
  | (k', v) :: rest => if String.eqb k k' then Some v else assoc k rest
  end.

(** [data.k] for a [data] that is not [null]; none of the property names the
    server reads ([title], [options], [optionId], [voterId], [createdBy]) is
    a property of a boolean, a number, a string or an array. *)
Definition prop (data : json) (k : string) : jsval :=
  match data with
  | JObj fields => assoc k fields
  | _ => None
  end.

(** [data.k] in general: reading a property of [null] throws a TypeError. *)
Definition prop_or_throw (data : json) (k : string) : option jsval :=
  match data with
  | JNull => None
  | _ => Some (prop data k)
  end.

(** [a !== v] for a string [a]. *)
Definition str_strict_ne (a : string) (v : jsval) : bool :=
  match v with
  | Some (JStr b) => negb (String.eqb a b)
  | _ => true
  end.

End Json.
Export Json.

(** ** String helpers of the JavaScript runtime *)

Module JsString.

(** White space and line terminators, among the code units below 256. *)
Definition is_space (c : ascii) : bool :=
  let n := nat_of_ascii c in
  ((9 <=? n) && (n <=? 13)) || (n =? 32) || (n =? 160).

Fixpoint trimStart (s : string) : string :=
  match s with
  | EmptyString => EmptyString
  | String c r => if is_space c then trimStart r else s
  end.

Fixpoint trimEnd (s : string) : string :=
  match s with
  | EmptyString => EmptyString
  | String c r =>
      let r' := trimEnd r in
      if is_space c && String.eqb r' EmptyString then EmptyString else String c r'
  end.

Definition trim (s : string) : string := trimEnd (trimStart s).

Definition is_gt (c : ascii) : bool := Ascii.eqb c ">".
Definition is_lt (c : ascii) : bool := Ascii.eqb c "<".

Fixpoint has_gt (s : string) : bool :=
  match s with
  | EmptyString => false
  | String c r => is_gt c || has_gt r
  end.

(** [input.replace(/<[^>]*>/g, '')]: a match starts at a ["<"] that has a
    [">"] somewhere after it and runs up to the first such [">"];
    [in_tag] says that the scan is inside a match. *)
Fixpoint strip_tags (in_tag : bool) (s : string) : string :=
  match s with
  | EmptyString => EmptyString
  | String c r =>
      if in_tag then strip_tags (negb (is_gt c)) r
      else if is_lt c && has_gt r then strip_tags true r
      else String c (strip_tags false r)
  end.

End JsString.

(** ** utils/validation.ts *)

Module Validation.
Import JsString.

(** The messages of the validators, one constructor per message text;
    [i] is the 1-based position that the text mentions. *)
Inductive ValidationMessage : Type :=
| BodyRequired
| TitleRequired
| TitleNotString
| TitleTooLong
| OptionsRequired
| OptionsNotArray
| OptionsTooFew
| OptionsTooMany
| OptionNotString (i : nat)
| OptionEmpty (i : nat)
| OptionTooLong (i : nat)
| OptionIdRequired
| OptionIdNotString
| VoterIdRequired
| VoterIdNotString.

Record ValidationResult := mkValidationResult {
  isValid : bool;
  errors : list ValidationMessage
}.

Definition is_nil {A} (l : list A) : bool :=
  match l with [] => true | _ => false end.

Definition finish (errors : list ValidationMessage) : ValidationResult :=
  {| isValid := is_nil errors; errors := errors |}.

Definition validate_title (title : jsval) : list ValidationMessage :=
  if negb (truthy title) then [TitleRequired]
  else match title with
       | Some (JStr s) =>
           if String.length (trim s) =? 0 then [TitleRequired]
           else if 200 <? String.length s then [TitleTooLong]
           else []
       | _ => [TitleNotString]
       end.

(** The body of the [for] loop over [data.options], at index [i]. *)
Definition validate_option (i : nat) (option : json) : list ValidationMessage :=
  match option with
  | JStr s =>
      if String.length (trim s) =? 0 then [OptionEmpty (i + 1)]
      else if 100 <? String.length s then [OptionTooLong (i + 1)]
      else []
  | _ => [OptionNotString (i + 1)]
  end.

Fixpoint validate_each (i : nat) (options : list json) : list ValidationMessage :=
  match options with
  | [] => []
  | o :: rest => validate_option i o ++ validate_each (S i) rest
  end.

Definition validate_options (options : jsval) : list ValidationMessage :=
  if negb (truthy options) then [OptionsRequired]
  else match options with
       | Some (JArr os) =>
           if length os <? 2 then [OptionsTooFew]
           else if 10 <? length os then [OptionsTooMany]
           else validate_each 0 os
       | _ => [OptionsNotArray]
       end.

Definition validatePollCreation (data : json) : ValidationResult :=
  if negb (truthy (Some data)) then
    {| isValid := false; errors := [BodyRequired] |}
  else
    finish (validate_title (prop data "title")
            ++ validate_options (prop data "options")).

Definition validate_id (required not_string : ValidationMessage) (v : jsval)
  : list ValidationMessage :=
  if negb (truthy v) then [required]
  else match v with
       | Some (JStr _) => []
       | _ => [not_string]
       end.

Definition validateVote (data : json) : ValidationResult :=
  if negb (truthy (Some data)) then
    {| isValid := false; errors := [BodyRequired] |}
  else
    finish (validate_id OptionIdRequired OptionIdNotString (prop data "optionId")
            ++ validate_id VoterIdRequired VoterIdNotString (prop data "voterId")).

Definition sanitizeHtml (input : string) : string := strip_tags false input.

Record CreatePollRequest := mkCreatePollRequest {
  req_title : string;
  req_options : list string
}.

Definition sanitizePollData (data : CreatePollRequest) : CreatePollRequest :=
  {| req_title := sanitizeHtml (trim (req_title data));
     req_options := map (fun option => sanitizeHtml (trim option)) (req_options data) |}.

End Validation.

(** ** shared types *)

Inductive PollStatus : Type := active | ended.

Global Instance PollStatus_eq_dec : EqDecision PollStatus.
Proof. solve_decision. Defined.

Module PollOption.
Record t := mk {
  id : string;
  text : string;
  votes : nat;
  percentage : float
}.
End PollOption.
Abbreviation PollOption := PollOption.t.

Module Poll.
Record t := mk {
  id : string;
  title : string;
  options : list PollOption;
  status : PollStatus;
  createdAt : Z;
  createdBy : string;
  totalVotes : nat
}.

(** [Partial<Poll>]: an absent field is [None]. *)
Record partial := mkPartial {
  id' : option string;
  title' : option string;
  options' : option (list PollOption);
  status' : option PollStatus;
  createdAt' : option Z;
  createdBy' : option string;
  totalVotes' : option nat
}.

Definition no_updates : partial :=
  mkPartial None None None None None None None.

(** [{ ...poll, ...updates }] *)
Definition spread (poll : t) (updates : partial) : t :=
  {| id := default (id poll) (id' updates);
     title := default (title poll) (title' updates);
     options := default (options poll) (options' updates);
     status := default (status poll) (status' updates);
     createdAt := default (createdAt poll) (createdAt' updates);
     createdBy := default (createdBy poll) (createdBy' updates);
     totalVotes := default (totalVotes poll) (totalVotes' updates) |}.
End Poll.
Abbreviation Poll := Poll.t.

Module Vote.
Record t := mk {
  id : string;
  pollId : string;
  optionId : string;
  voterId : string;
  timestamp : Z
}.
End Vote.
Abbreviation Vote := Vote.t.

(** A JavaScript number holding a length. The conversion is exact below
    2^53, and the length of a JavaScript array is below 2^32. *)
Definition number_of_nat (n : nat) : float :=
  PrimFloat.of_uint63 (Uint63.of_Z (Z.of_nat n)).

(** ** utils/errors.ts *)

Module Errors.
Import Validation.

Inductive ErrorCode : Type :=
| VALIDATION_ERROR
| POLL_NOT_FOUND
| ALREADY_VOTED
| POLL_ENDED
| INVALID_OPTION
| UNAUTHORIZED
| INTERNAL_ERROR.

Global Instance ErrorCode_eq_dec : EqDecision ErrorCode.
Proof. solve_decision. Defined.

(** The message of an error: the first validation message, the fallback
    text of [createValidationError], or the fixed text of the error kind. *)
Inductive ErrorText : Type :=
| FirstError (m : ValidationMessage)
| ValidationFailed
| FixedText.

Record AppError := mkAppError {
  code : ErrorCode;
  message : ErrorText;
  details : option (list ValidationMessage)
}.

Definition createValidationError (errors : list ValidationMessage) : AppError :=
  {| code := VALIDATION_ERROR;
     message := match errors with m :: _ => FirstError m | [] => ValidationFailed end;
     details := Some errors |}.

Definition common (c : ErrorCode) : AppError :=
  {| code := c; message := FixedText; details := None |}.

Definition pollNotFound := common POLL_NOT_FOUND.
Definition alreadyVoted := common ALREADY_VOTED.
Definition pollEnded := common POLL_ENDED.
Definition invalidOption := common INVALID_OPTION.
Definition unauthorized := common UNAUTHORIZED.
Definition internalError := common INTERNAL_ERROR.

End Errors.

(** ** data/store.ts *)

Module DataStore.

Record t := mk {
  polls : gmap string Poll;
  votes : gmap string (list Vote);
  pollVoters : gmap string (gset string)
}.

(** [new DataStore()] *)
Definition new : t := {| polls := ∅; votes := ∅; pollVoters := ∅ |}.

Definition createPoll (this : t) (poll : Poll) : Poll * t :=
  (poll,
   {| polls := <[Poll.id poll := poll]> (polls this);
      votes := <[Poll.id poll := []]> (votes this);
      pollVoters := <[Poll.id poll := ∅]> (pollVoters this) |}).

Definition getPoll (this : t) (id : string) : option Poll :=
  polls this !! id.

Definition updatePoll (this : t) (id : string) (updates : Poll.partial)
  : option Poll * t :=
  match polls this !! id with
  | None => (None, this)
  | Some poll =>
      let updatedPoll := Poll.spread poll updates in
      (Some updatedPoll,
       {| polls := <[id := updatedPoll]> (polls this);
          votes := votes this;
          pollVoters := pollVoters this |})
  end.

Definition addVote (this : t) (vote : Vote) : bool * t :=
  match polls this !! Vote.pollId vote with
  | None => (false, this)
  | Some _ =>
      let voters := default ∅ (pollVoters this !! Vote.pollId vote) in
      if decide (Vote.voterId vote ∈ voters) then (false, this)
      else
        let votes0 := default [] (votes this !! Vote.pollId vote) in
        (true,
         {| polls := polls this;
            votes := <[Vote.pollId vote := votes0 ++ [vote]]> (votes this);
            pollVoters :=
              <[Vote.pollId vote := voters ∪ {[Vote.voterId vote]}]> (pollVoters this) |})
  end.

Definition hasVoted (this : t) (pollId voterId : string) : bool :=
  let voters := default ∅ (pollVoters this !! pollId) in
  bool_decide (voterId ∈ voters).

Definition getVotes (this : t) (pollId : string) : list Vote :=
  default [] (votes this !! pollId).

Definition aggregateResults (this : t) (pollId : string) : list PollOption :=
  let votes := default [] (votes this !! pollId) in
  let totalVotes := length votes in
  match polls this !! pollId with
  | None => []
  | Some poll =>
      map (fun option =>
             let optionVotes :=
               length (filter (fun v => Vote.optionId v = PollOption.id option) votes) in
             {| PollOption.id := PollOption.id option;
                PollOption.text := PollOption.text option;
                PollOption.votes := optionVotes;
                PollOption.percentage :=
                  if 0 <? totalVotes
                  then PrimFloat.mul
                         (PrimFloat.div (number_of_nat optionVotes)
                                        (number_of_nat totalVotes))
                         100
                  else 0%float |})
          (Poll.options poll)
  end.

Definition getPollWithResults (this : t) (pollId : string) : option Poll :=
  match polls this !! pollId with
  | None => None
  | Some poll =>
      let updatedOptions := aggregateResults this pollId in
      let totalVotes := length (getVotes this pollId) in
      Some (Poll.spread poll
              {| Poll.id' := None; Poll.title' := None;
                 Poll.options' := Some updatedOptions;
                 Poll.status' := None; Poll.createdAt' := None;
                 Poll.createdBy' := None;
                 Poll.totalVotes' := Some totalVotes |})
  end.

Definition getAllPolls (this : t) : list Poll :=
  (map_to_list (polls this)).*2.

Definition deletePoll (this : t) (id : string) : bool * t :=
  (bool_decide (is_Some (polls this !! id)),
   {| polls := delete id (polls this);
      votes := delete id (votes this);
      pollVoters := delete id (pollVoters this) |}).

End DataStore.
Abbreviation DataStore := DataStore.t.

(** ** routes/polls.ts *)

Module Routes.
Import Validation Errors.

Inductive ApiResponse (A : Type) : Type :=
| ApiSuccess (data : A)
| ApiError (error : AppError).
Arguments ApiSuccess {A} data.
Arguments ApiError {A} error.

(** [c.json(body, status)] *)
Record HttpResponse (A : Type) := json_response {
  body : ApiResponse A;
  http_status : nat
}.
Arguments json_response {A} body http_status.
Arguments body {A} _.
Arguments http_status {A} _.

Definition createErrorResponse {A} (error : AppError) : ApiResponse A :=
  ApiError error.

(** A cast of a validated JSON value to [string]; only read for a value that
    the validator has found to be a string. *)
Definition as_string (v : jsval) : string :=
  match v with Some (JStr s) => s | _ => EmptyString end.

Definition as_strings (v : jsval) : list string :=
  match v with Some (JArr os) => map (fun o => as_string (Some o)) os | _ => [] end.

(** [body as CreatePollRequest] *)
Definition as_CreatePollRequest (body : json) : CreatePollRequest :=
  {| req_title := as_string (prop body "title");
     req_options := as_strings (prop body "options") |}.

Record VoteRequest := mkVoteRequest {
  optionId : string;
  voterId : string
}.

(** [body as VoteRequest] *)
Definition as_VoteRequest (body : json) : VoteRequest :=
  {| optionId := as_string (prop body "optionId");
     voterId := as_string (prop body "voterId") |}.

(** What the handler of [POST /] takes from its environment: the results of
    [generatePollId()], of the [i]-th call of [generateOptionId()], and of
    [new Date()]. *)
Record CreateEnv := mkCreateEnv {
  generatePollId : string;
  generateOptionId : nat -> string;
  create_now : Z
}.

(** [polls.post('/', ...)] *)
Definition post_poll (env : CreateEnv) (store : DataStore) (body : json)
  : HttpResponse Poll * DataStore :=
  let validation := validatePollCreation body in
  if negb (isValid validation) then
    (json_response (createErrorResponse (createValidationError (errors validation))) 400,
     store)
  else
    let sanitized := sanitizePollData (as_CreatePollRequest body) in
    let pollId := generatePollId env in
    let now := create_now env in
    let options :=
      imap (fun i text =>
              {| PollOption.id := generateOptionId env i;
                 PollOption.text := text;
                 PollOption.votes := 0;
                 PollOption.percentage := 0%float |})
           (req_options sanitized) in
    let poll :=
      {| Poll.id := pollId;
         Poll.title := req_title sanitized;
         Poll.options := options;
         Poll.status := active;
         Poll.createdAt := now;
         Poll.createdBy := "anonymous";
         Poll.totalVotes := 0 |} in
    let '(createdPoll, store') := DataStore.createPoll store poll in
    (json_response (ApiSuccess createdPoll) 201, store').

(** [polls.get('/:id', ...)] *)
Definition get_poll (store : DataStore) (pollId : string) : HttpResponse Poll :=
  match DataStore.getPollWithResults store pollId with
  | None => json_response (createErrorResponse pollNotFound) 404
  | Some poll => json_response (ApiSuccess poll) 200
  end.

Record VoteData := mkVoteData {
  votedOptionId : string;
  voted_poll : option Poll
}.

(** What the handler of [POST /:id/vote] takes from its environment: the
    results of [generateVoteId()] and of [new Date()]. *)
Record VoteEnv := mkVoteEnv {
  generateVoteId : string;
  vote_now : Z
}.

(** [polls.post('/:id/vote', ...)] *)
Definition post_vote (env : VoteEnv) (store : DataStore) (pollId : string)
    (body : json) : HttpResponse VoteData * DataStore :=
  let validation := validateVote body in
  if negb (isValid validation) then
    (json_response (createErrorResponse (createValidationError (errors validation))) 400,
     store)
  else
    let voteRequest := as_VoteRequest body in
    match DataStore.getPoll store pollId with
    | None => (json_response (createErrorResponse pollNotFound) 404, store)
    | Some poll =>
        if negb (bool_decide (Poll.status poll = active)) then
          (json_response (createErrorResponse pollEnded) 409, store)
        else
          match List.find (fun opt => String.eqb (PollOption.id opt) (optionId voteRequest))
                          (Poll.options poll) with
          | None => (json_response (createErrorResponse invalidOption) 400, store)
          | Some _ =>
              if DataStore.hasVoted store pollId (voterId voteRequest) then
                (json_response (createErrorResponse alreadyVoted) 409, store)
              else
                let vote :=
                  {| Vote.id := generateVoteId env;
                     Vote.pollId := pollId;
                     Vote.optionId := optionId voteRequest;
                     Vote.voterId := voterId voteRequest;
                     Vote.timestamp := vote_now env |} in
                let '(success, store') := DataStore.addVote store vote in
                if negb success then
                  (json_response (createErrorResponse alreadyVoted) 409, store')
                else
                  let updatedPoll := DataStore.getPollWithResults store' pollId in
                  (json_response
                     (ApiSuccess {| votedOptionId := optionId voteRequest;
                                    voted_poll := updatedPoll |})
                     200,
                   store')
          end
    end.

Record ResultsData := mkResultsData {
  res_pollId : string;
  res_title : string;
  results : list PollOption;
  res_totalVotes : nat;
  res_status : PollStatus;
  res_createdAt : Z
}.

(** [polls.get('/:id/results', ...)] *)
Definition get_results (store : DataStore) (pollId : string)
  : HttpResponse ResultsData :=
  match DataStore.getPollWithResults store pollId with
  | None => json_response (createErrorResponse pollNotFound) 404
  | Some poll =>
      json_response
        (ApiSuccess {| res_pollId := Poll.id poll;
                       res_title := Poll.title poll;
                       results := Poll.options poll;
                       res_totalVotes := Poll.totalVotes poll;
                       res_status := Poll.status poll;
                       res_createdAt := Poll.createdAt poll |})
        200
  end.

(** The data of a successful end; its [message] is a fixed text. *)
Record EndData := mkEndData {
  ended_poll : option Poll
}.

(** [polls.post('/:id/end', ...)]; reading [body.createdBy] of a [null]
    body throws, and the [catch] answers 500. *)
Definition post_end (store : DataStore) (pollId : string) (body : json)
  : HttpResponse EndData * DataStore :=
  match DataStore.getPoll store pollId with
  | None => (json_response (createErrorResponse pollNotFound) 404, store)
  | Some poll =>
      match prop_or_throw body "createdBy" with
      | None => (json_response (createErrorResponse internalError) 500, store)
      | Some body_createdBy =>
          if truthy body_createdBy
             && str_strict_ne (Poll.createdBy poll) body_createdBy then
            (json_response (createErrorResponse unauthorized) 403, store)
          else
            let '(endedPoll, store') :=
              DataStore.updatePoll store pollId
                {| Poll.id' := None; Poll.title' := None; Poll.options' := None;
                   Poll.status' := Some ended; Poll.createdAt' := None;
                   Poll.createdBy' := None; Poll.totalVotes' := None |} in
            match endedPoll with
            | None => (json_response (createErrorResponse internalError) 500, store')
            | Some _ =>
                let finalPoll := DataStore.getPollWithResults store' pollId in
                (json_response (ApiSuccess {| ended_poll := finalPoll |}) 200, store')
            end
      end
  end.

End Routes.

(** ** services/websocket.ts *)

Module WebSocket.

(** The handle [ws] of a socket, compared with [===]. *)
Definition Socket := nat.

Inductive MessageType : Type :=
| join_poll
| vote
| poll_updated
| vote_recorded
| poll_ended.

Inductive Payload : Type :=
| Joined (pollId clientId : string)
| PollView (poll : option Poll).

Record WebSocketMessage := mkMessage {
  type : MessageType;
  payload : Payload
}.

(** The sockets outside the manager: [ws.send] throws on a [broken] socket
    and otherwise hands the text to the socket, which [sent] records in
    order. A socket does not break in the middle of a broadcast.
    [JSON.stringify(message)] is identified with the message. *)
Record Net := mkNet {
  broken : gset Socket;
  sent : list (Socket * WebSocketMessage)
}.

(** [ws.send(messageStr)]; [None] is a thrown error. *)
Definition send (net : Net) (ws : Socket) (message : WebSocketMessage) : option Net :=
  if decide (ws ∈ broken net) then None
  else Some {| broken := broken net; sent := sent net ++ [(ws, message)] |}.

(** [ref] is the identity of the object that the literal
    [{ ws, pollId, clientId }] allocates. *)
Record WebSocketConnection := mkConnection {
  ref : nat;
  ws : Socket;
  pollId : string;
  clientId : string
}.

(** A [Set<WebSocketConnection>]: its members in insertion order, a member
    being the object of a given identity. *)
Definition same_ref (c c' : WebSocketConnection) : bool := ref c =? ref c'.

Definition set_has (c : WebSocketConnection) (s : list WebSocketConnection) : bool :=
  existsb (same_ref c) s.

Definition set_add (c : WebSocketConnection) (s : list WebSocketConnection)
  : list WebSocketConnection :=
  if set_has c s then s else s ++ [c].

Definition set_delete (c : WebSocketConnection) (s : list WebSocketConnection)
  : list WebSocketConnection :=
  List.filter (fun c' => negb (same_ref c c')) s.

(** The manager; [allocated] counts the connection objects created so far
    and gives the next one its identity, [timers] holds the callbacks that
    [setTimeout] has scheduled and that have not run yet. *)
Record t := mk {
  connections : gmap string (list WebSocketConnection);
  allocated : nat;
  timers : list (WebSocketConnection * WebSocketMessage)
}.

Definition new : t := {| connections := ∅; allocated := 0; timers := [] |}.

(** [clientId] is the result of [generateClientId()]. *)
Definition addConnection (this : t) (pollId : string) (ws : Socket)
    (clientId : string) : t :=
  let connection :=
    {| ref := allocated this; ws := ws; pollId := pollId; clientId := clientId |} in
  let connections1 :=
    if bool_decide (is_Some (connections this !! pollId)) then connections this
    else <[pollId := []]> (connections this) in
  {| connections := alter (set_add connection) pollId connections1;
     allocated := S (allocated this);
     timers := timers this
               ++ [(connection,
                    {| type := join_poll; payload := Joined pollId clientId |})] |}.

Definition removeConnection (this : t) (pollId : string) (ws0 : Socket) : t :=
  match connections this !! pollId with
  | None => this
  | Some pollConnections =>
      let pollConnections' :=
        match List.find (fun connection => ws connection =? ws0) pollConnections with
        | Some connection => set_delete connection pollConnections
        | None => pollConnections
        end in
      {| connections :=
           if length pollConnections' =? 0 then delete pollId (connections this)
           else <[pollId := pollConnections']> (connections this);
         allocated := allocated this;
         timers := timers this |}
  end.

(** The [for ... of] loop of [broadcastToPoll] over the set [live]: [todo]
    are the members not reached yet, in order; a member deleted before the
    loop reaches it is not visited. *)
Fixpoint broadcast_loop (message : WebSocketMessage)
    (todo live : list WebSocketConnection) (net : Net)
  : list WebSocketConnection * Net :=
  match todo with
  | [] => (live, net)
  | connection :: rest =>
      if set_has connection live then
        match send net (ws connection) message with
        | Some net' => broadcast_loop message rest live net'
        | None => broadcast_loop message rest (set_delete connection live) net
        end
      else broadcast_loop message rest live net
  end.

Definition broadcastToPoll (this : t) (net : Net) (pollId : string)
    (message : WebSocketMessage) : t * Net :=
  match connections this !! pollId with
  | None => (this, net)
  | Some pollConnections =>
      let '(pollConnections', net') :=
        broadcast_loop message pollConnections pollConnections net in
      ({| connections := <[pollId := pollConnections']> (connections this);
          allocated := allocated this;
          timers := timers this |},
       net')
  end.

Definition sendToClient (net : Net) (connection : WebSocketConnection)
    (message : WebSocketMessage) : Net :=
  match send net (ws connection) message with
  | Some net' => net'
  | None => net
  end.

(** The oldest scheduled callback of [addConnection] runs. *)
Definition run_timer (this : t) (net : Net) : t * Net :=
  match timers this with
  | [] => (this, net)
  | (connection, message) :: rest =>
      ({| connections := connections this;
          allocated := allocated this;
          timers := rest |},
       sendToClient net connection message)
  end.

Definition getConnectionCount (this : t) (pollId : string) : nat :=
  match connections this !! pollId with
  | Some pollConnections => length pollConnections
  | None => 0
  end.

(** What happens to a manager and its sockets, one event at a time: a
    socket is opened for a poll or closed, a message is published to a poll,
    a scheduled callback runs, or a socket breaks. *)
Inductive Event : Type :=
| Opened (pollId : string) (ws : Socket) (clientId : string)
| Closed (pollId : string) (ws : Socket)
| Published (pollId : string) (message : WebSocketMessage)
| TimerFired
| Broke (ws : Socket).

Definition step (state : t * Net) (event : Event) : t * Net :=
  let '(this, net) := state in
  match event with
  | Opened pollId ws clientId => (addConnection this pollId ws clientId, net)
  | Closed pollId ws => (removeConnection this pollId ws, net)
  | Published pollId message => broadcastToPoll this net pollId message
  | TimerFired => run_timer this net
  | Broke ws => (this, {| broken := broken net ∪ {[ws]}; sent := sent net |})
  end.

Definition run (events : list Event) : t * Net :=
  foldl step (new, {| broken := ∅; sent := [] |}) events.

End WebSocket.

(** ** index.ts: the server *)

Module Server.
Import Routes.

(** The state of the process: the [dataStore] singleton, and the WebSocket
    manager with the sockets it talks to. The route handlers are the only
    code that [Bun.serve] runs; they import [dataStore] and nothing of the
    WebSocket manager. *)
Record t := mk {
  dataStore : DataStore;
  wsManager : WebSocket.t;
  net : WebSocket.Net
}.

Definition new : t :=
  {| dataStore := DataStore.new;
     wsManager := WebSocket.new;
     net := {| WebSocket.broken := ∅; WebSocket.sent := [] |} |}.

Inductive Request : Type :=
| POST_polls (env : CreateEnv) (body : json)
| GET_poll (pollId : string)
| POST_vote (env : VoteEnv) (pollId : string) (body : json)
| GET_results (pollId : string)
| POST_end (pollId : string) (body : json).

Inductive Reply : Type :=
| CreateReply (r : HttpResponse Poll)
| PollReply (r : HttpResponse Poll)
| VoteReply (r : HttpResponse VoteData)
| ResultsReply (r : HttpResponse ResultsData)
| EndReply (r : HttpResponse EndData).

(** One request on the store. *)
Definition route (store : DataStore) (request : Request) : Reply * DataStore :=
  match request with
  | POST_polls env body =>
      let '(r, store') := post_poll env store body in (CreateReply r, store')
  | GET_poll pollId => (PollReply (get_poll store pollId), store)
  | POST_vote env pollId body =>
      let '(r, store') := post_vote env store pollId body in (VoteReply r, store')
  | GET_results pollId => (ResultsReply (get_results store pollId), store)
  | POST_end pollId body =>
      let '(r, store') := post_end store pollId body in (EndReply r, store')
  end.

(** One request on the server. *)
Definition fetch (server : t) (request : Request) : Reply * t :=
  let '(reply, store') := route (dataStore server) request in
  (reply,
   {| dataStore := store'; wsManager := wsManager server; net := net server |}).

(** The store after a sequence of requests. *)
Definition serve (store : DataStore) (requests : list Request) : DataStore :=
  foldl (fun store request => (route store request).2) store requests.

End Server.

(** ** Vocabulary of the statements *)

Module Spec.
Import JsString Validation Errors Routes Server.

(** The error kind of a response, if it is an error. *)
Definition error_code {A} (r : HttpResponse A) : option ErrorCode :=
  match body r with
  | ApiError e => Some (code e)
  | ApiSuccess _ => None
  end.

Definition succeeded {A} (r : HttpResponse A) : bool :=
  match body r with
  | ApiSuccess _ => true
  | ApiError _ => false
  end.

(** A creation request that no validation rule rejects. *)
Definition acceptable_option (o : json) : Prop :=
  ∃ s, o = JStr s ∧ trim s ≠ EmptyString ∧ String.length s ≤ 100.

Definition acceptable_creation (body : json) : Prop :=
  ∃ title os,
    prop body "title" = Some (JStr title)
    ∧ trim title ≠ EmptyString ∧ String.length title ≤ 200
    ∧ prop body "options" = Some (JArr os)
    ∧ 2 ≤ length os ≤ 10
    ∧ Forall acceptable_option os.

(** A vote request as the validator lets it through: two non-empty strings. *)
Definition vote_body (optionId voterId : string) : json :=
  JObj [("optionId", JStr optionId); ("voterId", JStr voterId)].

(** The voter has a vote in the log of the poll. *)
Definition has_vote_of (store : DataStore) (pollId voterId : string) : Prop :=
  voterId ∈ Vote.voterId <$> DataStore.getVotes store pollId.

(** The ledger invariant: per poll, the log holds at most one vote of a
    voter, the dedup set holds exactly the voters of the log, and every vote
    of the log names the poll. *)
Definition ledger_inv (store : DataStore) : Prop :=
  ∀ pollId,
    NoDup (Vote.voterId <$> DataStore.getVotes store pollId)
    ∧ (∀ voterId,
         voterId ∈ default ∅ (DataStore.pollVoters store !! pollId)
         ↔ has_vote_of store pollId voterId)
    ∧ (∀ v, v ∈ DataStore.getVotes store pollId → Vote.pollId v = pollId).

(** The tally invariant: the options of a stored poll have distinct
    identifiers, and every vote of its log names one of them. *)
Definition tally_inv (store : DataStore) : Prop :=
  ∀ pollId poll,
    DataStore.polls store !! pollId = Some poll →
    NoDup (PollOption.id <$> Poll.options poll)
    ∧ (∀ v, v ∈ DataStore.getVotes store pollId →
            Vote.optionId v ∈ PollOption.id <$> Poll.options poll).

(** [generateOptionId()] returns distinct identifiers within one creation
    request. *)
Definition fresh_option_ids (request : Request) : Prop :=
  match request with
  | POST_polls env body =>
      NoDup (generateOptionId env
               <$> seq 0 (length (as_strings (prop body "options"))))
  | _ => True
  end.

(** The number of votes of a log that name the option [i]. *)
Definition count_for (votes : list Vote) (i : string) : nat :=
  length (filter (fun v => Vote.optionId v = i) votes).

Definition sum_votes (options : list PollOption) : nat :=
  sum_list (PollOption.votes <$> options).

(** [count / totalVotes * 100], or 0 without votes. *)
Definition percentage_of (count totalVotes : nat) : float :=
  if 0 <? totalVotes
  then PrimFloat.mul (PrimFloat.div (number_of_nat count) (number_of_nat totalVotes)) 100
  else 0%float.

Definition sum_percentages (options : list PollOption) : float :=
  foldl (fun acc o => PrimFloat.add acc (PollOption.percentage o)) 0%float options.

(** The options and the total as an aggregated view shows them have the
    property [P], for every view of the poll that a route returns at
    [store]: the poll itself, its results, and the refreshed poll in the
    response to a vote or to an end. *)
Definition every_view (store : DataStore) (pollId : string)
    (P : list PollOption → nat → Prop) : Prop :=
  (∀ view,
     Routes.body (get_poll store pollId) = ApiSuccess view →
     P (Poll.options view) (Poll.totalVotes view))
  ∧ (∀ data,
       Routes.body (get_results store pollId) = ApiSuccess data →
       P (results data) (res_totalVotes data))
  ∧ (∀ env body data view,
       Routes.body (post_vote env store pollId body).1 = ApiSuccess data →
       voted_poll data = Some view →
       P (Poll.options view) (Poll.totalVotes view))
  ∧ (∀ body data view,
       Routes.body (post_end store pollId body).1 = ApiSuccess data →
       ended_poll data = Some view →
       P (Poll.options view) (Poll.totalVotes view)).

Definition percentages_follow (options : list PollOption) (totalVotes : nat) : Prop :=
  Forall (fun o => PollOption.percentage o
                   = percentage_of (PollOption.votes o) totalVotes)
         options.

(** The members of the set registered under a poll. *)
Definition registered (this : WebSocket.t) (pollId : string)
  : list WebSocket.WebSocketConnection :=
  default [] (WebSocket.connections this !! pollId).

(** Object identities are what an allocator makes them: the members of the
    sets are distinct objects, allocated before the next one. *)
Definition well_allocated (this : WebSocket.t) : Prop :=
  ∀ pollId,
    NoDup (WebSocket.ref <$> registered this pollId)
    ∧ Forall (fun c => WebSocket.ref c < WebSocket.allocated this)
             (registered this pollId).

End Spec.

(** ** Sample data: the scenario of the documentation *)

Module Sample.
Import Routes Server.

Definition create_env : CreateEnv :=
  {| generatePollId := "poll-1";
     generateOptionId := fun i => String (ascii_of_nat (97 + i)) EmptyString;
     create_now := 0%Z |}.

Definition lunch : json :=
  JObj [("title", JStr "Lunch?"); ("options", JArr [JStr "Sushi"; JStr "Ramen"])].

Definition vote_env : VoteEnv :=
  {| generateVoteId := "vote-1"; vote_now := 1%Z |}.

Definition created : DataStore :=
  serve DataStore.new [POST_polls create_env lunch].

Definition voted : DataStore :=
  serve created [POST_vote vote_env "poll-1" (Spec.vote_body "a" "v1")].

Definition closed : DataStore :=
  serve voted [POST_end "poll-1" (JObj [("createdBy", JStr "anonymous")])].

(** Three options with one vote each. *)
Definition three_way : DataStore :=
  serve DataStore.new
    [POST_polls create_env
       (JObj [("title", JStr "Noodles?");
              ("options", JArr [JStr "Ramen"; JStr "Udon"; JStr "Soba"])]);
     POST_vote vote_env "poll-1" (Spec.vote_body "a" "v1");
     POST_vote vote_env "poll-1" (Spec.vote_body "b" "v2");
     POST_vote vote_env "poll-1" (Spec.vote_body "c" "v3")].

(** A socket that works, registered for the sample poll. *)
Definition watched : Server.t :=
  {| dataStore := created;
     wsManager := WebSocket.addConnection WebSocket.new "poll-1" 7 "client-1";
     net := {| WebSocket.broken := ∅; WebSocket.sent := [] |} |}.

End Sample.

(** ** utils/id.ts *)

Module Id.

(** The three generators, on the result [generateId] of [generateId()]
    (a random part followed by the clock). *)
Definition generatePollId (generateId : string) : string :=
  String.append "poll-" generateId.

Definition generateVoteId (generateId : string) : string :=
  String.append "vote-" generateId.

Definition generateOptionId (generateId : string) : string :=
  String.append "opt-" generateId.

End Id.

(** ** client/src/components/CreatePollForm.tsx *)

Module CreatePollForm.
Import JsString Validation.

(** The state of the form: [title] and [options]. *)
Record t := mk {
  title : string;
  options : list string
}.

Definition initial : t :=
  {| title := EmptyString; options := [EmptyString; EmptyString] |}.

Definition setTitle (form : t) (value : string) : t :=
  {| title := value; options := options form |}.

Definition addOption (form : t) : t :=
  if length (options form) <? 10 then
    {| title := title form; options := options form ++ [EmptyString] |}
  else form.

(** [options.filter((_, i) => keep(i))], from index [i] on. *)
Fixpoint filter_index (keep : nat → bool) (i : nat) (options : list string)
  : list string :=
  match options with
  | [] => []
  | option :: rest =>
      if keep i then option :: filter_index keep (S i) rest
      else filter_index keep (S i) rest
  end.

Definition removeOption (form : t) (index : nat) : t :=
  if 2 <? length (options form) then
    {| title := title form;
       options := filter_index (fun i => negb (i =? index)) 0 (options form) |}
  else form.

(** [newOptions[index] = value] on a copy: an index within the array
    replaces the element, the index just behind it appends, and a larger one
    leaves holes, after which the state is no array of strings: [None]. *)
Definition updateOption (form : t) (index : nat) (value : string) : option t :=
  if index <? length (options form) then
    Some {| title := title form; options := <[index := value]> (options form) |}
  else if index =? length (options form) then
    Some {| title := title form; options := options form ++ [value] |}
  else None.

Definition nonblank (opt : string) : bool := 0 <? String.length (trim opt).

(** The [for] loop of [validateForm], from index [i] on. *)
Fixpoint too_long (i : nat) (options : list string) : option ValidationMessage :=
  match options with
  | [] => None
  | option :: rest =>
      if nonblank option && (100 <? String.length option)
      then Some (OptionTooLong (i + 1))
      else too_long (S i) rest
  end.

(** [validateForm()]; the messages are those of the server, [None] is
    [null]. *)
Definition validateForm (form : t) : option ValidationMessage :=
  if String.eqb (trim (title form)) EmptyString then Some TitleRequired
  else if 200 <? String.length (title form) then Some TitleTooLong
  else
    let validOptions := List.filter nonblank (options form) in
    if length validOptions <? 2 then Some OptionsTooFew
    else too_long 0 (options form).

Definition requestData (form : t) : CreatePollRequest :=
  let validOptions := List.filter nonblank (options form) in
  {| req_title := trim (title form);
     req_options := map (fun opt => trim opt) validOptions |}.

(** [JSON.stringify(requestData)], as the server parses it. *)
Definition stringify (data : CreatePollRequest) : json :=
  JObj [("title", JStr (req_title data));
        ("options", JArr (map JStr (req_options data)))].

(** The body that [handleSubmit] posts; [None] when the form shows the
    validation error instead. *)
Definition handleSubmit (form : t) : option json :=
  match validateForm form with
  | Some _ => None
  | None => Some (stringify (requestData form))
  end.

(** What the user does to the form. *)
Inductive Action : Type :=
| TypeTitle (value : string)
| ClickAdd
| ClickRemove (index : nat)
| TypeOption (index : nat) (value : string).

Definition act (form : t) (action : Action) : option t :=
  match action with
  | TypeTitle value => Some (setTitle form value)
  | ClickAdd => Some (addOption form)
  | ClickRemove index => Some (removeOption form index)
  | TypeOption index value => updateOption form index value
  end.

(** The form renders a field and a remove button per option: the index of
    an action is the index of a rendered option. *)
Definition rendered (form : t) (action : Action) : bool :=
  match action with
  | ClickRemove index | TypeOption index _ => index <? length (options form)
  | _ => true
  end.

(** The form after a sequence of actions, each on what is rendered. *)
Fixpoint use (form : t) (actions : list Action) : option t :=
  match actions with
  | [] => Some form
  | action :: rest =>
      if rendered form action then
        match act form action with
        | Some form' => use form' rest
        | None => None
        end
      else None
  end.

End CreatePollForm.

(** ** client/src/components/PollAdmin.tsx and VotePage.tsx *)

Module PollAdmin.

(** The body that [handleEndPoll] posts, for the [poll] of the page;
    [None] when the page has no poll and posts nothing. *)
Definition handleEndPoll (poll : option Poll) : option json :=
  match poll with
  | None => None
  | Some poll => Some (JObj [("createdBy", JStr (Poll.createdBy poll))])
  end.

End PollAdmin.

Module VotePage.
Import Errors Routes.

(** The voter identifier of the page, from the clock and a random part. *)
Definition voterId (now random : string) : string :=
  String.append "voter-" (String.append now (String.append "-" random)).

(** The body that [handleVote] posts; [None] when nothing is selected or
    the page has no poll. *)
Definition handleVote (selectedOption : option string) (poll : option Poll)
    (voterId : string) : option json :=
  match selectedOption, poll with
  | Some optionId, Some _ =>
      if String.eqb optionId EmptyString then None
      else Some (JObj [("optionId", JStr optionId); ("voterId", JStr voterId)])
  | _, _ => None
  end.

(** What the page shows after the response to a vote. *)
Inductive Shown : Type :=
| ShownAlreadyVoted
| ShownMessage (message : ErrorText)
| ShownUnknownError
| ShownResults (poll : option Poll).

(** [response.ok] *)
Definition ok {A} (r : HttpResponse A) : bool :=
  (200 <=? http_status r) && (http_status r <=? 299).

Definition after_vote (r : HttpResponse VoteData) : Shown :=
  match body r with
  | ApiError e =>
      if http_status r =? 409 then ShownAlreadyVoted else ShownMessage (message e)
  | ApiSuccess data =>
      if negb (ok r) then
        if http_status r =? 409 then ShownAlreadyVoted else ShownUnknownError
      else ShownResults (voted_poll data)
  end.

End VotePage.

(** ** client/src/hooks/useWebSocket.ts: the reconnection *)

Module UseWebSocket.

Inductive HookError : Type :=
| ConnectionLost
| ConnectionError
| CreationFailed.

(** What the handlers of the hook read and write of its state and refs;
    [scheduled] lists the delays, in milliseconds, that [onclose] has
    passed to [setTimeout], oldest first. *)
Record t := mk {
  isConnected : bool;
  error : option HookError;
  reconnectAttempts : nat;
  scheduled : list Z
}.

Definition maxReconnectAttempts : nat := 5.

Definition initial : t :=
  {| isConnected := false; error := None; reconnectAttempts := 0; scheduled := [] |}.

Definition onopen (hook : t) : t :=
  {| isConnected := true; error := None; reconnectAttempts := 0;
     scheduled := scheduled hook |}.

Definition onclose (hook : t) : t :=
  if reconnectAttempts hook <? maxReconnectAttempts then
    let delay := (2 ^ Z.of_nat (reconnectAttempts hook) * 1000)%Z in
    {| isConnected := false; error := error hook;
       reconnectAttempts := S (reconnectAttempts hook);
       scheduled := scheduled hook ++ [delay] |}
  else
    {| isConnected := false; error := Some ConnectionLost;
       reconnectAttempts := reconnectAttempts hook;
       scheduled := scheduled hook |}.

Definition onerror (hook : t) : t :=
  {| isConnected := isConnected hook; error := Some ConnectionError;
     reconnectAttempts := reconnectAttempts hook; scheduled := scheduled hook |}.

(** [connect()] when [new WebSocket] throws. *)
Definition connect_failed (hook : t) : t :=
  {| isConnected := isConnected hook; error := Some CreationFailed;
     reconnectAttempts := reconnectAttempts hook; scheduled := scheduled hook |}.

Definition disconnect (hook : t) : t :=
  {| isConnected := false; error := error hook; reconnectAttempts := 0;
     scheduled := scheduled hook |}.

Inductive Event : Type :=
| SocketOpened
| SocketClosed
| SocketFailed
| CreationThrew
| Disconnected.

Definition handle (hook : t) (event : Event) : t :=
  match event with
  | SocketOpened => onopen hook
  | SocketClosed => onclose hook
  | SocketFailed => onerror hook
  | CreationThrew => connect_failed hook
  | Disconnected => disconnect hook
  end.

Definition run (events : list Event) : t := foldl handle initial events.

End UseWebSocket.

(** ** More vocabulary *)

Module Cover.
Import JsString Validation Errors Routes Server Spec.

(** A ["<"] with a [">"] somewhere after it: what [sanitizeHtml] removes. *)
Fixpoint has_tag (s : string) : bool :=
  match s with
  | EmptyString => false
  | String c r => (is_lt c && has_gt r) || has_tag r
  end.

(** All characters are white space. *)
Fixpoint all_space (s : string) : bool :=
  match s with
  | EmptyString => true
  | String c r => is_space c && all_space r
  end.

Definition reply_status (reply : Reply) : nat :=
  match reply with
  | CreateReply r | PollReply r => http_status r
  | VoteReply r => http_status r
  | ResultsReply r => http_status r
  | EndReply r => http_status r
  end.

Definition reply_error (reply : Reply) : option AppError :=
  match reply with
  | CreateReply r | PollReply r =>
      match body r with ApiError e => Some e | _ => None end
  | VoteReply r => match body r with ApiError e => Some e | _ => None end
  | ResultsReply r => match body r with ApiError e => Some e | _ => None end
  | EndReply r => match body r with ApiError e => Some e | _ => None end
  end.

(** The HTTP status that goes with an error kind. *)
Definition status_of (c : ErrorCode) : nat :=
  match c with
  | VALIDATION_ERROR => 400
  | POLL_NOT_FOUND => 404
  | ALREADY_VOTED => 409
  | POLL_ENDED => 409
  | INVALID_OPTION => 400
  | UNAUTHORIZED => 403
  | INTERNAL_ERROR => 500
  end.

(** The request creates a poll under [pollId]. *)
Definition creates (pollId : string) (request : Request) : Prop :=
  match request with
  | POST_polls env body =>
      isValid (validatePollCreation body) = true ∧ generatePollId env = pollId
  | _ => False
  end.

(** [p'] is [p] but for its status. *)
Definition same_but_status (p p' : Poll) : Prop :=
  p' = Poll.mk (Poll.id p) (Poll.title p) (Poll.options p) (Poll.status p')
         (Poll.createdAt p) (Poll.createdBy p) (Poll.totalVotes p).

(** What the routes keep of every stored poll, and of the logs. *)
Definition stored_well (store : DataStore) : Prop :=
  (∀ k p,
     DataStore.polls store !! k = Some p →
     Poll.id p = k
     ∧ Poll.createdBy p = "anonymous"
     ∧ Poll.totalVotes p = 0
     ∧ String.length (Poll.title p) ≤ 200
     ∧ 2 ≤ length (Poll.options p) ≤ 10
     ∧ Forall (fun o => PollOption.votes o = 0
                        ∧ PollOption.percentage o = 0%float
                        ∧ String.length (PollOption.text o) ≤ 100)
              (Poll.options p))
  ∧ (∀ k,
       DataStore.polls store !! k = None →
       DataStore.votes store !! k = None ∧ DataStore.pollVoters store !! k = None).

(** The confirmation that [addConnection] schedules. *)
Definition joined (pollId clientId : string) : WebSocket.WebSocketMessage :=
  {| WebSocket.type := WebSocket.join_poll;
     WebSocket.payload := WebSocket.Joined pollId clientId |}.

(** A message to a socket is explained by the events: the socket was
    opened for a poll, and the message is the confirmation of that opening
    or was published to that poll. *)
Definition explained (events : list WebSocket.Event) (ws : WebSocket.Socket)
    (message : WebSocket.WebSocketMessage) : Prop :=
  ∃ pollId clientId,
    WebSocket.Opened pollId ws clientId ∈ events
    ∧ (message = joined pollId clientId ∨ WebSocket.Published pollId message ∈ events).

(** Every connection of the manager and every message so far go back to
    the events. *)
Definition traced (events : list WebSocket.Event)
    (state : WebSocket.t * WebSocket.Net) : Prop :=
  (∀ p c,
     c ∈ registered state.1 p →
     WebSocket.pollId c = p
     ∧ WebSocket.Opened p (WebSocket.ws c) (WebSocket.clientId c) ∈ events)
  ∧ (∀ c m,
       (c, m) ∈ WebSocket.timers state.1 →
       m = joined (WebSocket.pollId c) (WebSocket.clientId c)
       ∧ WebSocket.Opened (WebSocket.pollId c) (WebSocket.ws c) (WebSocket.clientId c)
         ∈ events)
  ∧ (∀ ws m, (ws, m) ∈ WebSocket.sent state.2 → explained events ws m).

End Cover.

(** * Theorems *)

Import JsString Validation Errors Routes Server Spec.

(** ** Voting on an ended poll *)

Lemma post_vote_rejected_unchanged env store pollId body :
  succeeded (post_vote env store pollId body).1 = false →
  (post_vote env store pollId body).2 = store.
Proof.
  unfold post_vote.
  destruct (negb (isValid (validateVote body))); [done|].
  destruct (DataStore.getPoll store pollId) as [poll|]; [|done].
  destruct (negb (bool_decide (Poll.status poll = active))); [done|].
  destruct (List.find _ _); [|done].
  destruct (DataStore.hasVoted _ _ _); [done|].
  unfold DataStore.addVote; cbn.
  destruct (DataStore.polls store !! pollId); [|done].
  destruct (decide _); done.
Qed.

(** C7. On a poll whose status is [ended], a vote request never succeeds
    and leaves the store as it was; a request that passes [validateVote]
    is answered with POLL_ENDED (HTTP 409). *)
Theorem vote_on_ended_poll env store pollId body poll :
  DataStore.getPoll store pollId = Some poll →
  Poll.status poll = ended →
  succeeded (post_vote env store pollId body).1 = false
  ∧ (post_vote env store pollId body).2 = store
  ∧ (isValid (validateVote body) = true →
     (post_vote env store pollId body).1
     = json_response (ApiError pollEnded) 409).
Proof.
  intros Hpoll Hst. unfold post_vote. rewrite Hpoll.
  destruct (isValid (validateVote body)); cbn; [|by auto].
  rewrite Hst; cbn. auto.
Qed.

Lemma vote_on_ended_poll_witness :
  succeeded (post_vote Sample.vote_env Sample.closed "poll-1"
               (vote_body "b" "v3")).1 = false
  ∧ (post_vote Sample.vote_env Sample.closed "poll-1" (vote_body "b" "v3")).2
    = Sample.closed
  ∧ (isValid (validateVote (vote_body "b" "v3")) = true →
     (post_vote Sample.vote_env Sample.closed "poll-1" (vote_body "b" "v3")).1
     = json_response (ApiError pollEnded) 409).
Proof.
  apply (vote_on_ended_poll Sample.vote_env Sample.closed "poll-1"
           (vote_body "b" "v3")
           (Poll.mk "poll-1" "Lunch?"
              [PollOption.mk "a" "Sushi" 0 0%float;
               PollOption.mk "b" "Ramen" 0 0%float]
              ended 0%Z "anonymous" 0)).
  - vm_compute. reflexivity.
  - reflexivity.
Defined.

(** ** Ending a poll *)

Lemma str_strict_ne_spec (a : string) (v : jsval) :
  str_strict_ne a v = true ↔ v ≠ Some (JStr a).
Proof.
  destruct v as [[| | |b| |]|]; cbn; try (split; [discriminate|done]).
  rewrite negb_true_iff. destruct (String.eqb_spec a b) as [->|Hne].
  - split; [discriminate|]. intros H. by destruct H.
  - split; [|done]. intros _ [= ->]. by apply Hne.
Qed.

Lemma post_end_checked store pollId body poll v :
  DataStore.getPoll store pollId = Some poll →
  prop_or_throw body "createdBy" = Some v →
  truthy v && str_strict_ne (Poll.createdBy poll) v = true →
  post_end store pollId body
  = (json_response (ApiError unauthorized) 403, store).
Proof.
  intros Hpoll Hv Hcheck. unfold post_end. by rewrite Hpoll, Hv, Hcheck.
Qed.

Lemma post_end_unchecked store pollId body poll v :
  DataStore.getPoll store pollId = Some poll →
  prop_or_throw body "createdBy" = Some v →
  truthy v && str_strict_ne (Poll.createdBy poll) v = false →
  let result := post_end store pollId body in
  result.1
  = json_response
      (ApiSuccess {| ended_poll := DataStore.getPollWithResults result.2 pollId |})
      200
  ∧ DataStore.getPoll result.2 pollId
    = Some (Poll.mk (Poll.id poll) (Poll.title poll) (Poll.options poll) ended
              (Poll.createdAt poll) (Poll.createdBy poll) (Poll.totalVotes poll))
  ∧ DataStore.votes result.2 = DataStore.votes store
  ∧ DataStore.pollVoters result.2 = DataStore.pollVoters store.
Proof.
  intros Hpoll Hv Hcheck. unfold post_end. rewrite Hpoll, Hv, Hcheck.
  unfold DataStore.getPoll in Hpoll. unfold DataStore.updatePoll.
  rewrite Hpoll. cbn. split; [done|]. split; [|done].
  unfold DataStore.getPoll; cbn. by rewrite lookup_insert_eq.
Qed.

(** C10. On an existing poll, an end request whose body has no [createdBy],
    or a falsy one, succeeds (HTTP 200) whoever created the poll: the
    stored poll becomes [ended], its other fields, the vote log and the
    dedup sets stay as they were, and the response carries the aggregated
    view of the ended poll. An UNAUTHORIZED answer arises only for a truthy
    [createdBy] that is not the creator of the poll. *)
Theorem end_without_createdBy store pollId body poll v :
  DataStore.getPoll store pollId = Some poll →
  prop_or_throw body "createdBy" = Some v →
  (truthy v = false →
   let result := post_end store pollId body in
   result.1
   = json_response
       (ApiSuccess {| ended_poll := DataStore.getPollWithResults result.2 pollId |})
       200
   ∧ DataStore.getPoll result.2 pollId
     = Some (Poll.mk (Poll.id poll) (Poll.title poll) (Poll.options poll) ended
               (Poll.createdAt poll) (Poll.createdBy poll) (Poll.totalVotes poll))
   ∧ (Poll.status <$> DataStore.getPollWithResults result.2 pollId) = Some ended
   ∧ DataStore.votes result.2 = DataStore.votes store
   ∧ DataStore.pollVoters result.2 = DataStore.pollVoters store)
  ∧ (error_code (post_end store pollId body).1 = Some UNAUTHORIZED →
     truthy v = true ∧ v ≠ Some (JStr (Poll.createdBy poll))).
Proof.
  intros Hpoll Hv. split.
  - intros Hfalsy.
    destruct (post_end_unchecked store pollId body poll v Hpoll Hv)
      as (Hr & Hp & Hvotes & Hvoters); [by rewrite Hfalsy|].
    cbn zeta. repeat split; try done.
    unfold DataStore.getPollWithResults.
    unfold DataStore.getPoll in Hp. by rewrite Hp.
  - intros Herr.
    destruct (truthy v && str_strict_ne (Poll.createdBy poll) v) eqn:Hcheck.
    + apply andb_true_iff in Hcheck as [Ht Hne].
      split; [done|]. by apply str_strict_ne_spec.
    + destruct (post_end_unchecked store pollId body poll v Hpoll Hv Hcheck)
        as (Hr & _).
      cbn zeta in Hr. unfold error_code in Herr. by rewrite Hr in Herr.
Qed.

Lemma end_without_createdBy_witness :
  (truthy None = false →
   let result := post_end Sample.voted "poll-1" (JObj []) in
   result.1
   = json_response
       (ApiSuccess {| ended_poll := DataStore.getPollWithResults result.2 "poll-1" |})
       200
   ∧ DataStore.getPoll result.2 "poll-1"
     = Some (Poll.mk "poll-1" "Lunch?"
               [PollOption.mk "a" "Sushi" 0 0%float;
                PollOption.mk "b" "Ramen" 0 0%float]
               ended 0%Z "anonymous" 0)
   ∧ (Poll.status <$> DataStore.getPollWithResults result.2 "poll-1") = Some ended
   ∧ DataStore.votes result.2 = DataStore.votes Sample.voted
   ∧ DataStore.pollVoters result.2 = DataStore.pollVoters Sample.voted)
  ∧ (error_code (post_end Sample.voted "poll-1" (JObj [])).1 = Some UNAUTHORIZED →
     truthy None = true ∧ None ≠ Some (JStr "anonymous")).
Proof.
  apply (end_without_createdBy Sample.voted "poll-1" (JObj [])
           (Poll.mk "poll-1" "Lunch?"
              [PollOption.mk "a" "Sushi" 0 0%float;
               PollOption.mk "b" "Ramen" 0 0%float]
              active 0%Z "anonymous" 0) None).
  - vm_compute. reflexivity.
  - reflexivity.
Defined.

(** C3, as the code has it. On an existing poll, an end request whose
    [createdBy] is truthy (a non-empty string, for one) and is not the
    creator of the poll is answered with UNAUTHORIZED (HTTP 403), and the
    store, hence the status and every other field of the poll, is as it
    was. *)
Theorem end_by_other_requester store pollId body poll v :
  DataStore.getPoll store pollId = Some poll →
  prop_or_throw body "createdBy" = Some v →
  truthy v = true →
  v ≠ Some (JStr (Poll.createdBy poll)) →
  post_end store pollId body = (json_response (ApiError unauthorized) 403, store).
Proof.
  intros Hpoll Hv Ht Hne. apply (post_end_checked _ _ _ poll v); try done.
  rewrite Ht; cbn. by apply str_strict_ne_spec.
Qed.

Lemma end_by_other_requester_witness :
  post_end Sample.voted "poll-1" (JObj [("createdBy", JStr "mallory")])
  = (json_response (ApiError unauthorized) 403, Sample.voted).
Proof.
  apply (end_by_other_requester Sample.voted "poll-1"
           (JObj [("createdBy", JStr "mallory")])
           (Poll.mk "poll-1" "Lunch?"
              [PollOption.mk "a" "Sushi" 0 0%float;
               PollOption.mk "b" "Ramen" 0 0%float]
              active 0%Z "anonymous" 0)
           (Some (JStr "mallory"))).
  - vm_compute. reflexivity.
  - reflexivity.
  - reflexivity.
  - discriminate.
Defined.

(** The claim C3 as it is stated fails for the empty requester identifier,
    which differs from the creator ["anonymous"] of the poll: the request
    succeeds and the poll is ended. *)
Lemma end_by_empty_requester_succeeds :
  let body := JObj [("createdBy", JStr EmptyString)] in
  DataStore.getPoll Sample.voted "poll-1"
  = Some (Poll.mk "poll-1" "Lunch?"
            [PollOption.mk "a" "Sushi" 0 0%float;
             PollOption.mk "b" "Ramen" 0 0%float]
            active 0%Z "anonymous" 0)
  ∧ EmptyString ≠ "anonymous"
  ∧ error_code (post_end Sample.voted "poll-1" body).1 ≠ Some UNAUTHORIZED
  ∧ http_status (post_end Sample.voted "poll-1" body).1 = 200
  ∧ (Poll.status <$> DataStore.getPoll (post_end Sample.voted "poll-1" body).2 "poll-1")
    = Some ended.
Proof.
  cbn zeta. split; [by vm_compute|]. split; [discriminate|].
  split; [by vm_compute|]. split; by vm_compute.
Qed.

(** ** Creating a poll *)

Lemma length_eqb_0 (s : string) : (String.length s =? 0) = true ↔ s = EmptyString.
Proof.
  destruct s; cbn; [done|]. split; discriminate.
Qed.

Lemma validate_option_nil i o : validate_option i o = [] ↔ acceptable_option o.
Proof.
  unfold validate_option, acceptable_option. split.
  - destruct o as [| | |s| |]; try discriminate.
    destruct (String.length (trim s) =? 0) eqn:Hblank; [discriminate|].
    destruct (100 <? String.length s) eqn:Hlong; [discriminate|].
    intros _. exists s. split; [done|]. split.
    + intros Hs. apply length_eqb_0 in Hs. congruence.
    + by apply Nat.ltb_ge.
  - intros (s & -> & Hblank & Hlen).
    destruct (String.length (trim s) =? 0) eqn:Hb.
    + by apply length_eqb_0 in Hb.
    + apply Nat.ltb_ge in Hlen. by rewrite Hlen.
Qed.

Lemma validate_each_nil i os :
  validate_each i os = [] ↔ Forall acceptable_option os.
Proof.
  revert i. induction os as [|o os IH]; intros i; cbn.
  - split; [constructor|done].
  - rewrite Forall_cons, <-(IH (S i)), <-(validate_option_nil i).
    split.
    + intros H. by apply app_eq_nil in H.
    + intros [-> ->]. done.
Qed.

Lemma validate_title_nil (v : jsval) :
  validate_title v = []
  ↔ ∃ s, v = Some (JStr s) ∧ trim s ≠ EmptyString ∧ String.length s ≤ 200.
Proof.
  unfold validate_title. split.
  - destruct (negb (truthy v)); [discriminate|].
    destruct v as [[| | |s| |]|]; try discriminate.
    destruct (String.length (trim s) =? 0) eqn:Hblank; [discriminate|].
    destruct (200 <? String.length s) eqn:Hlong; [discriminate|].
    intros _. exists s. split; [done|]. split.
    + intros Hs. apply length_eqb_0 in Hs. congruence.
    + by apply Nat.ltb_ge.
  - intros (s & -> & Hblank & Hlen).
    assert (s ≠ EmptyString) as Hs by (intros ->; by apply Hblank).
    destruct s as [|c s]; [done|]. cbn [truthy String.eqb negb].
    destruct (String.length (trim (String c s)) =? 0) eqn:Hb.
    + by apply length_eqb_0 in Hb.
    + apply Nat.ltb_ge in Hlen. by rewrite Hlen.
Qed.

Lemma validate_options_nil (v : jsval) :
  validate_options v = []
  ↔ ∃ os, v = Some (JArr os) ∧ 2 ≤ length os ≤ 10 ∧ Forall acceptable_option os.
Proof.
  unfold validate_options. split.
  - destruct (negb (truthy v)); [discriminate|].
    destruct v as [[| | | |os|]|]; try discriminate.
    destruct (length os <? 2) eqn:Hfew; [discriminate|].
    destruct (10 <? length os) eqn:Hmany; [discriminate|].
    intros Heach. exists os. split; [done|].
    apply Nat.ltb_ge in Hfew. apply Nat.ltb_ge in Hmany.
    split; [lia|]. by apply (validate_each_nil 0).
  - intros (os & -> & [Hfew Hmany] & Hall). cbn [truthy negb].
    apply Nat.ltb_ge in Hfew. apply Nat.ltb_ge in Hmany.
    rewrite Hfew, Hmany. by apply validate_each_nil.
Qed.

Lemma validatePollCreation_valid body :
  isValid (validatePollCreation body) = true ↔ acceptable_creation body.
Proof.
  unfold validatePollCreation, acceptable_creation. split.
  - destruct (negb (truthy (Some body))); [discriminate|].
    unfold finish; cbn [isValid].
    destruct (validate_title (prop body "title")) eqn:Ht; [|discriminate].
    destruct (validate_options (prop body "options")) eqn:Ho; [|discriminate].
    intros _.
    apply validate_title_nil in Ht as (title & Ht & ? & ?).
    apply validate_options_nil in Ho as (os & Ho & ? & ?).
    by exists title, os.
  - intros (title & os & Ht & Hblank & Hlen & Ho & Hn & Hall).
    destruct body as [| | | | |fields]; try discriminate.
    cbn [truthy negb].
    assert (validate_title (prop (JObj fields) "title") = []) as ->
      by (apply validate_title_nil; eauto).
    assert (validate_options (prop (JObj fields) "options") = []) as ->
      by (apply validate_options_nil; eauto).
    done.
Qed.

Lemma imap_new_options_zero (gen : nat → string) (texts : list string) :
  Forall (fun o => PollOption.votes o = 0 ∧ PollOption.percentage o = 0%float)
         (imap (fun i text => PollOption.mk (gen i) text 0 0%float) texts).
Proof.
  revert gen. induction texts as [|x texts IH]; intros gen; cbn.
  - constructor.
  - constructor; [done|]. apply (IH (gen ∘ S)).
Qed.

Lemma createPoll_view store poll :
  Forall (fun o => PollOption.votes o = 0 ∧ PollOption.percentage o = 0%float)
         (Poll.options poll) →
  Poll.totalVotes poll = 0 →
  let store' := (DataStore.createPoll store poll).2 in
  DataStore.getPoll store' (Poll.id poll) = Some poll
  ∧ DataStore.getVotes store' (Poll.id poll) = []
  ∧ DataStore.getPollWithResults store' (Poll.id poll) = Some poll.
Proof.
  intros Hzero Htotal. cbn zeta.
  unfold DataStore.getPoll, DataStore.getVotes, DataStore.getPollWithResults,
    DataStore.aggregateResults, DataStore.getVotes; cbn.
  rewrite !lookup_insert_eq. cbn [default length].
  split; [done|]. split; [done|].
  match goal with
  | |- context [map ?F (Poll.options poll)] =>
      assert (map F (Poll.options poll) = Poll.options poll) as ->
  end.
  { clear Htotal. revert Hzero. generalize (Poll.options poll).
    intros os Hzero. induction Hzero as [|o os [Hv Hp] _ IH]; cbn; [done|].
    f_equal; [|done]. destruct o; cbn in *. by subst. }
  destruct poll; cbn in *. by subst.
Qed.

(** C9, as the code has it. A creation request fails, with
    VALIDATION_ERROR (HTTP 400) and an unchanged store, exactly when it is
    not acceptable: the title is missing, not a string, blank or longer than
    200, or the options are not an array of 2 to 10 strings that are each
    neither blank nor longer than 100. An acceptable request is answered
    with 201 and the new poll: it is [active], its total and the count and
    percentage of every option are zero, it is stored under the generated
    identifier with an empty vote log, and its aggregated view is the poll
    itself. *)
Theorem create_poll_outcome env store body :
  let result := post_poll env store body in
  (succeeded result.1 = false ↔ ¬ acceptable_creation body)
  ∧ (¬ acceptable_creation body →
     error_code result.1 = Some VALIDATION_ERROR
     ∧ http_status result.1 = 400
     ∧ result.2 = store)
  ∧ (acceptable_creation body →
     ∃ poll,
       result.1 = json_response (ApiSuccess poll) 201
       ∧ Poll.id poll = generatePollId env
       ∧ Poll.status poll = active
       ∧ Poll.totalVotes poll = 0
       ∧ Forall (fun o => PollOption.votes o = 0 ∧ PollOption.percentage o = 0%float)
                (Poll.options poll)
       ∧ length (Poll.options poll) = length (as_strings (prop body "options"))
       ∧ DataStore.getPoll result.2 (Poll.id poll) = Some poll
       ∧ DataStore.getVotes result.2 (Poll.id poll) = []
       ∧ DataStore.getPollWithResults result.2 (Poll.id poll) = Some poll).
Proof.
  cbn zeta. unfold post_poll.
  destruct (isValid (validatePollCreation body)) eqn:Hvalid; cbn [negb].
  - apply validatePollCreation_valid in Hvalid.
    split; [split; [discriminate|done]|]. split; [done|]. intros _.
    match goal with
    | |- context [DataStore.createPoll store ?p] => set (poll := p)
    end.
    assert (Forall (fun o => PollOption.votes o = 0 ∧ PollOption.percentage o = 0%float)
              (Poll.options poll)) as Hzero by apply imap_new_options_zero.
    destruct (createPoll_view store poll Hzero eq_refl) as (Hget & Hvotes & Hview).
    exists poll. cbn [fst snd DataStore.createPoll].
    repeat split; try done.
    subst poll; cbn. by rewrite length_imap, !length_map.
  - assert (¬ acceptable_creation body) as Hno.
    { intros Hacc. apply validatePollCreation_valid in Hacc. congruence. }
    split; [done|]. split; [done|]. intros Hacc. by destruct Hno.
Qed.

Lemma create_poll_outcome_witness :
  acceptable_creation Sample.lunch
  ∧ ∃ poll,
      (post_poll Sample.create_env DataStore.new Sample.lunch).1
      = json_response (ApiSuccess poll) 201
      ∧ Poll.status poll = active
      ∧ Poll.totalVotes poll = 0
      ∧ Forall (fun o => PollOption.votes o = 0 ∧ PollOption.percentage o = 0%float)
               (Poll.options poll).
Proof.
  assert (acceptable_creation Sample.lunch) as Hacc.
  { exists "Lunch?", [JStr "Sushi"; JStr "Ramen"].
    repeat split; try done; cbn; try lia.
    repeat constructor.
    - exists "Sushi". repeat split; try done. cbn. lia.
    - exists "Ramen". repeat split; try done. cbn. lia. }
  split; [exact Hacc|].
  destruct (create_poll_outcome Sample.create_env DataStore.new Sample.lunch)
    as (_ & _ & Hok).
  destruct (Hok Hacc) as (poll & Hr & _ & Hs & Ht & Hz & _).
  exists poll. repeat split; done.
Defined.

(** The claim C9 as it is stated fails for a request whose title is not empty
    and which has two options, one of them the empty string: the request is
    rejected with VALIDATION_ERROR. *)
Lemma create_with_blank_option_rejected :
  let body :=
    JObj [("title", JStr "Lunch?"); ("options", JArr [JStr "Sushi"; JStr EmptyString])] in
  prop body "title" = Some (JStr "Lunch?")
  ∧ "Lunch?" ≠ EmptyString
  ∧ prop body "options" = Some (JArr [JStr "Sushi"; JStr EmptyString])
  ∧ 2 ≤ length [JStr "Sushi"; JStr EmptyString] ≤ 10
  ∧ post_poll Sample.create_env DataStore.new body
    = (json_response (ApiError (createValidationError [OptionEmpty 2])) 400,
       DataStore.new).
Proof.
  cbn zeta. repeat split; try done; cbn; lia.
Qed.

(** ** The ledger: one vote per voter *)

Section Ledger.

Lemma ledger_inv_new : ledger_inv DataStore.new.
Proof.
  intros pollId. unfold has_vote_of, DataStore.getVotes; cbn.
  rewrite !lookup_empty; cbn. split; [constructor|]. split; [|set_solver].
  intros voterId. set_solver.
Qed.

Lemma ledger_inv_createPoll store poll :
  ledger_inv store → ledger_inv (DataStore.createPoll store poll).2.
Proof.
  intros Hinv pollId. specialize (Hinv pollId).
  unfold has_vote_of, DataStore.getVotes in *; cbn.
  destruct (decide (Poll.id poll = pollId)) as [->|Hne].
  - rewrite !lookup_insert_eq; cbn. clear Hinv.
    split; [constructor|]. split; [|by intros v ?%elem_of_nil].
    intros voterId. split; [by intros ?%elem_of_empty|by intros ?%elem_of_nil].
  - by rewrite !lookup_insert_ne.
Qed.

Lemma ledger_inv_updatePoll store pollId updates :
  ledger_inv store → ledger_inv (DataStore.updatePoll store pollId updates).2.
Proof.
  intros Hinv. unfold DataStore.updatePoll.
  destruct (DataStore.polls store !! pollId); [|done].
  intros p. apply (Hinv p).
Qed.

Lemma ledger_inv_addVote store vote :
  ledger_inv store → ledger_inv (DataStore.addVote store vote).2.
Proof.
  intros Hinv. unfold DataStore.addVote.
  destruct (DataStore.polls store !! Vote.pollId vote); [|done].
  destruct (decide _) as [|Hnew]; [done|].
  intros pollId. destruct (Hinv pollId) as (Hnodup & Hset & Hpid).
  unfold has_vote_of, DataStore.getVotes in *; cbn.
  destruct (decide (Vote.pollId vote = pollId)) as [Heq|Hne].
  - rewrite Heq in *. rewrite !lookup_insert_eq; cbn.
    assert (Vote.voterId vote
            ∉ Vote.voterId <$> default [] (DataStore.votes store !! pollId)) as Hfresh
      by (intros Hin; by apply Hnew, Hset).
    split; [|split].
    + rewrite fmap_app. apply NoDup_app. split; [done|]. split.
      * intros x Hx Hx'. cbn in Hx'. apply list_elem_of_singleton in Hx'.
        by subst.
      * cbn. apply NoDup_singleton.
    + intros voterId. rewrite fmap_app, elem_of_app, elem_of_union, Hset.
      cbn. rewrite list_elem_of_singleton, elem_of_singleton. done.
    + intros v Hv. apply elem_of_app in Hv as [Hv|Hv]; [by apply Hpid|].
      apply list_elem_of_singleton in Hv. by subst.
  - by rewrite !lookup_insert_ne.
Qed.

Lemma ledger_inv_route store request :
  ledger_inv store → ledger_inv (route store request).2.
Proof.
  intros Hinv. destruct request as [env body|pollId|env pollId body|pollId|pollId body];
    cbn; try done.
  - unfold post_poll. destruct (negb _); [done|]. by apply ledger_inv_createPoll.
  - destruct (post_vote env store pollId body) as [r store'] eqn:Hvote. cbn.
    destruct (succeeded r) eqn:Hok.
    + revert Hvote. unfold post_vote.
      destruct (negb (isValid (validateVote body))); [by intros [= <- <-]|].
      destruct (DataStore.getPoll store pollId) as [poll|]; [|by intros [= <- <-]].
      destruct (negb (bool_decide (Poll.status poll = active))); [by intros [= <- <-]|].
      destruct (List.find _ _); [|by intros [= <- <-]].
      destruct (DataStore.hasVoted _ _ _); [by intros [= <- <-]|].
      match goal with
      | |- context [DataStore.addVote store ?v] =>
          pose proof (ledger_inv_addVote store v Hinv) as Hadd;
          destruct (DataStore.addVote store v) as [success store1]
      end.
      destruct (negb success); by intros [= <- <-].
    + pose proof (post_vote_rejected_unchanged env store pollId body) as Hsame.
      rewrite Hvote in Hsame. cbn in Hsame. by rewrite Hsame.
  - unfold post_end.
    destruct (DataStore.getPoll store pollId) as [poll|]; [|done].
    destruct (prop_or_throw body "createdBy") as [v|]; [|done].
    destruct (truthy v && _); [done|].
    match goal with
    | |- context [DataStore.updatePoll store pollId ?u] =>
        pose proof (ledger_inv_updatePoll store pollId u Hinv) as Hupd;
        destruct (DataStore.updatePoll store pollId u) as [[p|] store1]
    end; done.
Qed.

Lemma serve_snoc store requests request :
  serve store (requests ++ [request]) = (route (serve store requests) request).2.
Proof. unfold serve. by rewrite foldl_snoc. Qed.

Lemma ledger_inv_serve requests : ledger_inv (serve DataStore.new requests).
Proof.
  induction requests as [|request requests IH] using rev_ind.
  - apply ledger_inv_new.
  - rewrite serve_snoc. by apply ledger_inv_route.
Qed.

Lemma hasVoted_true store pollId voterId :
  ledger_inv store →
  has_vote_of store pollId voterId →
  DataStore.hasVoted store pollId voterId = true.
Proof.
  intros Hinv Hvoted. destruct (Hinv pollId) as (_ & Hset & _).
  unfold DataStore.hasVoted. apply bool_decide_eq_true. by apply Hset.
Qed.

Lemma find_option_Some (options : list PollOption) (optionId : string) :
  optionId ∈ PollOption.id <$> options →
  is_Some (List.find (fun opt => String.eqb (PollOption.id opt) optionId) options).
Proof.
  induction options as [|o os IH]; cbn; [by intros ?%elem_of_nil|].
  intros Hin. destruct (String.eqb_spec (PollOption.id o) optionId) as [|Hne]; [eauto|].
  apply elem_of_cons in Hin as [->|Hin]; [done|]. by apply IH.
Qed.

Lemma find_option_elem (options : list PollOption) (optionId : string) o :
  List.find (fun opt => String.eqb (PollOption.id opt) optionId) options = Some o →
  optionId ∈ PollOption.id <$> options.
Proof.
  induction options as [|o' os IH]; cbn; [done|].
  destruct (String.eqb_spec (PollOption.id o') optionId) as [<-|Hne].
  - intros _. apply elem_of_cons. by left.
  - intros H. apply elem_of_cons. right. by apply IH.
Qed.

End Ledger.

Lemma post_vote_accepted env store pollId body :
  succeeded (post_vote env store pollId body).1 = true →
  DataStore.hasVoted store pollId (voterId (as_VoteRequest body)) = false
  ∧ DataStore.getVotes (post_vote env store pollId body).2 pollId
    = DataStore.getVotes store pollId
      ++ [Vote.mk (generateVoteId env) pollId (optionId (as_VoteRequest body))
            (voterId (as_VoteRequest body)) (vote_now env)].
Proof.
  unfold post_vote.
  destruct (negb (isValid (validateVote body))); [done|].
  destruct (DataStore.getPoll store pollId) as [poll|] eqn:Hpoll; [|done].
  destruct (negb (bool_decide (Poll.status poll = active))); [done|].
  destruct (List.find _ _); [|done].
  destruct (DataStore.hasVoted _ _ _) eqn:Hhas; [done|].
  unfold DataStore.hasVoted in Hhas. apply bool_decide_eq_false in Hhas.
  unfold DataStore.addVote, DataStore.getPoll in *. cbn [Vote.pollId Vote.voterId].
  rewrite Hpoll. rewrite decide_False by done. cbn.
  intros _. split; [done|]. unfold DataStore.getVotes; cbn.
  by rewrite lookup_insert_eq.
Qed.

(** C1, as the code has it. After any sequence of requests the log of every
    poll holds at most one vote of any voter, and the dedup set of the poll
    holds exactly the voters of its log; a vote request that succeeds
    appends one vote to the log, of a voter who had none in it. A vote
    request of a voter who has a vote in the log of the poll never succeeds
    and leaves the store (the log, the dedup sets, hence the tallies) as it
    was; it is answered with ALREADY_VOTED (HTTP 409) when it reaches the
    duplicate check, that is when it passes [validateVote], the poll is
    [active] and the option is one of the poll. *)
Theorem one_vote_per_voter requests :
  let store := serve DataStore.new requests in
  (∀ pollId,
     NoDup (Vote.voterId <$> DataStore.getVotes store pollId)
     ∧ ∀ voterId,
         voterId ∈ default ∅ (DataStore.pollVoters store !! pollId)
         ↔ has_vote_of store pollId voterId)
  ∧ (∀ env pollId body,
       succeeded (post_vote env store pollId body).1 = true →
       ¬ has_vote_of store pollId (voterId (as_VoteRequest body))
       ∧ DataStore.getVotes (post_vote env store pollId body).2 pollId
         = DataStore.getVotes store pollId
           ++ [Vote.mk (generateVoteId env) pollId (optionId (as_VoteRequest body))
                 (voterId (as_VoteRequest body)) (vote_now env)])
  ∧ ∀ env pollId body,
      has_vote_of store pollId (voterId (as_VoteRequest body)) →
      succeeded (post_vote env store pollId body).1 = false
      ∧ (post_vote env store pollId body).2 = store
      ∧ ∀ poll,
          isValid (validateVote body) = true →
          DataStore.getPoll store pollId = Some poll →
          Poll.status poll = active →
          optionId (as_VoteRequest body) ∈ PollOption.id <$> Poll.options poll →
          (post_vote env store pollId body).1
          = json_response (ApiError alreadyVoted) 409.
Proof.
  cbn zeta. pose proof (ledger_inv_serve requests) as Hinv.
  set (store := serve DataStore.new requests) in *. split.
  - intros pollId. destruct (Hinv pollId) as (? & ? & _). done.
  - split.
    { intros env pollId body Hok.
      destruct (post_vote_accepted env store pollId body Hok) as [Hnew Hlog].
      split; [|done]. intros Hvoted.
      by rewrite (hasVoted_true store pollId _ Hinv Hvoted) in Hnew. }
    intros env pollId body Hvoted.
    pose proof (hasVoted_true store pollId _ Hinv Hvoted) as Hhas.
    assert (succeeded (post_vote env store pollId body).1 = false) as Hfail.
    { unfold post_vote.
      destruct (negb (isValid (validateVote body))); [done|].
      destruct (DataStore.getPoll store pollId) as [poll|]; [|done].
      destruct (negb (bool_decide (Poll.status poll = active))); [done|].
      destruct (List.find _ _); [|done]. by rewrite Hhas. }
    split; [done|]. split; [by apply post_vote_rejected_unchanged|].
    intros poll Hvalid Hpoll Hactive Hopt.
    unfold post_vote. rewrite Hvalid, Hpoll, Hactive; cbn [negb].
    rewrite bool_decide_eq_true_2 by done. cbn [negb].
    destruct (find_option_Some _ _ Hopt) as [o ->]. by rewrite Hhas.
Qed.

Lemma one_vote_per_voter_witness :
  has_vote_of Sample.voted "poll-1" "v1"
  ∧ (post_vote Sample.vote_env Sample.voted "poll-1" (vote_body "b" "v1")).1
    = json_response (ApiError alreadyVoted) 409
  ∧ (post_vote Sample.vote_env Sample.voted "poll-1" (vote_body "b" "v1")).2
    = Sample.voted.
Proof.
  assert (has_vote_of Sample.voted "poll-1" "v1") as Hvoted.
  { vm_compute. apply elem_of_cons. by left. }
  destruct (one_vote_per_voter
              [POST_polls Sample.create_env Sample.lunch;
               POST_vote Sample.vote_env "poll-1" (vote_body "a" "v1")])
    as (_ & _ & Hdup).
  destruct (Hdup Sample.vote_env "poll-1" (vote_body "b" "v1") Hvoted)
    as (_ & Hsame & Hcode).
  split; [exact Hvoted|]. split; [|exact Hsame].
  apply (Hcode (Poll.mk "poll-1" "Lunch?"
                  [PollOption.mk "a" "Sushi" 0 0%float;
                   PollOption.mk "b" "Ramen" 0 0%float]
                  active 0%Z "anonymous" 0)).
  - reflexivity.
  - vm_compute. reflexivity.
  - reflexivity.
  - cbn. apply elem_of_cons. right. apply elem_of_cons. by left.
Defined.

(** The claim C1 as it is stated fails for a voter who has voted on a poll
    that has been ended since, and for a voter who has voted and now names an
    option that the poll does not have: the answers are POLL_ENDED and
    INVALID_OPTION, not ALREADY_VOTED. *)
Lemma repeated_vote_not_always_duplicate :
  has_vote_of Sample.closed "poll-1" "v1"
  ∧ error_code (post_vote Sample.vote_env Sample.closed "poll-1"
                  (vote_body "b" "v1")).1 = Some POLL_ENDED
  ∧ has_vote_of Sample.voted "poll-1" "v1"
  ∧ error_code (post_vote Sample.vote_env Sample.voted "poll-1"
                  (vote_body "z" "v1")).1 = Some INVALID_OPTION.
Proof.
  split; [vm_compute; apply elem_of_cons; by left|].
  split; [by vm_compute|].
  split; [vm_compute; apply elem_of_cons; by left|].
  by vm_compute.
Qed.

(** ** The aggregator *)

Section Aggregator.

Lemma sum_list_zero {A} (l : list A) : sum_list ((fun _ => 0) <$> l) = 0.
Proof. induction l; cbn; [done|]. done. Qed.

Lemma sum_indicator (x : string) (ids : list string) :
  NoDup ids →
  sum_list ((fun i => if decide (x = i) then 1 else 0) <$> ids)
  = if decide (x ∈ ids) then 1 else 0.
Proof.
  induction 1 as [|i ids Hi Hnd IH]; cbn.
  - by rewrite decide_False by apply not_elem_of_nil.
  - rewrite IH. destruct (decide (x = i)) as [->|Hne].
    + rewrite (decide_False (P := i ∈ ids)) by done.
      rewrite decide_True; [done|]. apply elem_of_cons. by left.
    + destruct (decide (x ∈ ids)) as [Hin|Hout].
      * rewrite decide_True; [done|]. apply elem_of_cons. by right.
      * rewrite decide_False; [done|].
        intros [?|?]%elem_of_cons; done.
Qed.

Lemma sum_count_for (ids : list string) (votes : list Vote) :
  NoDup ids →
  (∀ v, v ∈ votes → Vote.optionId v ∈ ids) →
  sum_list (count_for votes <$> ids) = length votes.
Proof.
  intros Hnd. induction votes as [|v votes IH]; intros Hin.
  - unfold count_for. cbn. apply sum_list_zero.
  - assert (sum_list (count_for (v :: votes) <$> ids)
            = sum_list ((fun i => if decide (Vote.optionId v = i) then 1 else 0) <$> ids)
              + sum_list (count_for votes <$> ids)) as ->.
    { clear. induction ids as [|i ids IH]; [done|].
      rewrite !fmap_cons. cbn [sum_list sum_list_with]. rewrite IH.
      assert (count_for (v :: votes) i
              = (if decide (Vote.optionId v = i) then 1 else 0) + count_for votes i)
        as ->; [|unfold id; lia].
      unfold count_for. rewrite filter_cons.
      by destruct (decide (Vote.optionId v = i)). }
    rewrite sum_indicator by done.
    rewrite decide_True by (apply Hin, elem_of_cons; by left).
    rewrite IH; [done|]. intros v' Hv'. apply Hin, elem_of_cons. by right.
Qed.

Lemma aggregateResults_votes store pollId poll :
  DataStore.polls store !! pollId = Some poll →
  PollOption.votes <$> DataStore.aggregateResults store pollId
  = count_for (DataStore.getVotes store pollId)
      <$> (PollOption.id <$> Poll.options poll).
Proof.
  intros Hpoll. unfold DataStore.aggregateResults, DataStore.getVotes.
  rewrite Hpoll. generalize (Poll.options poll).
  induction l as [|o os IH]; cbn; [done|]. f_equal. apply IH.
Qed.

Lemma tally_inv_sum store pollId view :
  tally_inv store →
  DataStore.getPollWithResults store pollId = Some view →
  sum_votes (Poll.options view) = Poll.totalVotes view.
Proof.
  intros Hinv. unfold DataStore.getPollWithResults.
  destruct (DataStore.polls store !! pollId) as [poll|] eqn:Hpoll; [|done].
  intros [= <-]. cbn. unfold sum_votes.
  rewrite (aggregateResults_votes _ _ poll Hpoll).
  destruct (Hinv pollId poll Hpoll) as [Hnd Hin].
  by apply sum_count_for.
Qed.

Lemma tally_inv_new : tally_inv DataStore.new.
Proof. intros pollId poll. cbn. by rewrite lookup_empty. Qed.

Lemma tally_inv_createPoll store poll :
  NoDup (PollOption.id <$> Poll.options poll) →
  tally_inv store → tally_inv (DataStore.createPoll store poll).2.
Proof.
  intros Hnd Hinv pollId p. unfold DataStore.getVotes; cbn.
  destruct (decide (Poll.id poll = pollId)) as [->|Hne].
  - rewrite !lookup_insert_eq. intros [= <-]. cbn.
    split; [done|]. by intros v ?%elem_of_nil.
  - rewrite !lookup_insert_ne by done. apply Hinv.
Qed.

Lemma tally_inv_end store pollId :
  tally_inv store →
  tally_inv (DataStore.updatePoll store pollId
               (Poll.mkPartial None None None (Some ended) None None None)).2.
Proof.
  intros Hinv. unfold DataStore.updatePoll.
  destruct (DataStore.polls store !! pollId) as [poll|] eqn:Hpoll; [|done].
  intros p q. unfold DataStore.getVotes; cbn.
  destruct (decide (pollId = p)) as [<-|Hne].
  - rewrite lookup_insert_eq. intros [= <-]. cbn. by apply Hinv.
  - rewrite lookup_insert_ne by done. apply Hinv.
Qed.

Lemma tally_inv_addVote store vote poll :
  DataStore.polls store !! Vote.pollId vote = Some poll →
  Vote.optionId vote ∈ PollOption.id <$> Poll.options poll →
  tally_inv store → tally_inv (DataStore.addVote store vote).2.
Proof.
  intros Hpoll Hopt Hinv. unfold DataStore.addVote. rewrite Hpoll.
  destruct (decide _); [done|].
  intros p q. unfold DataStore.getVotes; cbn. intros Hq.
  destruct (Hinv p q Hq) as [Hnd Hin]. split; [done|].
  destruct (decide (Vote.pollId vote = p)) as [Heq|Hne].
  - rewrite Heq in *. rewrite lookup_insert_eq. cbn.
    intros v [Hv|Hv]%elem_of_app; [by apply Hin|].
    apply list_elem_of_singleton in Hv. subst v. congruence.
  - by rewrite lookup_insert_ne.
Qed.

Lemma new_option_ids (gen : nat → string) k (texts : list string) :
  PollOption.id <$> imap (fun i text => PollOption.mk (gen (k + i)) text 0 0%float) texts
  = gen <$> seq k (length texts).
Proof.
  revert k. induction texts as [|x texts IH]; intros k; cbn; [done|].
  rewrite Nat.add_0_r. f_equal.
  rewrite <-(IH (S k)). f_equal. apply imap_ext. intros i y _. cbn.
  f_equal. f_equal. lia.
Qed.

Lemma tally_inv_route store request :
  fresh_option_ids request →
  tally_inv store → tally_inv (route store request).2.
Proof.
  intros Hfresh Hinv.
  destruct request as [env body|pollId|env pollId body|pollId|pollId body];
    cbn; try done.
  - unfold post_poll. destruct (negb _); [done|].
    apply tally_inv_createPoll; [|done]. cbn.
    rewrite (new_option_ids (generateOptionId env) 0).
    cbn in Hfresh. by rewrite !length_map.
  - unfold post_vote.
    destruct (negb (isValid (validateVote body))); [done|].
    destruct (DataStore.getPoll store pollId) as [poll|] eqn:Hpoll; [|done].
    destruct (negb (bool_decide (Poll.status poll = active))); [done|].
    destruct (List.find _ _) as [o|] eqn:Hfind; [|done].
    destruct (DataStore.hasVoted _ _ _); [done|].
    apply find_option_elem in Hfind.
    match goal with
    | |- context [DataStore.addVote store ?v] =>
        pose proof (tally_inv_addVote store v poll Hpoll Hfind Hinv) as Hadd;
        destruct (DataStore.addVote store v) as [success store1]
    end.
    by destruct (negb success).
  - unfold post_end.
    destruct (DataStore.getPoll store pollId) as [poll|]; [|done].
    destruct (prop_or_throw body "createdBy") as [v|]; [|done].
    destruct (truthy v && _); [done|].
    pose proof (tally_inv_end store pollId Hinv) as Hupd.
    destruct (DataStore.updatePoll store pollId _) as [[p|] store1]; done.
Qed.

Lemma tally_inv_serve requests :
  Forall fresh_option_ids requests →
  tally_inv (serve DataStore.new requests).
Proof.
  induction requests as [|request requests IH] using rev_ind; intros Hfresh.
  - apply tally_inv_new.
  - apply Forall_app in Hfresh as [Hrs Hr]. rewrite serve_snoc.
    apply tally_inv_route; [by inversion Hr|by apply IH].
Qed.

End Aggregator.

(** ** The views that the routes return *)

Lemma post_vote_success_view env store pollId body data :
  Routes.body (post_vote env store pollId body).1 = ApiSuccess data →
  voted_poll data
  = DataStore.getPollWithResults (post_vote env store pollId body).2 pollId.
Proof.
  unfold post_vote.
  destruct (negb (isValid (validateVote body))); [done|].
  destruct (DataStore.getPoll store pollId) as [poll|]; [|done].
  destruct (negb (bool_decide (Poll.status poll = active))); [done|].
  destruct (List.find _ _); [|done].
  destruct (DataStore.hasVoted _ _ _); [done|].
  destruct (DataStore.addVote store _) as [success store1].
  destruct (negb success); [done|]. cbn. by intros [= <-].
Qed.

Lemma post_end_success_view store pollId body data :
  Routes.body (post_end store pollId body).1 = ApiSuccess data →
  ended_poll data
  = DataStore.getPollWithResults (post_end store pollId body).2 pollId.
Proof.
  unfold post_end.
  destruct (DataStore.getPoll store pollId) as [poll|]; [|done].
  destruct (prop_or_throw body "createdBy") as [v|]; [|done].
  destruct (truthy v && _); [done|].
  destruct (DataStore.updatePoll store pollId _) as [[p|] store1]; [|done].
  cbn. by intros [= <-].
Qed.

Lemma every_view_of (Inv : DataStore → Prop) (P : list PollOption → nat → Prop)
    store pollId :
  (∀ store request, fresh_option_ids request → Inv store → Inv (route store request).2) →
  (∀ store view,
     Inv store →
     DataStore.getPollWithResults store pollId = Some view →
     P (Poll.options view) (Poll.totalVotes view)) →
  Inv store →
  every_view store pollId P.
Proof.
  intros Hstep Hview Hstore. unfold every_view. repeat split.
  - intros view. unfold get_poll.
    destruct (DataStore.getPollWithResults store pollId) as [p|] eqn:Hp; [|done].
    cbn. intros [= <-]. by apply (Hview store).
  - intros data. unfold get_results.
    destruct (DataStore.getPollWithResults store pollId) as [p|] eqn:Hp; [|done].
    cbn. intros [= <-]. cbn. by apply (Hview store).
  - intros env body data view Hok Hdata.
    rewrite (post_vote_success_view _ _ _ _ _ Hok) in Hdata.
    apply (Hview _ _ (Hstep store (POST_vote env pollId body) Logic.I Hstore)).
    cbn. by destruct (post_vote env store pollId body).
  - intros body data view Hok Hdata.
    rewrite (post_end_success_view _ _ _ _ Hok) in Hdata.
    apply (Hview _ _ (Hstep store (POST_end pollId body) Logic.I Hstore)).
    cbn. by destruct (post_end store pollId body).
Qed.

(** C5. After any sequence of requests, in which [generateOptionId()]
    gives the options of one poll distinct identifiers, every aggregated
    view that a route returns (the poll, its results, the poll in the
    response to a vote or to an end) has counts that add up to its
    [totalVotes]. *)
Theorem counts_sum_to_total requests pollId :
  Forall fresh_option_ids requests →
  every_view (serve DataStore.new requests) pollId
    (fun options totalVotes => sum_votes options = totalVotes).
Proof.
  intros Hfresh. apply (every_view_of tally_inv).
  - intros store request. apply tally_inv_route.
  - intros store view Hinv Hview. by apply (tally_inv_sum store pollId).
  - by apply tally_inv_serve.
Qed.

Lemma counts_sum_to_total_witness :
  every_view Sample.three_way "poll-1"
    (fun options totalVotes => sum_votes options = totalVotes).
Proof.
  apply (counts_sum_to_total
           [POST_polls Sample.create_env
              (JObj [("title", JStr "Noodles?");
                     ("options", JArr [JStr "Ramen"; JStr "Udon"; JStr "Soba"])]);
            POST_vote Sample.vote_env "poll-1" (vote_body "a" "v1");
            POST_vote Sample.vote_env "poll-1" (vote_body "b" "v2");
            POST_vote Sample.vote_env "poll-1" (vote_body "c" "v3")]
           "poll-1").
  constructor; [|repeat constructor].
  unfold fresh_option_ids. apply (bool_decide_unpack _). vm_compute. exact I.
Defined.

Lemma aggregate_percentages store pollId view :
  DataStore.getPollWithResults store pollId = Some view →
  percentages_follow (Poll.options view) (Poll.totalVotes view).
Proof.
  unfold DataStore.getPollWithResults, DataStore.aggregateResults, DataStore.getVotes.
  destruct (DataStore.polls store !! pollId) as [poll|]; [|done].
  intros [= <-]. cbn. unfold percentages_follow.
  apply Forall_forall. intros o Ho.
  apply list_elem_of_In, in_map_iff in Ho as (o0 & <- & _). done.
Qed.

Lemma float_ne (x y : float) :
  PrimFloat.eqb x y ≠ PrimFloat.eqb y y → x ≠ y.
Proof. intros Hne ->. by apply Hne. Qed.

(** C6. In every aggregated view that a route returns, at any store, the
    percentage of an option is [votes / totalVotes * 100], computed in
    binary64 from the count of the option and the total of the view, and 0
    when the total is 0. Nothing makes the percentages add up to 100: for
    three options with one vote each they add up to 99.99999999999999. *)
Theorem percentage_formula store pollId :
  every_view store pollId percentages_follow
  ∧ ∃ view,
      DataStore.getPollWithResults Sample.three_way "poll-1" = Some view
      ∧ Poll.totalVotes view = 3
      ∧ sum_percentages (Poll.options view) ≠ 100%float.
Proof.
  split.
  - apply (every_view_of (fun _ => True)); [done| |done].
    intros store' view _. apply aggregate_percentages.
  - eexists. split; [by vm_compute|]. split; [done|].
    apply float_ne. by vm_compute.
Qed.

(** ** The WebSocket registry *)

Section Registry.
Import WebSocket.

Lemma set_has_false c (s : list WebSocketConnection) :
  (∀ c', c' ∈ s → ref c' ≠ ref c) → set_has c s = false.
Proof.
  unfold set_has, same_ref. induction s as [|c' s IH]; intros Hne; cbn; [done|].
  rewrite IH by (intros x Hx; apply Hne, elem_of_cons; by right).
  rewrite orb_false_r. apply Nat.eqb_neq. intros Heq.
  apply (Hne c'); [apply elem_of_cons; by left|done].
Qed.

Lemma set_has_true c (s : list WebSocketConnection) :
  c ∈ s → set_has c s = true.
Proof.
  unfold set_has, same_ref. intros Hin. apply existsb_exists. exists c.
  split; [by apply list_elem_of_In|apply Nat.eqb_refl].
Qed.

Lemma set_delete_absent c (s : list WebSocketConnection) :
  (∀ c', c' ∈ s → ref c' ≠ ref c) → set_delete c s = s.
Proof.
  unfold set_delete, same_ref. induction s as [|c' s IH]; intros Hne; cbn; [done|].
  rewrite IH by (intros x Hx; apply Hne, elem_of_cons; by right).
  assert (ref c ≠ ref c') as Hc.
  { intros Heq. apply (Hne c'); [apply elem_of_cons; by left|done]. }
  apply Nat.eqb_neq in Hc. by rewrite Hc.
Qed.

Lemma set_delete_member c (before after : list WebSocketConnection) :
  NoDup (ref <$> (before ++ c :: after)) →
  set_delete c (before ++ c :: after) = before ++ after.
Proof.
  intros Hnd. rewrite fmap_app, fmap_cons in Hnd.
  apply NoDup_app in Hnd as (_ & Hsep & Htail).
  apply NoDup_cons in Htail as [Hc _].
  unfold set_delete. rewrite List.filter_app. cbn.
  unfold same_ref at 2. rewrite Nat.eqb_refl. cbn.
  fold (set_delete c before). fold (set_delete c after).
  rewrite !set_delete_absent; [done| |].
  - intros c' Hc' Heq. apply Hc. rewrite <-Heq. by apply list_elem_of_fmap_2.
  - intros c' Hc' Heq. apply (Hsep (ref c')); [by apply list_elem_of_fmap_2|].
    rewrite Heq. apply elem_of_cons. by left.
Qed.

(** The loop visits every member once: it keeps and serves the members
    whose socket works, and deletes the others. *)
Lemma broadcast_loop_spec message (todo seen : list WebSocketConnection) net :
  NoDup (ref <$> (seen ++ todo)) →
  broadcast_loop message todo (seen ++ todo) net
  = (seen ++ filter (fun c => ws c ∉ broken net) todo,
     {| broken := broken net;
        sent := sent net
                ++ ((fun c => (ws c, message))
                      <$> filter (fun c => ws c ∉ broken net) todo) |}).
Proof.
  revert seen net. induction todo as [|c todo IH]; intros seen net Hnd.
  - cbn. rewrite !app_nil_r. by destruct net.
  - cbn [broadcast_loop].
    rewrite set_has_true by (apply elem_of_app; right; apply elem_of_cons; by left).
    unfold send. rewrite filter_cons.
    destruct (decide (ws c ∈ broken net)) as [Hbroken|Hworks].
    + rewrite decide_False by (intros Hn; by apply Hn).
      rewrite set_delete_member by done. apply IH.
      rewrite fmap_app, fmap_cons in Hnd. rewrite fmap_app.
      apply NoDup_app in Hnd as (H1 & H2 & H3).
      apply NoDup_cons in H3 as [H3 H4].
      apply NoDup_app. split; [done|]. split; [|done].
      intros x Hx Hx'. apply (H2 x Hx). apply elem_of_cons. by right.
    + rewrite decide_True by done.
      replace (seen ++ c :: todo) with ((seen ++ [c]) ++ todo)
        by (by rewrite <-app_assoc).
      rewrite IH by (by rewrite <-app_assoc).
      cbn. by rewrite <-!app_assoc.
Qed.

Lemma registered_addConnection this pollId ws0 clientId :
  registered (addConnection this pollId ws0 clientId) pollId
  = set_add (mkConnection (allocated this) ws0 pollId clientId) (registered this pollId).
Proof.
  unfold registered, addConnection; cbn.
  rewrite lookup_alter_eq.
  destruct (connections this !! pollId) as [s|] eqn:Hs.
  - rewrite bool_decide_eq_true_2 by eauto. by rewrite Hs.
  - rewrite bool_decide_eq_false_2 by (by intros [? ?]).
    by rewrite lookup_insert_eq.
Qed.

Lemma connections_addConnection_ne this pollId ws0 clientId other :
  other ≠ pollId →
  connections (addConnection this pollId ws0 clientId) !! other
  = connections this !! other.
Proof.
  intros Hne. unfold addConnection; cbn.
  rewrite lookup_alter_ne by done.
  destruct (bool_decide _); [done|]. by rewrite lookup_insert_ne.
Qed.

Lemma getConnectionCount_registered this pollId :
  getConnectionCount this pollId = length (registered this pollId).
Proof.
  unfold getConnectionCount, registered.
  by destruct (connections this !! pollId).
Qed.

Lemma well_allocated_new : well_allocated WebSocket.new.
Proof.
  intros pollId. unfold registered; cbn. rewrite lookup_empty; cbn.
  split; constructor.
Qed.

End Registry.

Section RegistryTheorems.
Import WebSocket.

Lemma addConnection_spec this pollId ws0 clientId :
  well_allocated this →
  let this' := addConnection this pollId ws0 clientId in
  registered this' pollId
  = registered this pollId ++ [mkConnection (allocated this) ws0 pollId clientId]
  ∧ (∀ other, other ≠ pollId → connections this' !! other = connections this !! other)
  ∧ well_allocated this'.
Proof.
  intros Hwf. cbn zeta.
  assert (registered (addConnection this pollId ws0 clientId) pollId
          = registered this pollId
            ++ [mkConnection (allocated this) ws0 pollId clientId]) as Hreg.
  { rewrite registered_addConnection. unfold set_add.
    rewrite set_has_false; [done|].
    intros c' Hc'. destruct (Hwf pollId) as [_ Hlt].
    rewrite Forall_forall in Hlt. specialize (Hlt c' Hc'). cbn in *. lia. }
  split; [done|].
  split; [intros other; apply connections_addConnection_ne|].
  intros p. destruct (Hwf p) as [Hnd Hlt].
  destruct (decide (p = pollId)) as [->|Hne].
  - rewrite Hreg. split.
    + rewrite fmap_app. apply NoDup_app. split; [done|]. split.
      * intros x Hx Hx'. cbn in Hx'. apply list_elem_of_singleton in Hx'. subst x.
        apply list_elem_of_fmap in Hx as (c' & Hc' & Hin).
        rewrite Forall_forall in Hlt. specialize (Hlt c' Hin). cbn in *. lia.
      * cbn. apply NoDup_singleton.
    + apply Forall_app. split.
      * eapply Forall_impl; [exact Hlt|]. intros c' Hc'. cbn in *. lia.
      * constructor; [cbn; lia|constructor].
  - unfold registered. rewrite connections_addConnection_ne by done.
    split; [done|]. eapply Forall_impl; [exact Hlt|]. intros c' Hc'. cbn in *. lia.
Qed.

(** C4, as the code has it. Every call of [addConnection] registers a new
    connection object under the poll, also for a socket that is registered
    already: the set of the poll gains one member at its end and the count
    of the poll grows by one, and the sets of the other polls, with any
    earlier registration of the socket, are as they were. *)
Theorem addConnection_adds_a_member this pollId ws0 clientId :
  well_allocated this →
  let this' := addConnection this pollId ws0 clientId in
  registered this' pollId
  = registered this pollId ++ [mkConnection (allocated this) ws0 pollId clientId]
  ∧ getConnectionCount this' pollId = S (getConnectionCount this pollId)
  ∧ (∀ other, other ≠ pollId → connections this' !! other = connections this !! other)
  ∧ well_allocated this'.
Proof.
  intros Hwf. cbn zeta.
  destruct (addConnection_spec this pollId ws0 clientId Hwf) as (Hreg & Hother & Hwf').
  split; [done|]. split; [|done].
  rewrite !getConnectionCount_registered, Hreg, length_app. cbn. lia.
Qed.

Lemma addConnection_adds_a_member_witness :
  getConnectionCount (addConnection WebSocket.new "poll-1" 7 "client-1") "poll-1" = 1.
Proof.
  destruct (addConnection_adds_a_member WebSocket.new "poll-1" 7 "client-1"
              well_allocated_new) as (_ & Hcount & _).
  exact Hcount.
Defined.

(** The claim C4 as it is stated fails for the socket 7: registered a second
    time under the same poll, with the same client identifier, it is counted
    twice; registered under another poll, it stays registered under the
    first. *)
Lemma resubscribe_registers_again :
  let once := addConnection WebSocket.new "poll-1" 7 "client-1" in
  let twice := addConnection once "poll-1" 7 "client-1" in
  let moved := addConnection once "poll-2" 7 "client-1" in
  getConnectionCount once "poll-1" = 1
  ∧ getConnectionCount twice "poll-1" = 2
  ∧ connections twice ≠ connections once
  ∧ ws <$> registered moved "poll-1" = [7]
  ∧ ws <$> registered moved "poll-2" = [7].
Proof.
  cbn zeta. split; [by vm_compute|]. split; [by vm_compute|].
  split; [|split; by vm_compute].
  intros Heq. apply (f_equal (fun m => length (default [] (m !! "poll-1")))) in Heq.
  vm_compute in Heq. discriminate.
Qed.

Lemma broadcastToPoll_spec this net pollId message :
  well_allocated this →
  let result := broadcastToPoll this net pollId message in
  registered result.1 pollId
  = filter (fun c => ws c ∉ broken net) (registered this pollId)
  ∧ result.2
    = {| broken := broken net;
         sent := sent net
                 ++ ((fun c => (ws c, message))
                       <$> filter (fun c => ws c ∉ broken net)
                             (registered this pollId)) |}
  ∧ (∀ other, other ≠ pollId →
              connections result.1 !! other = connections this !! other)
  ∧ well_allocated result.1.
Proof.
  intros Hwf.
  assert (let result := broadcastToPoll this net pollId message in
          registered result.1 pollId
          = filter (fun c => ws c ∉ broken net) (registered this pollId)
          ∧ result.2
            = {| broken := broken net;
                 sent := sent net
                         ++ ((fun c => (ws c, message))
                               <$> filter (fun c => ws c ∉ broken net)
                                     (registered this pollId)) |}
          ∧ (∀ other, other ≠ pollId →
                      connections result.1 !! other = connections this !! other)
          ∧ allocated result.1 = allocated this)
    as (Hreg & Hnet & Hother & Halloc).
  { cbn zeta. unfold broadcastToPoll, registered.
    destruct (connections this !! pollId) as [s|] eqn:Hs; cbn.
    - destruct (Hwf pollId) as [Hnd _]. unfold registered in Hnd.
      rewrite Hs in Hnd. cbn in Hnd.
      pose proof (broadcast_loop_spec message s [] net Hnd) as Hloop.
      cbn [app] in Hloop. rewrite Hloop. cbn.
      rewrite lookup_insert_eq. cbn. repeat split; try done.
      intros other Hne. by rewrite lookup_insert_ne.
    - rewrite Hs. cbn. rewrite app_nil_r. by destruct net. }
  cbn zeta in *. split; [done|]. split; [done|]. split; [done|].
  intros p. destruct (Hwf p) as [Hnd Hlt]. rewrite Halloc.
  destruct (decide (p = pollId)) as [->|Hne].
  - rewrite Hreg. split.
    + apply (NoDup_fmap_2_strong ref).
      * intros x y [_ Hx]%list_elem_of_filter [_ Hy]%list_elem_of_filter Heq.
        destruct (list_elem_of_lookup_1 _ _ Hx) as [i Hi].
        destruct (list_elem_of_lookup_1 _ _ Hy) as [j Hj].
        assert (i = j) as ->.
        { apply (NoDup_lookup _ i j (ref x) Hnd);
            rewrite list_lookup_fmap; [by rewrite Hi|by rewrite Hj, Heq]. }
        congruence.
      * apply NoDup_filter. eapply NoDup_fmap_1. exact Hnd.
    + apply Forall_forall. intros x [_ Hx]%list_elem_of_filter.
      rewrite Forall_forall in Hlt. by apply Hlt.
  - unfold registered. by rewrite Hother.
Qed.

Lemma NoDup_ref_filter f (s : list WebSocketConnection) :
  NoDup (ref <$> s) → NoDup (ref <$> List.filter f s).
Proof.
  induction s as [|c s IH]; cbn; [done|].
  intros [Hc Hnd]%NoDup_cons. destruct (f c); cbn; [|by apply IH].
  apply NoDup_cons. split; [|by apply IH].
  intros (c' & Heq & Hin)%list_elem_of_fmap. apply Hc.
  apply list_elem_of_In, filter_In in Hin as [Hin _].
  rewrite Heq. by apply list_elem_of_fmap_2, list_elem_of_In.
Qed.

Lemma well_allocated_removeConnection this pollId ws0 :
  well_allocated this → well_allocated (removeConnection this pollId ws0).
Proof.
  intros Hwf. unfold removeConnection.
  destruct (connections this !! pollId) as [s|] eqn:Hs; [|done].
  set (s' := match List.find _ s with
             | Some connection => set_delete connection s
             | None => s
             end).
  assert (∃ f, s' = List.filter f s) as [f Hf].
  { subst s'. destruct (List.find _ s) as [c|].
    - by eexists.
    - exists (fun _ => true). clear. induction s; cbn; congruence. }
  intros p. unfold registered; cbn. destruct (Hwf p) as [Hnd Hlt].
  destruct (decide (p = pollId)) as [->|Hne].
  - unfold registered in Hnd, Hlt. rewrite Hs in Hnd, Hlt. cbn in Hnd, Hlt.
    assert (default [] ((if length s' =? 0
                         then delete pollId (connections this)
                         else <[pollId := s']> (connections this)) !! pollId)
            = s') as ->.
    { destruct (length s' =? 0) eqn:Hlen.
      - rewrite lookup_delete_eq. cbn. apply Nat.eqb_eq in Hlen.
        by destruct s'.
      - by rewrite lookup_insert_eq. }
    rewrite Hf. split; [by apply NoDup_ref_filter|].
    apply Forall_forall. intros x Hx.
    apply list_elem_of_In, filter_In in Hx as [Hx _].
    rewrite Forall_forall in Hlt. by apply Hlt, list_elem_of_In.
  - assert ((if length s' =? 0
             then delete pollId (connections this)
             else <[pollId := s']> (connections this)) !! p
            = connections this !! p) as ->; [|done].
    destruct (length s' =? 0);
      [by rewrite lookup_delete_ne|by rewrite lookup_insert_ne].
Qed.

(** The members of the sets are distinct allocated objects, whatever has
    happened to the manager. *)
Lemma well_allocated_run events : well_allocated (run events).1.
Proof.
  unfold run. induction events as [|event events IH] using rev_ind.
  - apply well_allocated_new.
  - rewrite foldl_snoc.
    destruct (foldl step _ events) as [this net]. cbn in IH.
    destruct event as [pollId ws0 clientId|pollId ws0|pollId message| |ws0]; cbn.
    + by apply addConnection_spec.
    + by apply well_allocated_removeConnection.
    + by apply broadcastToPoll_spec.
    + unfold run_timer. destruct (timers this) as [|[c m] rest]; [done|].
      intros p. apply (IH p).
    + done.
Qed.

(** C8. [broadcastToPoll] serves every connection registered under the poll
    whose socket works, whatever the other sockets do, and removes every
    connection whose socket fails: the members left are the members whose
    socket works, each of them has been sent the message, in the order of
    the set, and the sets of the other polls are as they were. *)
Theorem broadcast_best_effort this net pollId message :
  well_allocated this →
  let result := broadcastToPoll this net pollId message in
  let works := fun c => ws c ∉ broken net in
  registered result.1 pollId = filter works (registered this pollId)
  ∧ sent result.2
    = sent net ++ ((fun c => (ws c, message)) <$> filter works (registered this pollId))
  ∧ broken result.2 = broken net
  ∧ (∀ c, c ∈ registered this pollId → ws c ∉ broken net →
          c ∈ registered result.1 pollId
          ∧ (ws c, message) ∈ drop (length (sent net)) (sent result.2))
  ∧ (∀ c, c ∈ registered this pollId → ws c ∈ broken net →
          c ∉ registered result.1 pollId)
  ∧ (∀ other, other ≠ pollId →
              connections result.1 !! other = connections this !! other)
  ∧ well_allocated result.1.
Proof.
  intros Hwf. cbn zeta.
  destruct (broadcastToPoll_spec this net pollId message Hwf)
    as (Hreg & Hnet & Hother & Hwf').
  cbn zeta in *. rewrite Hreg, Hnet. cbn [sent broken].
  split; [done|]. split; [done|]. split; [done|]. split; [|split; [|done]].
  - intros c Hc Hworks.
    assert (c ∈ filter (fun c => ws c ∉ broken net) (registered this pollId)) as Hin
      by (by apply list_elem_of_filter).
    split; [done|]. rewrite drop_app_length.
    by apply (list_elem_of_fmap_2 (fun c => (ws c, message))).
  - intros c Hc Hbroken [Hworks _]%list_elem_of_filter. by apply Hworks.
Qed.

Lemma broadcast_best_effort_witness :
  let this := addConnection (addConnection WebSocket.new "poll-1" 7 "client-1")
                "poll-1" 8 "client-2" in
  let net := {| broken := {[7]}; sent := [] |} in
  let message := {| type := poll_updated; payload := PollView None |} in
  ws <$> registered (broadcastToPoll this net "poll-1" message).1 "poll-1" = [8]
  ∧ sent (broadcastToPoll this net "poll-1" message).2 = [(8, message)].
Proof.
  cbn zeta.
  destruct (addConnection_spec WebSocket.new "poll-1" 7 "client-1"
              well_allocated_new) as (_ & _ & Hwf1).
  destruct (addConnection_spec _ "poll-1" 8 "client-2" Hwf1) as (_ & _ & Hwf2).
  destruct (broadcast_best_effort _ {| broken := {[7]}; sent := [] |} "poll-1"
              {| type := poll_updated; payload := PollView None |} Hwf2)
    as (Hreg & Hsent & _).
  split.
  - rewrite Hreg. by vm_compute.
  - rewrite Hsent. by vm_compute.
Defined.

End RegistryTheorems.

(** ** The routes and the registry *)

Lemma fetch_leaves_sockets server request :
  wsManager (fetch server request).2 = wsManager server
  ∧ net (fetch server request).2 = net server.
Proof.
  unfold fetch. by destruct (route (dataStore server) request).
Qed.

(** C2 fails on the code. With the working socket 7 registered for
    ["poll-1"], a vote on that poll succeeds (HTTP 200) and so does the end
    of the poll by its creator, and after each of them nothing has been
    sent to the socket: the routes never call [broadcastToPoll], which
    would have sent the notification to the socket. *)
Theorem routes_notify_no_subscriber :
  let cast := POST_vote Sample.vote_env "poll-1" (vote_body "a" "v1") in
  let finish := POST_end "poll-1" (JObj [("createdBy", JStr "anonymous")]) in
  let updated :=
    {| WebSocket.type := WebSocket.poll_updated;
       WebSocket.payload :=
         WebSocket.PollView (DataStore.getPollWithResults Sample.voted "poll-1") |} in
  WebSocket.ws <$> registered (wsManager Sample.watched) "poll-1" = [7]
  ∧ WebSocket.broken (net Sample.watched) = ∅
  ∧ (∃ r, (fetch Sample.watched cast).1 = VoteReply r
          ∧ succeeded r = true ∧ http_status r = 200)
  ∧ WebSocket.sent (net (fetch Sample.watched cast).2) = []
  ∧ (∃ r, (fetch (fetch Sample.watched cast).2 finish).1 = EndReply r
          ∧ succeeded r = true ∧ http_status r = 200)
  ∧ WebSocket.sent (net (fetch (fetch Sample.watched cast).2 finish).2) = []
  ∧ WebSocket.sent
      (WebSocket.broadcastToPoll (wsManager Sample.watched) (net Sample.watched)
         "poll-1" updated).2
    = [(7, updated)].
Proof.
  cbn zeta. split; [by vm_compute|]. split; [done|].
  split; [eexists; split; [by vm_compute|]; split; by vm_compute|].
  split; [by vm_compute|].
  split; [eexists; split; [by vm_compute|]; split; by vm_compute|].
  split; by vm_compute.
Qed.

(** ** The scenario of the documentation, run on the model *)

Example scenario_first_vote :
  get_poll Sample.voted "poll-1"
  = json_response
      (ApiSuccess
         (Poll.mk "poll-1" "Lunch?"
            [PollOption.mk "a" "Sushi" 1 100%float;
             PollOption.mk "b" "Ramen" 0 0%float]
            active 0%Z "anonymous" 1))
      200.
Proof. by vm_compute. Qed.

Example scenario_second_voter :
  (post_vote Sample.vote_env Sample.voted "poll-1" (vote_body "b" "v2")).1
  = json_response
      (ApiSuccess
         {| votedOptionId := "b";
            voted_poll :=
              Some (Poll.mk "poll-1" "Lunch?"
                      [PollOption.mk "a" "Sushi" 1 50%float;
                       PollOption.mk "b" "Ramen" 1 50%float]
                      active 0%Z "anonymous" 2) |})
      200.
Proof. by vm_compute. Qed.

Example trim_ex : JsString.trim "  a b  " = "a b".
Proof. reflexivity. Qed.

Example strip_ex : Validation.sanitizeHtml "a<b>c<d" = "ac<d".
Proof. reflexivity. Qed.

(** * More of the code *)

Import Cover.

(** ** Strings *)

Section Strings.

Lemma trimStart_length s : String.length (trimStart s) ≤ String.length s.
Proof.
  induction s as [|c r IH]; cbn; [done|]. destruct (is_space c); cbn; lia.
Qed.

Lemma trimEnd_length s : String.length (trimEnd s) ≤ String.length s.
Proof.
  induction s as [|c r IH]; cbn; [done|].
  destruct (is_space c && String.eqb (trimEnd r) EmptyString); cbn; lia.
Qed.

Lemma trim_length s : String.length (trim s) ≤ String.length s.
Proof.
  unfold trim. pose proof (trimEnd_length (trimStart s)).
  pose proof (trimStart_length s). lia.
Qed.

Lemma trimEnd_idem s : trimEnd (trimEnd s) = trimEnd s.
Proof.
  induction s as [|c r IH]; cbn; [done|].
  destruct (is_space c && String.eqb (trimEnd r) EmptyString) eqn:Hc; cbn; [done|].
  by rewrite IH, Hc.
Qed.

Lemma trimStart_head s :
  trimStart s = EmptyString
  ∨ ∃ c r, trimStart s = String c r ∧ is_space c = false.
Proof.
  induction s as [|c r IH]; cbn; [by left|].
  destruct (is_space c) eqn:Hc; [done|]. right. by exists c, r.
Qed.

Lemma trimStart_trimEnd_head c r :
  is_space c = false → trimStart (trimEnd (String c r)) = trimEnd (String c r).
Proof. intros Hc. cbn. rewrite Hc. cbn. by rewrite Hc. Qed.

Lemma trim_idem s : trim (trim s) = trim s.
Proof.
  unfold trim. destruct (trimStart_head s) as [->|(c & r & -> & Hc)]; [done|].
  by rewrite trimStart_trimEnd_head, trimEnd_idem.
Qed.

Lemma trimStart_empty s : trimStart s = EmptyString ↔ all_space s = true.
Proof.
  induction s as [|c r IH]; cbn; [done|].
  destruct (is_space c); cbn; [done|]. split; discriminate.
Qed.

Lemma trimEnd_empty s : trimEnd s = EmptyString ↔ all_space s = true.
Proof.
  induction s as [|c r IH]; cbn; [done|].
  destruct (is_space c); cbn; [|split; discriminate].
  destruct (String.eqb_spec (trimEnd r) EmptyString) as [He|Hne].
  - split; [intros _; by apply IH|done].
  - split; [discriminate|]. intros Hall. by apply IH in Hall.
Qed.

Lemma all_space_trimStart s : all_space (trimStart s) = all_space s.
Proof.
  induction s as [|c r IH]; cbn; [done|]. destruct (is_space c) eqn:Hc; cbn; [done|].
  by rewrite Hc.
Qed.

Lemma trim_empty s : trim s = EmptyString ↔ all_space s = true.
Proof. unfold trim. by rewrite trimEnd_empty, all_space_trimStart. Qed.

Lemma has_gt_strip b s : has_gt (strip_tags b s) = true → has_gt s = true.
Proof.
  revert b. induction s as [|c r IH]; intros b; cbn; [by destruct b|].
  destruct b.
  - intros H%IH. rewrite H. apply orb_true_r.
  - destruct (is_lt c && has_gt r) eqn:Hc.
    + intros H%IH. rewrite H. apply orb_true_r.
    + cbn. destruct (is_gt c); [done|]. cbn. apply IH.
Qed.

Lemma has_tag_strip b s : has_tag (strip_tags b s) = false.
Proof.
  revert b. induction s as [|c r IH]; intros b; cbn; [by destruct b|].
  destruct b; [apply IH|].
  destruct (is_lt c && has_gt r) eqn:Hc; [apply IH|].
  cbn. rewrite IH, orb_false_r.
  destruct (is_lt c); [|done]. cbn in *.
  destruct (has_gt (strip_tags false r)) eqn:Hgt; [|done].
  apply has_gt_strip in Hgt. congruence.
Qed.

Lemma strip_no_tag s : has_tag s = false → strip_tags false s = s.
Proof.
  induction s as [|c r IH]; cbn; [done|].
  intros [Hc Hr]%orb_false_iff. rewrite Hc. by rewrite IH.
Qed.

Lemma strip_length b s : String.length (strip_tags b s) ≤ String.length s.
Proof.
  revert b. induction s as [|c r IH]; intros b; cbn; [by destruct b|].
  destruct b.
  - specialize (IH (negb (is_gt c))). lia.
  - destruct (is_lt c && has_gt r); cbn.
    + specialize (IH true). lia.
    + specialize (IH false). lia.
Qed.

End Strings.

(** X1. [sanitizeHtml] leaves no tag (no ["<"] with a [">"] after it) in
    its result, returns a string without tags as it is, so that sanitising
    twice is sanitising once, and never returns a longer string. *)
Theorem sanitizeHtml_removes_tags input :
  has_tag (sanitizeHtml input) = false
  ∧ (has_tag input = false → sanitizeHtml input = input)
  ∧ sanitizeHtml (sanitizeHtml input) = sanitizeHtml input
  ∧ String.length (sanitizeHtml input) ≤ String.length input.
Proof.
  unfold sanitizeHtml. split; [apply has_tag_strip|].
  split; [apply strip_no_tag|]. split; [|apply strip_length].
  apply strip_no_tag, has_tag_strip.
Qed.

Lemma sanitizeHtml_removes_tags_witness :
  has_tag "plain text" = false ∧ sanitizeHtml "plain text" = "plain text".
Proof.
  split; [reflexivity|].
  destruct (sanitizeHtml_removes_tags "plain text") as (_ & Hsame & _).
  apply Hsame. reflexivity.
Defined.

(** ** Validation *)

Lemma validate_id_nil required not_string (v : jsval) :
  validate_id required not_string v = []
  ↔ ∃ s, v = Some (JStr s) ∧ s ≠ EmptyString.
Proof.
  unfold validate_id. split.
  - destruct v as [[| | |s| |]|]; cbn; try discriminate;
      try (destruct (negb _); discriminate).
    destruct (String.eqb_spec s EmptyString) as [->|Hne]; cbn; [discriminate|].
    intros _. by exists s.
  - intros (s & -> & Hne). cbn.
    by destruct (String.eqb_spec s EmptyString).
Qed.

(** X2. [validateVote] accepts a body exactly when its [optionId] and its
    [voterId] are both non-empty strings; the request that the route then
    reads has these two strings. *)
Theorem validateVote_accepts body :
  isValid (validateVote body) = true
  ↔ ∃ o v,
      prop body "optionId" = Some (JStr o) ∧ o ≠ EmptyString
      ∧ prop body "voterId" = Some (JStr v) ∧ v ≠ EmptyString
      ∧ as_VoteRequest body = {| optionId := o; voterId := v |}.
Proof.
  unfold validateVote. split.
  - destruct (negb (truthy (Some body))); [discriminate|].
    unfold finish; cbn [isValid].
    destruct (validate_id _ _ (prop body "optionId")) eqn:Ho; [|discriminate].
    destruct (validate_id _ _ (prop body "voterId")) eqn:Hv; [|discriminate].
    intros _.
    apply validate_id_nil in Ho as (o & Ho & ?).
    apply validate_id_nil in Hv as (v & Hv & ?).
    exists o, v. unfold as_VoteRequest. by rewrite Ho, Hv.
  - intros (o & v & Ho & Hne & Hv & Hnv & _).
    destruct body as [| | | | |fields]; try discriminate.
    cbn [truthy negb].
    assert (validate_id OptionIdRequired OptionIdNotString
              (prop (JObj fields) "optionId") = []) as ->
      by (apply validate_id_nil; eauto).
    assert (validate_id VoterIdRequired VoterIdNotString
              (prop (JObj fields) "voterId") = []) as ->
      by (apply validate_id_nil; eauto).
    done.
Qed.

Lemma validatePollCreation_errors data :
  isValid (validatePollCreation data) = false →
  errors (validatePollCreation data) ≠ [].
Proof.
  unfold validatePollCreation. destruct (negb (truthy (Some data))); [done|].
  unfold finish; cbn. by destruct (_ ++ _).
Qed.

Lemma validateVote_errors data :
  isValid (validateVote data) = false →
  errors (validateVote data) ≠ [].
Proof.
  unfold validateVote. destruct (negb (truthy (Some data))); [done|].
  unfold finish; cbn. by destruct (_ ++ _).
Qed.

(** X3. A validator that rejects a body reports at least one message, so
    the fallback text of [createValidationError] is never used: every
    VALIDATION_ERROR that the creation route or the vote route answers has
    HTTP status 400, carries the first message of the validator as its
    message and all of them as its details, and leaves the store as it
    was. *)
Theorem validation_error_shape store :
  (∀ env body,
     isValid (validatePollCreation body) = false →
     ∃ m rest,
       errors (validatePollCreation body) = m :: rest
       ∧ post_poll env store body
         = (json_response
              (ApiError (mkAppError VALIDATION_ERROR (FirstError m) (Some (m :: rest))))
              400,
            store))
  ∧ (∀ env pollId body,
       isValid (validateVote body) = false →
       ∃ m rest,
         errors (validateVote body) = m :: rest
         ∧ post_vote env store pollId body
           = (json_response
                (ApiError (mkAppError VALIDATION_ERROR (FirstError m) (Some (m :: rest))))
                400,
              store)).
Proof.
  split.
  - intros env body Hinvalid.
    pose proof (validatePollCreation_errors body Hinvalid) as Hne.
    unfold post_poll. rewrite Hinvalid. cbn.
    destruct (errors (validatePollCreation body)) as [|m rest]; [done|].
    by exists m, rest.
  - intros env pollId body Hinvalid.
    pose proof (validateVote_errors body Hinvalid) as Hne.
    unfold post_vote. rewrite Hinvalid. cbn.
    destruct (errors (validateVote body)) as [|m rest]; [done|].
    by exists m, rest.
Qed.

Lemma validation_error_shape_witness :
  post_vote Sample.vote_env Sample.voted "poll-1" (JObj [("optionId", JStr "a")])
  = (json_response
       (ApiError (mkAppError VALIDATION_ERROR (FirstError VoterIdRequired)
                    (Some [VoterIdRequired])))
       400,
     Sample.voted).
Proof.
  destruct (validation_error_shape Sample.voted) as [_ Hvote].
  destruct (Hvote Sample.vote_env "poll-1" (JObj [("optionId", JStr "a")]) eq_refl)
    as (m & rest & Herrors & ->).
  cbn in Herrors. by injection Herrors as <- <-.
Defined.

(** ** The routes *)

Lemma imap_texts (gen : nat → string) (texts : list string) :
  PollOption.text <$> imap (fun i text => PollOption.mk (gen i) text 0 0%float) texts
  = texts.
Proof.
  revert gen. induction texts as [|x texts IH]; intros gen; cbn; [done|].
  f_equal. apply (IH (gen ∘ S)).
Qed.

Lemma acceptable_as_strings os :
  Forall acceptable_option os →
  JStr <$> as_strings (Some (JArr os)) = os.
Proof.
  induction 1 as [|o os (s & -> & _) _ IH]; cbn; [done|]. f_equal. apply IH.
Qed.

(** X4. The poll that an accepted creation request creates has the trimmed
    and sanitised title of the request, one option per option of the
    request, in the order of the request, with its trimmed and sanitised
    text and the identifier that the generator gave at that position; it
    is created by ["anonymous"] at the time of the request. *)
Theorem created_poll_content env store body :
  acceptable_creation body →
  ∃ poll,
    (post_poll env store body).1 = json_response (ApiSuccess poll) 201
    ∧ Poll.title poll = sanitizeHtml (trim (as_string (prop body "title")))
    ∧ PollOption.text <$> Poll.options poll
      = (fun o => sanitizeHtml (trim o)) <$> as_strings (prop body "options")
    ∧ PollOption.id <$> Poll.options poll
      = generateOptionId env <$> seq 0 (length (as_strings (prop body "options")))
    ∧ prop body "options" = Some (JArr (JStr <$> as_strings (prop body "options")))
    ∧ Poll.createdBy poll = "anonymous"
    ∧ Poll.createdAt poll = create_now env.
Proof.
  intros Hacc. pose proof Hacc as Hvalid.
  apply validatePollCreation_valid in Hvalid.
  unfold post_poll. rewrite Hvalid. cbn [negb].
  eexists. split; [reflexivity|]. cbn.
  split; [done|]. split; [apply imap_texts|]. split.
  - rewrite (new_option_ids (generateOptionId env) 0). by rewrite !length_map.
  - destruct Hacc as (title & os & _ & _ & _ & Ho & _ & Hall).
    rewrite Ho. by rewrite acceptable_as_strings.
Qed.

Lemma created_poll_content_witness :
  ∃ poll,
    (post_poll Sample.create_env DataStore.new
       (JObj [("title", JStr "  <b>Lunch</b>? ");
              ("options", JArr [JStr " Sushi"; JStr "<i>Ramen</i>"])])).1
    = json_response (ApiSuccess poll) 201
    ∧ Poll.title poll = "Lunch?"
    ∧ PollOption.text <$> Poll.options poll = ["Sushi"; "Ramen"]
    ∧ PollOption.id <$> Poll.options poll = ["a"; "b"].
Proof.
  destruct (created_poll_content Sample.create_env DataStore.new
              (JObj [("title", JStr "  <b>Lunch</b>? ");
                     ("options", JArr [JStr " Sushi"; JStr "<i>Ramen</i>"])]))
    as (poll & Hr & Ht & Hx & Hi & _).
  { exists "  <b>Lunch</b>? ", [JStr " Sushi"; JStr "<i>Ramen</i>"].
    repeat split; try done; cbn; try lia.
    repeat constructor.
    - exists " Sushi". repeat split; try done. cbn. lia.
    - exists "<i>Ramen</i>". repeat split; try done. cbn. lia. }
  exists poll. by rewrite Hr, Ht, Hx, Hi.
Defined.

Local Arguments String.append : simpl nomatch.

Lemma trimEnd_last s c :
  is_space c = false →
  trimEnd (String.append s (String c EmptyString)) = String.append s (String c EmptyString).
Proof.
  intros Hc. induction s as [|a r IH]; cbn -[is_space].
  - by rewrite Hc.
  - cbn -[is_space] in IH. rewrite IH.
    destruct (String.append r (String c EmptyString)) eqn:Hr.
    + by destruct r.
    + cbn -[is_space]. by rewrite andb_false_r.
Qed.

Lemma strip_inside_tag t :
  has_gt t = false →
  strip_tags true (String.append t ">") = EmptyString.
Proof.
  induction t as [|a r IH]; cbn; [done|].
  intros [Ha Hr]%orb_false_iff. rewrite Ha. cbn. by apply IH.
Qed.

Lemma has_gt_append t : has_gt (String.append t ">") = true.
Proof. induction t as [|a r IH]; cbn; [done|]. rewrite IH. apply orb_true_r. Qed.

Lemma length_append (s1 s2 : string) :
  String.length (String.append s1 s2) = String.length s1 + String.length s2.
Proof. induction s1 as [|a r IH]; cbn; [done|]. by rewrite IH. Qed.

(** X5. Validation looks at the title before it is sanitised: a title that
    is one tag (["<"], a text [t] without [">"], [">"]; at most 200 long)
    passes validation with acceptable options, and the poll is created with
    the empty title. *)
Theorem tag_title_stored_empty env store t os :
  has_gt t = false →
  String.length t ≤ 198 →
  2 ≤ length os ≤ 10 →
  Forall acceptable_option os →
  let body :=
    JObj [("title", JStr (String "<" (String.append t ">"))); ("options", JArr os)] in
  ∃ poll,
    (post_poll env store body).1 = json_response (ApiSuccess poll) 201
    ∧ Poll.title poll = EmptyString.
Proof.
  intros Ht Hlen Hn Hall body.
  assert (trim (String "<" (String.append t ">")) = String "<" (String.append t ">"))
    as Htrim.
  { unfold trim. cbn [trimStart]. replace (is_space "<") with false by done.
    change (String "<" (String.append t ">"))
      with (String.append (String "<" t) (String ">" EmptyString)).
    by apply trimEnd_last. }
  assert (acceptable_creation body) as Hacc.
  { exists (String "<" (String.append t ">")), os.
    split; [done|]. split; [by rewrite Htrim|]. split.
    { cbn [String.length]. rewrite length_append. cbn. lia. }
    done. }
  apply validatePollCreation_valid in Hacc.
  unfold post_poll. rewrite Hacc. cbn [negb].
  eexists. split; [reflexivity|]. cbn [Poll.title req_title sanitizePollData
    as_CreatePollRequest as_string prop assoc body String.eqb Ascii.eqb Bool.eqb].
  cbn [as_string]. rewrite Htrim. unfold sanitizeHtml. cbn [strip_tags].
  replace (is_lt "<") with true by done. rewrite has_gt_append. cbn [andb].
  by apply strip_inside_tag.
Qed.

Lemma tag_title_stored_empty_witness :
  ∃ poll,
    (post_poll Sample.create_env DataStore.new
       (JObj [("title", JStr "<br>");
              ("options", JArr [JStr "Sushi"; JStr "Ramen"])])).1
    = json_response (ApiSuccess poll) 201
    ∧ Poll.title poll = EmptyString.
Proof.
  apply (tag_title_stored_empty Sample.create_env DataStore.new "br"
           [JStr "Sushi"; JStr "Ramen"]).
  - reflexivity.
  - cbn. lia.
  - cbn. lia.
  - repeat constructor.
    + exists "Sushi". repeat split; try done. cbn. lia.
    + exists "Ramen". repeat split; try done. cbn. lia.
Defined.

(** X6. In every response of every route the HTTP status goes with the
    outcome: an error is sent with the status of its kind (400 for
    VALIDATION_ERROR and INVALID_OPTION, 404 for POLL_NOT_FOUND, 409 for
    ALREADY_VOTED and POLL_ENDED, 403 for UNAUTHORIZED, 500 for
    INTERNAL_ERROR), a created poll with 201, any other success with 200. *)
Theorem status_matches_outcome store request :
  reply_status (route store request).1
  = match reply_error (route store request).1 with
    | Some e => status_of (code e)
    | None => match request with POST_polls _ _ => 201 | _ => 200 end
    end.
Proof.
  destruct request as [env body|pollId|env pollId body|pollId|pollId body]; cbn.
  - unfold post_poll. by destruct (negb _).
  - unfold get_poll. by destruct (DataStore.getPollWithResults _ _).
  - unfold post_vote.
    destruct (negb (isValid (validateVote body))); [done|].
    destruct (DataStore.getPoll store pollId) as [poll|]; [|done].
    destruct (negb (bool_decide (Poll.status poll = active))); [done|].
    destruct (List.find _ _); [|done].
    destruct (DataStore.hasVoted _ _ _); [done|].
    destruct (DataStore.addVote store _) as [success store1].
    by destruct (negb success).
  - unfold get_results. by destruct (DataStore.getPollWithResults _ _).
  - unfold post_end.
    destruct (DataStore.getPoll store pollId) as [poll|]; [|done].
    destruct (prop_or_throw body "createdBy") as [v|]; [|done].
    destruct (truthy v && _); [done|].
    by destruct (DataStore.updatePoll store pollId _) as [[p|] store1].
Qed.

Lemma post_vote_polls env store pollId body :
  DataStore.polls (post_vote env store pollId body).2 = DataStore.polls store.
Proof.
  unfold post_vote.
  destruct (negb (isValid (validateVote body))); [done|].
  destruct (DataStore.getPoll store pollId) as [poll|]; [|done].
  destruct (negb (bool_decide (Poll.status poll = active))); [done|].
  destruct (List.find _ _); [|done].
  destruct (DataStore.hasVoted _ _ _); [done|].
  unfold DataStore.addVote. cbn.
  destruct (DataStore.polls store !! pollId); [|done].
  by destruct (decide _).
Qed.

Lemma find_option_None (options : list PollOption) (optionId : string) :
  List.find (fun opt => String.eqb (PollOption.id opt) optionId) options = None →
  optionId ∉ PollOption.id <$> options.
Proof.
  intros Hfind Hin. apply find_option_Some in Hin as [o Ho]. congruence.
Qed.

(** X7. A vote request succeeds exactly when it passes validation, the poll
    exists and is active, the option is one of the poll, and the voter has
    not voted on the poll; [addVote] never refuses a vote that has passed
    these checks. A vote that succeeds is answered with 200, the option
    voted for and the aggregated view of the poll after the vote, and the
    voter has voted afterwards. *)
Theorem vote_accepted_iff env store pollId body :
  (succeeded (post_vote env store pollId body).1 = true
   ↔ isValid (validateVote body) = true
     ∧ ∃ poll,
         DataStore.getPoll store pollId = Some poll
         ∧ Poll.status poll = active
         ∧ optionId (as_VoteRequest body) ∈ PollOption.id <$> Poll.options poll
         ∧ DataStore.hasVoted store pollId (voterId (as_VoteRequest body)) = false)
  ∧ (succeeded (post_vote env store pollId body).1 = true →
     (post_vote env store pollId body).1
     = json_response
         (ApiSuccess
            {| votedOptionId := optionId (as_VoteRequest body);
               voted_poll :=
                 DataStore.getPollWithResults (post_vote env store pollId body).2 pollId |})
         200
     ∧ DataStore.hasVoted (post_vote env store pollId body).2 pollId
         (voterId (as_VoteRequest body)) = true).
Proof.
  unfold post_vote.
  destruct (isValid (validateVote body)); cbn [negb];
    [|split; [split; [done|by intros [? _]]|done]].
  destruct (DataStore.getPoll store pollId) as [poll|] eqn:Hpoll;
    [|split; [split; [done|by intros (_ & ? & ? & _)]|done]].
  destruct (decide (Poll.status poll = active)) as [Hactive|Hended].
  2: { rewrite bool_decide_eq_false_2 by done. cbn.
       split; [split; [done|]|done]. intros (_ & p & [= <-] & ? & _). done. }
  rewrite bool_decide_eq_true_2 by done. cbn [negb].
  destruct (List.find _ _) as [o|] eqn:Hfind.
  2: { apply find_option_None in Hfind.
       split; [split; [done|]|done]. intros (_ & p & [= <-] & _ & ? & _). done. }
  apply find_option_elem in Hfind.
  destruct (DataStore.hasVoted store pollId _) eqn:Hhas.
  { split; [split; [done|]|done]. intros (_ & p & _ & _ & _ & ?). done. }
  pose proof Hhas as Hnew. unfold DataStore.hasVoted in Hnew.
  apply bool_decide_eq_false in Hnew.
  unfold DataStore.getPoll in Hpoll. unfold DataStore.addVote.
  cbn [Vote.pollId Vote.voterId]. rewrite Hpoll. rewrite decide_False by done.
  cbn. split.
  - split; [|done]. intros _. split; [done|]. by exists poll.
  - intros _. split; [done|]. unfold DataStore.hasVoted; cbn.
    rewrite lookup_insert_eq. cbn. apply bool_decide_eq_true.
    apply elem_of_union. right. by apply elem_of_singleton.
Qed.

Lemma vote_accepted_iff_witness :
  (post_vote Sample.vote_env Sample.voted "poll-1" (vote_body "b" "v2")).1
  = json_response
      (ApiSuccess
         {| votedOptionId := "b";
            voted_poll :=
              DataStore.getPollWithResults
                (post_vote Sample.vote_env Sample.voted "poll-1" (vote_body "b" "v2")).2
                "poll-1" |})
      200
  ∧ DataStore.hasVoted
      (post_vote Sample.vote_env Sample.voted "poll-1" (vote_body "b" "v2")).2
      "poll-1" "v2" = true.
Proof.
  destruct (vote_accepted_iff Sample.vote_env Sample.voted "poll-1" (vote_body "b" "v2"))
    as [_ Hok].
  apply Hok. by vm_compute.
Defined.

(** X8. For a poll identifier that the store does not know, the poll route
    and the results route answer POLL_NOT_FOUND (404), and so do the end
    route, whatever the body, and the vote route for a body that passes
    validation; the store is as it was. *)
Theorem unknown_poll_not_found store pollId :
  DataStore.getPoll store pollId = None →
  get_poll store pollId = json_response (ApiError pollNotFound) 404
  ∧ get_results store pollId = json_response (ApiError pollNotFound) 404
  ∧ (∀ body,
       post_end store pollId body = (json_response (ApiError pollNotFound) 404, store))
  ∧ (∀ env body,
       isValid (validateVote body) = true →
       post_vote env store pollId body
       = (json_response (ApiError pollNotFound) 404, store)).
Proof.
  intros Hnone. unfold get_poll, get_results, post_end, post_vote,
    DataStore.getPollWithResults.
  unfold DataStore.getPoll in *. rewrite Hnone.
  repeat split; try done. intros env body ->. done.
Qed.

Lemma unknown_poll_not_found_witness :
  get_poll Sample.voted "poll-2" = json_response (ApiError pollNotFound) 404
  ∧ post_end Sample.voted "poll-2" JNull
    = (json_response (ApiError pollNotFound) 404, Sample.voted).
Proof.
  destruct (unknown_poll_not_found Sample.voted "poll-2") as (Hget & _ & Hend & _).
  - by vm_compute.
  - split; [exact Hget|apply Hend].
Defined.

Lemma aggregateResults_eq store pollId poll :
  DataStore.polls store !! pollId = Some poll →
  DataStore.aggregateResults store pollId
  = (fun o =>
       PollOption.mk (PollOption.id o) (PollOption.text o)
         (count_for (DataStore.getVotes store pollId) (PollOption.id o))
         (percentage_of (count_for (DataStore.getVotes store pollId) (PollOption.id o))
            (length (DataStore.getVotes store pollId))))
      <$> Poll.options poll.
Proof.
  intros Hpoll. unfold DataStore.aggregateResults. by rewrite Hpoll.
Qed.

Lemma count_for_snoc votes v i :
  count_for (votes ++ [v]) i
  = count_for votes i + (if decide (Vote.optionId v = i) then 1 else 0).
Proof.
  unfold count_for. rewrite filter_app, length_app. f_equal.
  rewrite filter_cons, filter_nil. by destruct (decide _).
Qed.

(** X9. A vote that succeeds raises the count of the option voted for by
    one and the total by one, and changes the count of no other option: the
    counts of the view in the response are those of the view before, plus
    one where the identifier is the one voted for, for the same options in
    the same order. *)
Theorem vote_increments_one_count env store pollId body data view view' :
  Routes.body (post_vote env store pollId body).1 = ApiSuccess data →
  DataStore.getPollWithResults store pollId = Some view →
  voted_poll data = Some view' →
  Poll.totalVotes view' = S (Poll.totalVotes view)
  ∧ PollOption.id <$> Poll.options view' = PollOption.id <$> Poll.options view
  ∧ PollOption.votes <$> Poll.options view'
    = (fun o => PollOption.votes o
                + (if decide (optionId (as_VoteRequest body) = PollOption.id o)
                   then 1 else 0))
        <$> Poll.options view.
Proof.
  intros Hok Hview Hview'.
  rewrite (post_vote_success_view _ _ _ _ _ Hok) in Hview'.
  assert (succeeded (post_vote env store pollId body).1 = true) as Hsucc
    by (unfold succeeded; by rewrite Hok).
  destruct (post_vote_accepted env store pollId body Hsucc) as [_ Hlog].
  pose proof (post_vote_polls env store pollId body) as Hpolls.
  revert Hview Hview'. unfold DataStore.getPollWithResults. rewrite Hpolls.
  destruct (DataStore.polls store !! pollId) as [poll|] eqn:Hpoll; [|done].
  intros [= <-] [= <-]. cbn.
  rewrite (aggregateResults_eq store pollId poll Hpoll).
  rewrite (aggregateResults_eq _ pollId poll) by (by rewrite Hpolls).
  rewrite Hlog, length_app. cbn. split; [lia|].
  rewrite <-!list_fmap_compose. split; [done|].
  apply list_fmap_ext. intros i o _. cbn. apply count_for_snoc.
Qed.

Lemma vote_increments_one_count_witness :
  ∃ view',
    DataStore.getPollWithResults
      (post_vote Sample.vote_env Sample.voted "poll-1" (vote_body "b" "v2")).2 "poll-1"
    = Some view'
    ∧ Poll.totalVotes view' = 2
    ∧ PollOption.votes <$> Poll.options view' = [1; 1].
Proof.
  eexists. split; [by vm_compute|].
  destruct (vote_increments_one_count Sample.vote_env Sample.voted "poll-1"
              (vote_body "b" "v2")
              {| votedOptionId := "b";
                 voted_poll :=
                   DataStore.getPollWithResults
                     (post_vote Sample.vote_env Sample.voted "poll-1"
                        (vote_body "b" "v2")).2 "poll-1" |}
              (Poll.mk "poll-1" "Lunch?"
                 [PollOption.mk "a" "Sushi" 1 100%float;
                  PollOption.mk "b" "Ramen" 0 0%float]
                 active 0%Z "anonymous" 1)
              (Poll.mk "poll-1" "Lunch?"
                 [PollOption.mk "a" "Sushi" 1 50%float;
                  PollOption.mk "b" "Ramen" 1 50%float]
                 active 0%Z "anonymous" 2))
    as (Htotal & _ & Hvotes); [by vm_compute|by vm_compute|by vm_compute|].
  split; [exact Htotal|exact Hvotes].
Defined.

(** X10. The aggregated view of a stored poll is the poll with fresh
    tallies: it has the identifier, title, status, creation time and
    creator of the stored poll and its options in the stored order, with
    their identifiers and texts; its total is the length of the vote log of
    the poll, the count of an option is the number of votes of the log that
    name the option, and no count exceeds the total. *)
Theorem view_of_stored_poll store pollId poll :
  DataStore.getPoll store pollId = Some poll →
  ∃ view,
    DataStore.getPollWithResults store pollId = Some view
    ∧ Poll.id view = Poll.id poll
    ∧ Poll.title view = Poll.title poll
    ∧ Poll.status view = Poll.status poll
    ∧ Poll.createdAt view = Poll.createdAt poll
    ∧ Poll.createdBy view = Poll.createdBy poll
    ∧ PollOption.id <$> Poll.options view = PollOption.id <$> Poll.options poll
    ∧ PollOption.text <$> Poll.options view = PollOption.text <$> Poll.options poll
    ∧ Poll.totalVotes view = length (DataStore.getVotes store pollId)
    ∧ PollOption.votes <$> Poll.options view
      = count_for (DataStore.getVotes store pollId)
          <$> (PollOption.id <$> Poll.options poll)
    ∧ Forall (fun o => PollOption.votes o ≤ Poll.totalVotes view) (Poll.options view).
Proof.
  unfold DataStore.getPoll. intros Hpoll. unfold DataStore.getPollWithResults.
  rewrite Hpoll. eexists. split; [reflexivity|]. cbn.
  rewrite (aggregateResults_eq store pollId poll Hpoll).
  rewrite <-!list_fmap_compose. repeat split; try done.
  apply Forall_fmap, Forall_forall. intros o _. cbn.
  unfold count_for. apply length_filter.
Qed.

Lemma view_of_stored_poll_witness :
  ∃ view,
    DataStore.getPollWithResults Sample.three_way "poll-1" = Some view
    ∧ PollOption.text <$> Poll.options view = ["Ramen"; "Udon"; "Soba"]
    ∧ Poll.totalVotes view = 3.
Proof.
  destruct (view_of_stored_poll Sample.three_way "poll-1"
              (Poll.mk "poll-1" "Noodles?"
                 [PollOption.mk "a" "Ramen" 0 0%float;
                  PollOption.mk "b" "Udon" 0 0%float;
                  PollOption.mk "c" "Soba" 0 0%float]
                 active 0%Z "anonymous" 0))
    as (view & Hview & _ & _ & _ & _ & _ & _ & Htext & Htotal & _);
    [by vm_compute|].
  exists view. split; [exact Hview|]. split; [exact Htext|].
  rewrite Htotal. by vm_compute.
Defined.

(** ** Ending, again *)

Lemma spread_ended_ended poll :
  Poll.status poll = ended →
  Poll.spread poll (Poll.mkPartial None None None (Some ended) None None None) = poll.
Proof. destruct poll; cbn. by intros ->. Qed.

Lemma post_end_effect store pollId body :
  (post_end store pollId body).2 = store
  ∨ ∃ poll,
      DataStore.polls store !! pollId = Some poll
      ∧ (post_end store pollId body).2
        = DataStore.mk
            (<[pollId := Poll.spread poll
                           (Poll.mkPartial None None None (Some ended) None None None)]>
               (DataStore.polls store))
            (DataStore.votes store) (DataStore.pollVoters store).
Proof.
  unfold post_end, DataStore.getPoll, DataStore.updatePoll.
  destruct (DataStore.polls store !! pollId) as [poll|] eqn:Hpoll; [|by left].
  destruct (prop_or_throw body "createdBy") as [v|]; [|by left].
  destruct (truthy v && _); [by left|]. right. by exists poll.
Qed.

(** X11. Ending is idempotent: an end request sent a second time gets the
    answer of the first and leaves the store as the first left it, whatever
    the store, the poll and the body are; in particular a poll that is
    ended stays ended, and the second request is not an error. *)
Theorem end_twice_is_end_once store pollId body :
  post_end (post_end store pollId body).2 pollId body = post_end store pollId body.
Proof.
  destruct (DataStore.getPoll store pollId) as [poll|] eqn:Hpoll.
  2: { unfold post_end. rewrite ?Hpoll. cbn. by rewrite ?Hpoll. }
  destruct (prop_or_throw body "createdBy") as [v|] eqn:Hv.
  2: { unfold post_end. rewrite ?Hpoll, ?Hv. cbn. by rewrite ?Hpoll, ?Hv. }
  destruct (truthy v && str_strict_ne (Poll.createdBy poll) v) eqn:Hcheck.
  { rewrite (post_end_checked store pollId body poll v Hpoll Hv Hcheck). cbn.
    apply (post_end_checked store pollId body poll v Hpoll Hv Hcheck). }
  unfold post_end at 2 3. rewrite Hpoll, Hv, Hcheck.
  unfold DataStore.getPoll in Hpoll. unfold DataStore.updatePoll. rewrite Hpoll.
  cbn [fst snd].
  set (store' := DataStore.mk _ _ _).
  unfold post_end.
  assert (DataStore.getPoll store' pollId
          = Some (Poll.spread poll
                    (Poll.mkPartial None None None (Some ended) None None None))) as ->
    by (unfold DataStore.getPoll, store'; cbn; by rewrite lookup_insert_eq).
  rewrite Hv. cbn [Poll.createdBy Poll.spread default Poll.createdBy'].
  rewrite Hcheck. unfold DataStore.updatePoll.
  assert (DataStore.polls store' !! pollId
          = Some (Poll.spread poll
                    (Poll.mkPartial None None None (Some ended) None None None))) as ->
    by (unfold store'; cbn; by rewrite lookup_insert_eq).
  rewrite spread_ended_ended by done.
  assert (DataStore.mk
            (<[pollId := Poll.spread poll
                           (Poll.mkPartial None None None (Some ended) None None None)]>
               (DataStore.polls store'))
            (DataStore.votes store') (DataStore.pollVoters store') = store') as ->.
  { unfold store'; cbn. by rewrite insert_insert_eq. }
  done.
Qed.

(** X12. The admin page can always end the poll that it shows: the body
    that [handleEndPoll] builds from a poll fetched with [GET /:id] carries
    the creator of that poll, so the end route answers 200, never
    UNAUTHORIZED, and the stored poll is ended. *)
Theorem admin_page_ends_poll store pollId view :
  Routes.body (get_poll store pollId) = ApiSuccess view →
  ∃ body,
    PollAdmin.handleEndPoll (Some view) = Some body
    ∧ http_status (post_end store pollId body).1 = 200
    ∧ succeeded (post_end store pollId body).1 = true
    ∧ (Poll.status <$> DataStore.getPoll (post_end store pollId body).2 pollId)
      = Some ended.
Proof.
  unfold get_poll, DataStore.getPollWithResults.
  destruct (DataStore.polls store !! pollId) as [poll|] eqn:Hpoll; [|done].
  cbn. intros [= <-]. eexists. split; [reflexivity|]. cbn [Poll.createdBy Poll.spread default
    Poll.createdBy'].
  destruct (post_end_unchecked store pollId
              (JObj [("createdBy", JStr (Poll.createdBy poll))]) poll
              (Some (JStr (Poll.createdBy poll))) Hpoll eq_refl)
    as (Hr & Hp & _).
  { cbn. rewrite String.eqb_refl. apply andb_false_r. }
  cbn zeta in Hr, Hp. rewrite Hr, Hp. done.
Qed.

Lemma admin_page_ends_poll_witness :
  ∃ body,
    PollAdmin.handleEndPoll
      (Some (Poll.mk "poll-1" "Lunch?"
               [PollOption.mk "a" "Sushi" 1 100%float;
                PollOption.mk "b" "Ramen" 0 0%float]
               active 0%Z "anonymous" 1))
    = Some body
    ∧ http_status (post_end Sample.voted "poll-1" body).1 = 200
    ∧ succeeded (post_end Sample.voted "poll-1" body).1 = true
    ∧ (Poll.status <$> DataStore.getPoll (post_end Sample.voted "poll-1" body).2 "poll-1")
      = Some ended.
Proof.
  apply (admin_page_ends_poll Sample.voted "poll-1"). by vm_compute.
Defined.

(** ** What the requests keep *)

Section Lifetime.

Lemma same_but_status_refl p : same_but_status p p.
Proof. unfold same_but_status. by destruct p. Qed.

Lemma same_but_status_trans p q r :
  same_but_status p q → same_but_status q r → same_but_status p r.
Proof.
  unfold same_but_status. intros -> ->. done.
Qed.

Lemma post_vote_log env store pollId body other :
  other ≠ pollId →
  DataStore.getVotes (post_vote env store pollId body).2 other
  = DataStore.getVotes store other.
Proof.
  intros Hne. unfold post_vote.
  destruct (negb (isValid (validateVote body))); [done|].
  destruct (DataStore.getPoll store pollId) as [poll|]; [|done].
  destruct (negb (bool_decide (Poll.status poll = active))); [done|].
  destruct (List.find _ _); [|done].
  destruct (DataStore.hasVoted _ _ _); [done|].
  unfold DataStore.addVote. cbn.
  destruct (DataStore.polls store !! pollId); [|done].
  destruct (decide _); [done|]. unfold DataStore.getVotes; cbn.
  by rewrite lookup_insert_ne.
Qed.

(** One request on a store that has the poll [p] under [pollId]. *)
Lemma route_keeps_poll store request pollId p :
  DataStore.polls store !! pollId = Some p →
  ¬ creates pollId request →
  ∃ p' more,
    DataStore.polls (route store request).2 !! pollId = Some p'
    ∧ same_but_status p p'
    ∧ (Poll.status p = ended → Poll.status p' = ended)
    ∧ DataStore.getVotes (route store request).2 pollId
      = DataStore.getVotes store pollId ++ more
    ∧ (Poll.status p = ended → more = []).
Proof.
  intros Hp Hnew.
  destruct request as [env body|q|env q body|q|q body]; cbn.
  - unfold post_poll.
    destruct (isValid (validatePollCreation body)) eqn:Hvalid; cbn.
    + assert (generatePollId env ≠ pollId) as Hne
        by (intros Heq; by apply Hnew).
      exists p, []. unfold DataStore.getVotes; cbn.
      rewrite !lookup_insert_ne by done. rewrite app_nil_r.
      repeat split; try done. apply same_but_status_refl.
    + exists p, []. rewrite app_nil_r. repeat split; try done.
      apply same_but_status_refl.
  - exists p, []. rewrite app_nil_r. repeat split; try done.
    apply same_but_status_refl.
  - destruct (post_vote env store q body) as [r store'] eqn:Hvote.
    pose proof (post_vote_polls env store q body) as Hpolls.
    rewrite Hvote in Hpolls. cbn in *. rewrite Hpolls.
    destruct (succeeded r) eqn:Hok.
    + destruct (decide (q = pollId)) as [->|Hne].
      * pose proof (post_vote_accepted env store pollId body) as Hacc.
        rewrite Hvote in Hacc. cbn in Hacc. destruct (Hacc Hok) as [_ Hlog].
        eexists p, _. split; [done|]. split; [apply same_but_status_refl|].
        split; [done|]. split; [exact Hlog|].
        intros Hended. exfalso.
        assert (succeeded (post_vote env store pollId body).1 = false) as Hfail.
        { unfold post_vote. destruct (negb (isValid (validateVote body))); [done|].
          unfold DataStore.getPoll. rewrite Hp, Hended. done. }
        rewrite Hvote in Hfail. cbn in Hfail. congruence.
      * pose proof (post_vote_log env store q body pollId) as Hlog.
        rewrite Hvote in Hlog. cbn in Hlog.
        exists p, []. rewrite app_nil_r, Hlog by done.
        repeat split; try done. apply same_but_status_refl.
    + pose proof (post_vote_rejected_unchanged env store q body) as Hsame.
      rewrite Hvote in Hsame. cbn in Hsame. rewrite Hsame by done.
      exists p, []. rewrite app_nil_r. repeat split; try done.
      apply same_but_status_refl.
  - exists p, []. rewrite app_nil_r. repeat split; try done.
    apply same_but_status_refl.
  - destruct (post_end_effect store q body) as [Hsame|(poll & Hpoll & Hstore')].
    + destruct (post_end store q body) as [r store']. cbn in *. subst store'.
      exists p, []. rewrite app_nil_r. repeat split; try done.
      apply same_but_status_refl.
    + destruct (post_end store q body) as [r store']. cbn in *. subst store'.
      unfold DataStore.getVotes; cbn.
      destruct (decide (q = pollId)) as [->|Hne].
      * rewrite lookup_insert_eq. assert (poll = p) as -> by congruence.
        eexists _, []. rewrite app_nil_r. split; [done|].
        split; [unfold same_but_status; by destruct p|].
        repeat split; done.
      * rewrite lookup_insert_ne by done.
        exists p, []. rewrite app_nil_r. repeat split; try done.
        apply same_but_status_refl.
Qed.

Lemma serve_keeps_poll requests store pollId p :
  DataStore.polls store !! pollId = Some p →
  Forall (fun request => ¬ creates pollId request) requests →
  ∃ p' more,
    DataStore.polls (serve store requests) !! pollId = Some p'
    ∧ same_but_status p p'
    ∧ (Poll.status p = ended → Poll.status p' = ended)
    ∧ DataStore.getVotes (serve store requests) pollId
      = DataStore.getVotes store pollId ++ more
    ∧ (Poll.status p = ended → more = []).
Proof.
  revert store p. induction requests as [|request requests IH]; intros store p Hp Hall.
  - exists p, []. rewrite app_nil_r. repeat split; try done.
    apply same_but_status_refl.
  - apply Forall_cons in Hall as [Hr Hrs].
    destruct (route_keeps_poll store request pollId p Hp Hr)
      as (p1 & more1 & Hp1 & Hsame1 & Hend1 & Hlog1 & Hfrozen1).
    destruct (IH _ p1 Hp1 Hrs) as (p2 & more2 & Hp2 & Hsame2 & Hend2 & Hlog2 & Hfrozen2).
    exists p2, (more1 ++ more2). cbn [serve foldl]. unfold serve in *.
    split; [done|]. split; [by eapply same_but_status_trans|].
    split; [auto|]. split; [by rewrite Hlog2, Hlog1, app_assoc|].
    intros Hended. rewrite Hfrozen1 by done. rewrite Hfrozen2 by auto. done.
Qed.

End Lifetime.

(** X13. A stored poll changes only in its status, and only to [ended]:
    after any further requests, none of which creates a poll under the same
    identifier, the poll is stored with the identifier, title, options,
    creation time and creator that it had, and a poll that was ended is
    ended. *)
Theorem poll_is_immutable_but_status store requests pollId p :
  DataStore.getPoll store pollId = Some p →
  Forall (fun request => ¬ creates pollId request) requests →
  ∃ p',
    DataStore.getPoll (serve store requests) pollId = Some p'
    ∧ Poll.id p' = Poll.id p
    ∧ Poll.title p' = Poll.title p
    ∧ Poll.options p' = Poll.options p
    ∧ Poll.createdAt p' = Poll.createdAt p
    ∧ Poll.createdBy p' = Poll.createdBy p
    ∧ (Poll.status p = ended → Poll.status p' = ended).
Proof.
  intros Hp Hall.
  destruct (serve_keeps_poll requests store pollId p Hp Hall)
    as (p' & more & Hp' & Hsame & Hend & _).
  exists p'. split; [done|]. unfold same_but_status in Hsame.
  rewrite Hsame. cbn. repeat split; try done; auto.
Qed.

Lemma poll_is_immutable_but_status_witness :
  ∃ p',
    DataStore.getPoll
      (serve Sample.closed
         [POST_vote Sample.vote_env "poll-1" (vote_body "b" "v2");
          POST_end "poll-1" (JObj [])])
      "poll-1" = Some p'
    ∧ Poll.title p' = "Lunch?"
    ∧ Poll.status p' = ended.
Proof.
  destruct (poll_is_immutable_but_status Sample.closed
              [POST_vote Sample.vote_env "poll-1" (vote_body "b" "v2");
               POST_end "poll-1" (JObj [])]
              "poll-1"
              (Poll.mk "poll-1" "Lunch?"
                 [PollOption.mk "a" "Sushi" 0 0%float;
                  PollOption.mk "b" "Ramen" 0 0%float]
                 ended 0%Z "anonymous" 0))
    as (p' & Hp' & _ & Ht & _ & _ & _ & Hs).
  - by vm_compute.
  - repeat constructor; by intros [].
  - exists p'. split; [exact Hp'|]. split; [exact Ht|]. by apply Hs.
Defined.

(** X14. The vote log of a stored poll only grows, at its end: after any
    further requests, none of which creates a poll under the same
    identifier, the log starts with the log of before; and the log of a
    poll that was ended is the log of before, so that its tallies are
    final. *)
Theorem vote_log_only_grows store requests pollId p :
  DataStore.getPoll store pollId = Some p →
  Forall (fun request => ¬ creates pollId request) requests →
  (∃ more,
     DataStore.getVotes (serve store requests) pollId
     = DataStore.getVotes store pollId ++ more)
  ∧ (Poll.status p = ended →
     DataStore.getVotes (serve store requests) pollId = DataStore.getVotes store pollId
     ∧ DataStore.aggregateResults (serve store requests) pollId
       = DataStore.aggregateResults store pollId).
Proof.
  intros Hp Hall.
  destruct (serve_keeps_poll requests store pollId p Hp Hall)
    as (p' & more & Hp' & Hsame & _ & Hlog & Hfrozen).
  split; [by exists more|]. intros Hended.
  rewrite Hfrozen in Hlog by done. rewrite app_nil_r in Hlog. split; [done|].
  rewrite (aggregateResults_eq _ pollId p' Hp'), (aggregateResults_eq _ pollId p Hp).
  rewrite Hlog. unfold same_but_status in Hsame. by rewrite Hsame.
Qed.

Lemma vote_log_only_grows_witness :
  DataStore.getVotes
    (serve Sample.closed [POST_vote Sample.vote_env "poll-1" (vote_body "b" "v2")])
    "poll-1"
  = DataStore.getVotes Sample.closed "poll-1".
Proof.
  destruct (vote_log_only_grows Sample.closed
              [POST_vote Sample.vote_env "poll-1" (vote_body "b" "v2")]
              "poll-1"
              (Poll.mk "poll-1" "Lunch?"
                 [PollOption.mk "a" "Sushi" 0 0%float;
                  PollOption.mk "b" "Ramen" 0 0%float]
                 ended 0%Z "anonymous" 0))
    as [_ Hfrozen].
  - by vm_compute.
  - repeat constructor; by intros [].
  - by apply Hfrozen.
Defined.

Section Shape.

Lemma stored_well_new : stored_well DataStore.new.
Proof. split; intros k; cbn; by rewrite ?lookup_empty. Qed.

Lemma imap_new_options_shape (gen : nat → string) (texts : list string) :
  Forall (fun text => String.length text ≤ 100) texts →
  Forall (fun o => PollOption.votes o = 0
                   ∧ PollOption.percentage o = 0%float
                   ∧ String.length (PollOption.text o) ≤ 100)
         (imap (fun i text => PollOption.mk (gen i) text 0 0%float) texts).
Proof.
  intros Hall. revert gen. induction Hall as [|x texts Hx _ IH]; intros gen; cbn.
  - constructor.
  - constructor; [done|]. apply (IH (gen ∘ S)).
Qed.

Lemma sanitized_options_short os :
  Forall acceptable_option os →
  Forall (fun text => String.length text ≤ 100)
         (map (fun option => sanitizeHtml (trim option)) (as_strings (Some (JArr os)))).
Proof.
  induction 1 as [|o os (s & -> & _ & Hlen) _ IH]; cbn; constructor; [|apply IH].
  unfold sanitizeHtml. pose proof (strip_length false (trim s)).
  pose proof (trim_length s). unfold trim in *. lia.
Qed.

Lemma stored_well_route store request :
  stored_well store → stored_well (route store request).2.
Proof.
  intros [Hpolls Horphan].
  destruct request as [env body|q|env q body|q|q body]; cbn; try done.
  - unfold post_poll.
    destruct (isValid (validatePollCreation body)) eqn:Hvalid; cbn; [|done].
    apply validatePollCreation_valid in Hvalid
      as (title & os & Ht & _ & Hlen & Ho & Hn & Hall).
    unfold stored_well. cbn [DataStore.createPoll snd DataStore.polls DataStore.votes
      DataStore.pollVoters Poll.id].
    split.
    + intros k p. destruct (decide (generatePollId env = k)) as [<-|Hne].
      * rewrite lookup_insert_eq. intros [= <-]. cbn. rewrite Ht, Ho. cbn [as_string].
        split; [done|]. split; [done|]. split; [done|]. split.
        { unfold sanitizeHtml. pose proof (strip_length false (trim title)).
          pose proof (trim_length title). unfold trim in *. lia. }
        split.
        { rewrite length_imap, length_map. cbn [as_strings]. by rewrite length_map. }
        by apply imap_new_options_shape, sanitized_options_short.
      * rewrite lookup_insert_ne by done. apply Hpolls.
    + intros k. destruct (decide (generatePollId env = k)) as [<-|Hne].
      * by rewrite lookup_insert_eq.
      * rewrite !lookup_insert_ne by done. apply Horphan.
  - destruct (post_vote env store q body) as [r store'] eqn:Hvote. cbn.
    pose proof (post_vote_polls env store q body) as Hsame.
    rewrite Hvote in Hsame. cbn in Hsame.
    destruct (succeeded r) eqn:Hok.
    2: { pose proof (post_vote_rejected_unchanged env store q body) as Hun.
         rewrite Hvote in Hun. cbn in Hun. by rewrite Hun. }
    split; [by rewrite Hsame|]. rewrite Hsame. intros k Hk.
    revert Hvote. unfold post_vote.
    destruct (negb (isValid (validateVote body)));
      [intros [= <- <-]; by cbn in Hok|].
    destruct (DataStore.getPoll store q) as [poll|] eqn:Hpoll;
      [|intros [= <- <-]; by cbn in Hok].
    destruct (negb (bool_decide (Poll.status poll = active)));
      [intros [= <- <-]; by cbn in Hok|].
    destruct (List.find _ _); [|intros [= <- <-]; by cbn in Hok].
    destruct (DataStore.hasVoted _ _ _); [intros [= <- <-]; by cbn in Hok|].
    unfold DataStore.addVote, DataStore.getPoll in *. cbn.
    rewrite Hpoll. destruct (decide _); [intros [= <- <-]; by cbn in Hok|].
    cbn. intros [= _ <-]. cbn.
    assert (q ≠ k) as Hne by congruence.
    rewrite !lookup_insert_ne by done. by apply Horphan.
  - destruct (post_end_effect store q body) as [Hsame|(poll & Hpoll & Hstore')].
    { destruct (post_end store q body) as [r store']. cbn in *. by subst store'. }
    destruct (post_end store q body) as [r store']. cbn in *. subst store'.
    split; cbn.
    + intros k p. destruct (decide (q = k)) as [<-|Hne].
      * rewrite lookup_insert_eq. intros [= <-]. cbn. by apply Hpolls.
      * rewrite lookup_insert_ne by done. apply Hpolls.
    + intros k. destruct (decide (q = k)) as [<-|Hne].
      * by rewrite lookup_insert_eq.
      * rewrite lookup_insert_ne by done. apply Horphan.
Qed.

Lemma stored_well_serve requests : stored_well (serve DataStore.new requests).
Proof.
  induction requests as [|request requests IH] using rev_ind.
  - apply stored_well_new.
  - rewrite serve_snoc. by apply stored_well_route.
Qed.

End Shape.

(** X15. After any sequence of requests every stored poll is stored under
    its own identifier and is as the creation route made it, but for its
    status: its creator is ["anonymous"], it has between 2 and 10 options,
    a title of at most 200 and option texts of at most 100 characters, and
    its stored counts, percentages and total are zero (tallies live in the
    views only). No vote log or dedup set exists for an identifier without
    a poll. *)
Theorem stored_polls_shape requests :
  let store := serve DataStore.new requests in
  (∀ k p,
     DataStore.getPoll store k = Some p →
     Poll.id p = k
     ∧ Poll.createdBy p = "anonymous"
     ∧ Poll.totalVotes p = 0
     ∧ String.length (Poll.title p) ≤ 200
     ∧ 2 ≤ length (Poll.options p) ≤ 10
     ∧ Forall (fun o => PollOption.votes o = 0
                        ∧ PollOption.percentage o = 0%float
                        ∧ String.length (PollOption.text o) ≤ 100)
              (Poll.options p))
  ∧ (∀ k,
       DataStore.getPoll store k = None →
       DataStore.getVotes store k = []
       ∧ ∀ voterId, DataStore.hasVoted store k voterId = false).
Proof.
  cbn zeta. destruct (stored_well_serve requests) as [Hpolls Horphan].
  split; [exact Hpolls|].
  intros k Hk. destruct (Horphan k Hk) as [Hv Hs].
  unfold DataStore.getVotes, DataStore.hasVoted. rewrite Hv, Hs. cbn.
  split; [done|]. intros voterId. apply bool_decide_eq_false. apply not_elem_of_empty.
Qed.

Lemma stored_polls_shape_witness :
  ∃ p,
    DataStore.getPoll Sample.voted "poll-1" = Some p
    ∧ Poll.createdBy p = "anonymous"
    ∧ Poll.totalVotes p = 0.
Proof.
  destruct (stored_polls_shape
              [POST_polls Sample.create_env Sample.lunch;
               POST_vote Sample.vote_env "poll-1" (vote_body "a" "v1")])
    as [Hpolls _].
  exists (Poll.mk "poll-1" "Lunch?"
            [PollOption.mk "a" "Sushi" 0 0%float;
             PollOption.mk "b" "Ramen" 0 0%float]
            active 0%Z "anonymous" 0).
  split; [by vm_compute|].
  destruct (Hpolls "poll-1"
              (Poll.mk "poll-1" "Lunch?"
                 [PollOption.mk "a" "Sushi" 0 0%float;
                  PollOption.mk "b" "Ramen" 0 0%float]
                 active 0%Z "anonymous" 0))
    as (_ & Hc & Ht & _); [by vm_compute|].
  split; [exact Hc|exact Ht].
Defined.

(** X16. After any sequence of requests, an end request with a non-empty
    [createdBy] string on an existing poll succeeds exactly when that
    string is ["anonymous"], whoever sends it; with any other non-empty
    string it is answered with UNAUTHORIZED and changes nothing. *)
Theorem anonymous_ends_any_poll requests pollId requester :
  let store := serve DataStore.new requests in
  let body := JObj [("createdBy", JStr requester)] in
  is_Some (DataStore.getPoll store pollId) →
  requester ≠ EmptyString →
  (requester = "anonymous" →
   http_status (post_end store pollId body).1 = 200
   ∧ (Poll.status <$> DataStore.getPoll (post_end store pollId body).2 pollId)
     = Some ended)
  ∧ (requester ≠ "anonymous" →
     post_end store pollId body = (json_response (ApiError unauthorized) 403, store)).
Proof.
  cbn zeta. intros [p Hp] Hne.
  destruct (stored_well_serve requests) as [Hpolls _].
  destruct (Hpolls pollId p Hp) as (_ & Hcreator & _).
  split.
  - intros ->.
    destruct (post_end_unchecked _ pollId (JObj [("createdBy", JStr "anonymous")]) p
                (Some (JStr "anonymous")) Hp eq_refl) as (Hr & Hp' & _).
    { rewrite Hcreator. done. }
    cbn zeta in Hr, Hp'. by rewrite Hr, Hp'.
  - intros Hother.
    apply (post_end_checked _ pollId (JObj [("createdBy", JStr requester)]) p
             (Some (JStr requester)) Hp eq_refl).
    rewrite Hcreator. unfold truthy, str_strict_ne.
    apply andb_true_iff. split; apply negb_true_iff, String.eqb_neq; [done|].
    intros Heq. by apply Hother.
Qed.

Lemma anonymous_ends_any_poll_witness :
  http_status
    (post_end Sample.voted "poll-1" (JObj [("createdBy", JStr "anonymous")])).1 = 200
  ∧ post_end Sample.voted "poll-1" (JObj [("createdBy", JStr "alice")])
    = (json_response (ApiError unauthorized) 403, Sample.voted).
Proof.
  split.
  - destruct (anonymous_ends_any_poll
                [POST_polls Sample.create_env Sample.lunch;
                 POST_vote Sample.vote_env "poll-1" (vote_body "a" "v1")]
                "poll-1" "anonymous") as [Hok _].
    + eexists. by vm_compute.
    + discriminate.
    + by destruct (Hok eq_refl).
  - destruct (anonymous_ends_any_poll
                [POST_polls Sample.create_env Sample.lunch;
                 POST_vote Sample.vote_env "poll-1" (vote_body "a" "v1")]
                "poll-1" "alice") as [_ Hno].
    + eexists. by vm_compute.
    + discriminate.
    + apply Hno. discriminate.
Defined.

(** ** The data store by itself *)

(** X17. [createPoll] stores the poll under its identifier with an empty
    vote log and an empty dedup set, whatever was stored under that
    identifier before (a poll created again loses its votes), and leaves
    the polls, logs and dedup sets of the other identifiers as they
    were. *)
Theorem createPoll_resets_poll store poll :
  let store' := (DataStore.createPoll store poll).2 in
  (DataStore.createPoll store poll).1 = poll
  ∧ DataStore.getPoll store' (Poll.id poll) = Some poll
  ∧ DataStore.getVotes store' (Poll.id poll) = []
  ∧ (∀ voterId, DataStore.hasVoted store' (Poll.id poll) voterId = false)
  ∧ DataStore.aggregateResults store' (Poll.id poll)
    = (fun o => PollOption.mk (PollOption.id o) (PollOption.text o) 0 0%float)
        <$> Poll.options poll
  ∧ ∀ other,
      other ≠ Poll.id poll →
      DataStore.getPoll store' other = DataStore.getPoll store other
      ∧ DataStore.getVotes store' other = DataStore.getVotes store other
      ∧ ∀ voterId,
          DataStore.hasVoted store' other voterId = DataStore.hasVoted store other voterId.
Proof.
  cbn zeta. unfold DataStore.getPoll, DataStore.getVotes, DataStore.hasVoted,
    DataStore.aggregateResults; cbn.
  rewrite !lookup_insert_eq. cbn.
  split; [done|]. split; [done|]. split; [done|]. split.
  { intros voterId. apply bool_decide_eq_false, not_elem_of_empty. }
  split; [done|]. intros other Hne. by rewrite !lookup_insert_ne.
Qed.

(** X18. [deletePoll] returns whether a poll was stored under the
    identifier; afterwards the identifier has no poll, no votes, no voters
    and no view, and a vote for it is refused, while the other identifiers
    are untouched. Deleting a poll just created, on a store that had
    nothing under its identifier, gives the store back. *)
Theorem deletePoll_forgets_poll store id :
  let store' := (DataStore.deletePoll store id).2 in
  ((DataStore.deletePoll store id).1 = true ↔ is_Some (DataStore.getPoll store id))
  ∧ DataStore.getPoll store' id = None
  ∧ DataStore.getVotes store' id = []
  ∧ (∀ voterId, DataStore.hasVoted store' id voterId = false)
  ∧ DataStore.getPollWithResults store' id = None
  ∧ DataStore.aggregateResults store' id = []
  ∧ (∀ vote, Vote.pollId vote = id → DataStore.addVote store' vote = (false, store'))
  ∧ (∀ other,
       other ≠ id →
       DataStore.getPoll store' other = DataStore.getPoll store other
       ∧ DataStore.getVotes store' other = DataStore.getVotes store other
       ∧ ∀ voterId,
           DataStore.hasVoted store' other voterId
           = DataStore.hasVoted store other voterId)
  ∧ ∀ poll,
      Poll.id poll = id →
      DataStore.polls store !! id = None →
      DataStore.votes store !! id = None →
      DataStore.pollVoters store !! id = None →
      DataStore.deletePoll (DataStore.createPoll store poll).2 id = (true, store).
Proof.
  cbn zeta. unfold DataStore.getPoll, DataStore.getVotes, DataStore.hasVoted,
    DataStore.getPollWithResults, DataStore.aggregateResults, DataStore.addVote; cbn.
  rewrite !lookup_delete_eq. cbn.
  split; [apply bool_decide_eq_true|]. split; [done|]. split; [done|]. split.
  { intros voterId. apply bool_decide_eq_false, not_elem_of_empty. }
  split; [done|]. split; [done|]. split.
  { intros vote ->. by rewrite lookup_delete_eq. }
  split.
  { intros other Hne. by rewrite !lookup_delete_ne. }
  intros poll <- Hp Hv Hs. unfold DataStore.deletePoll, DataStore.createPoll; cbn.
  rewrite lookup_insert_eq. rewrite !delete_insert_eq.
  rewrite !delete_id by done. rewrite bool_decide_eq_true_2 by eauto.
  by destruct store.
Qed.

Lemma deletePoll_forgets_poll_witness :
  DataStore.deletePoll
    (DataStore.createPoll DataStore.new
       (Poll.mk "poll-9" "Tea?" [] active 0%Z "anonymous" 0)).2
    "poll-9"
  = (true, DataStore.new).
Proof.
  destruct (deletePoll_forgets_poll DataStore.new "poll-9") as (_ & _ & _ & _ & _ & _ & _ & _ & Hback).
  apply Hback; reflexivity.
Defined.

(** X19. [addVote] accepts a vote exactly when a poll is stored under its
    poll identifier and the voter is not in the dedup set of that poll; it
    looks neither at the status of the poll nor at the option. An accepted
    vote goes to the end of the log of its poll and its voter into the dedup
    set, and nothing else changes; a refused vote changes nothing. *)
Theorem addVote_accepts_once store vote :
  let result := DataStore.addVote store vote in
  (result.1 = true
   ↔ is_Some (DataStore.getPoll store (Vote.pollId vote))
     ∧ DataStore.hasVoted store (Vote.pollId vote) (Vote.voterId vote) = false)
  ∧ (result.1 = false → result.2 = store)
  ∧ (result.1 = true →
     DataStore.getVotes result.2 (Vote.pollId vote)
     = DataStore.getVotes store (Vote.pollId vote) ++ [vote]
     ∧ DataStore.hasVoted result.2 (Vote.pollId vote) (Vote.voterId vote) = true
     ∧ (DataStore.addVote result.2 vote).1 = false
     ∧ DataStore.polls result.2 = DataStore.polls store
     ∧ (∀ voterId,
          voterId ≠ Vote.voterId vote →
          DataStore.hasVoted result.2 (Vote.pollId vote) voterId
          = DataStore.hasVoted store (Vote.pollId vote) voterId)
     ∧ ∀ other,
         other ≠ Vote.pollId vote →
         DataStore.getVotes result.2 other = DataStore.getVotes store other
         ∧ ∀ voterId,
             DataStore.hasVoted result.2 other voterId
             = DataStore.hasVoted store other voterId).
Proof.
  cbn zeta. unfold DataStore.addVote, DataStore.getPoll, DataStore.hasVoted,
    DataStore.getVotes.
  destruct (DataStore.polls store !! Vote.pollId vote) as [poll|] eqn:Hpoll; cbn.
  2: { split; [split; [done|by intros [[? ?] _]]|done]. }
  destruct (decide (Vote.voterId vote
                    ∈ default ∅ (DataStore.pollVoters store !! Vote.pollId vote)))
    as [Hin|Hout]; cbn.
  { rewrite bool_decide_eq_true_2 by done.
    split; [split; [done|by intros [_ ?]]|done]. }
  rewrite bool_decide_eq_false_2 by done.
  split; [split; [eauto|done]|]. split; [done|]. intros _.
  rewrite Hpoll, !lookup_insert_eq. cbn.
  split; [done|]. split.
  { apply bool_decide_eq_true. apply elem_of_union. right. by apply elem_of_singleton. }
  split.
  { rewrite decide_True; [done|]. apply elem_of_union. right. by apply elem_of_singleton. }
  split; [done|]. split.
  { intros voterId Hne. apply bool_decide_ext. rewrite elem_of_union, elem_of_singleton.
    split; [by intros [?|?]|by left]. }
  intros other Hne. by rewrite !lookup_insert_ne.
Qed.

Lemma addVote_accepts_once_witness :
  (DataStore.addVote Sample.closed (Vote.mk "vote-2" "poll-1" "zzz" "v9" 2%Z)).1 = true
  ∧ DataStore.hasVoted
      (DataStore.addVote Sample.closed (Vote.mk "vote-2" "poll-1" "zzz" "v9" 2%Z)).2
      "poll-1" "v9" = true.
Proof.
  destruct (addVote_accepts_once Sample.closed (Vote.mk "vote-2" "poll-1" "zzz" "v9" 2%Z))
    as (Hiff & _ & Hok).
  assert ((DataStore.addVote Sample.closed
             (Vote.mk "vote-2" "poll-1" "zzz" "v9" 2%Z)).1 = true) as Htrue.
  { apply Hiff. split; [eexists; by vm_compute|by vm_compute]. }
  split; [exact Htrue|]. by destruct (Hok Htrue) as (_ & Hhas & _).
Defined.

(** X20. [updatePoll] returns nothing and changes nothing for an identifier
    without a poll; otherwise it returns and stores the poll with the given
    fields replaced, and touches no other poll, no vote log and no dedup
    set. An update without fields leaves the store as it is. *)
Theorem updatePoll_replaces_fields store id updates :
  let result := DataStore.updatePoll store id updates in
  (DataStore.getPoll store id = None → result = (None, store))
  ∧ (∀ poll,
       DataStore.getPoll store id = Some poll →
       result.1 = Some (Poll.spread poll updates)
       ∧ DataStore.getPoll result.2 id = Some (Poll.spread poll updates)
       ∧ (updates = Poll.no_updates → result = (Some poll, store)))
  ∧ DataStore.votes result.2 = DataStore.votes store
  ∧ DataStore.pollVoters result.2 = DataStore.pollVoters store
  ∧ ∀ other, other ≠ id →
             DataStore.getPoll result.2 other = DataStore.getPoll store other.
Proof.
  cbn zeta. unfold DataStore.updatePoll, DataStore.getPoll.
  destruct (DataStore.polls store !! id) as [poll|] eqn:Hpoll; cbn.
  - split; [done|]. split.
    + intros p [= <-]. split; [done|]. rewrite lookup_insert_eq. split; [done|].
      intros ->. assert (Poll.spread poll Poll.no_updates = poll) as ->
        by (by destruct poll).
      rewrite insert_id by done. by destruct store.
    + split; [done|]. split; [done|]. intros other Hne. by rewrite lookup_insert_ne.
  - split; [done|]. split; [done|]. done.
Qed.

Lemma updatePoll_replaces_fields_witness :
  DataStore.updatePoll Sample.voted "poll-1" Poll.no_updates
  = (Some (Poll.mk "poll-1" "Lunch?"
             [PollOption.mk "a" "Sushi" 0 0%float;
              PollOption.mk "b" "Ramen" 0 0%float]
             active 0%Z "anonymous" 0),
     Sample.voted).
Proof.
  destruct (updatePoll_replaces_fields Sample.voted "poll-1" Poll.no_updates)
    as (_ & Hsome & _).
  destruct (Hsome (Poll.mk "poll-1" "Lunch?"
                     [PollOption.mk "a" "Sushi" 0 0%float;
                      PollOption.mk "b" "Ramen" 0 0%float]
                     active 0%Z "anonymous" 0)) as (_ & _ & Hid); [by vm_compute|].
  by apply Hid.
Defined.

(** ** The registry, again *)

Section RegistryMore.
Import WebSocket.

Lemma registered_removeConnection this pollId ws0 :
  registered (removeConnection this pollId ws0) pollId
  = match List.find (fun connection => ws connection =? ws0) (registered this pollId) with
    | Some connection => set_delete connection (registered this pollId)
    | None => registered this pollId
    end
  ∧ (connections (removeConnection this pollId ws0) !! pollId = None
     ↔ registered (removeConnection this pollId ws0) pollId = [])
  ∧ (∀ other, other ≠ pollId →
              connections (removeConnection this pollId ws0) !! other
              = connections this !! other)
  ∧ allocated (removeConnection this pollId ws0) = allocated this
  ∧ timers (removeConnection this pollId ws0) = timers this.
Proof.
  unfold removeConnection, registered.
  destruct (connections this !! pollId) as [s|] eqn:Hs.
  2: { rewrite Hs. done. }
  cbn [from_option id connections allocated timers].
  generalize (match List.find (fun connection => ws connection =? ws0) s with
              | Some connection => set_delete connection s
              | None => s
              end).
  intros s'. destruct (length s' =? 0) eqn:Hlen.
  - apply Nat.eqb_eq in Hlen. destruct s'; [|done].
    rewrite lookup_delete_eq. cbn [from_option id]. repeat split; try done.
    intros other Hne. by rewrite lookup_delete_ne.
  - rewrite lookup_insert_eq. cbn [from_option id]. split; [done|]. split.
    + split; [done|]. intros ->. done.
    + repeat split; try done. intros other Hne. by rewrite lookup_insert_ne.
Qed.

Lemma find_socket_split (s : list WebSocketConnection) ws0 c :
  List.find (fun connection => ws connection =? ws0) s = Some c →
  ∃ before after,
    s = before ++ c :: after ∧ ws c = ws0 ∧ ws0 ∉ ws <$> before.
Proof.
  induction s as [|c' s IH]; cbn; [done|].
  destruct (ws c' =? ws0) eqn:Hc.
  - intros [= <-]. exists [], s. apply Nat.eqb_eq in Hc.
    split; [done|]. split; [done|]. apply not_elem_of_nil.
  - intros (before & after & -> & Hws & Hnot)%IH.
    exists (c' :: before), after. split; [done|]. split; [done|].
    apply Nat.eqb_neq in Hc. cbn. intros [?|?]%elem_of_cons; [congruence|done].
Qed.

Lemma find_socket_none (s : list WebSocketConnection) ws0 :
  List.find (fun connection => ws connection =? ws0) s = None ↔ ws0 ∉ ws <$> s.
Proof.
  induction s as [|c' s IH]; cbn; [split; [intros _; apply not_elem_of_nil|done]|].
  destruct (ws c' =? ws0) eqn:Hc.
  - apply Nat.eqb_eq in Hc. split; [done|]. intros Hnot. destruct Hnot.
    apply elem_of_cons. by left.
  - apply Nat.eqb_neq in Hc. rewrite IH, not_elem_of_cons.
    split; [by intros ?|by intros [_ ?]].
Qed.

Lemma find_socket_app (s1 s2 : list WebSocketConnection) ws0 :
  List.find (fun connection => ws connection =? ws0) s1 = None →
  List.find (fun connection => ws connection =? ws0) (s1 ++ s2)
  = List.find (fun connection => ws connection =? ws0) s2.
Proof.
  induction s1 as [|c s1 IH]; cbn; [done|].
  destruct (ws c =? ws0); [done|]. apply IH.
Qed.

Lemma filter_filter_same {A} (P : A → Prop) `{!∀ x, Decision (P x)} (l : list A) :
  filter P (filter P l) = filter P l.
Proof.
  induction l as [|x l IH]; [done|]. rewrite filter_cons.
  destruct (decide (P x)); [|done]. rewrite filter_cons, decide_True by done.
  by rewrite IH.
Qed.

End RegistryMore.

Section RegistryExtras.
Import WebSocket.

(** X21. [removeConnection] removes the oldest connection of the socket
    from the set of the poll and no other: the count of the poll drops by
    one when the socket is registered there and stays when it is not (or
    the poll has no set). A set that becomes empty is dropped from the map.
    The sets of the other polls, and the scheduled confirmations, are as
    they were. *)
Theorem removeConnection_removes_oldest this pollId ws0 :
  well_allocated this →
  let this' := removeConnection this pollId ws0 in
  (ws0 ∉ ws <$> registered this pollId →
   registered this' pollId = registered this pollId)
  ∧ (ws0 ∈ ws <$> registered this pollId →
     ∃ before c after,
       registered this pollId = before ++ c :: after
       ∧ ws c = ws0 ∧ (ws0 ∉ ws <$> before)
       ∧ registered this' pollId = before ++ after
       ∧ S (getConnectionCount this' pollId) = getConnectionCount this pollId)
  ∧ (connections this' !! pollId = None ↔ getConnectionCount this' pollId = 0)
  ∧ (∀ other, other ≠ pollId → connections this' !! other = connections this !! other)
  ∧ timers this' = timers this.
Proof.
  intros Hwf. cbn zeta.
  destruct (registered_removeConnection this pollId ws0)
    as (Hreg & Hgc & Hother & _ & Htimers).
  split; [|split]; [| |split; [|split]].
  - intros Hnot. apply find_socket_none in Hnot. by rewrite Hreg, Hnot.
  - intros Hin.
    destruct (List.find (fun connection => ws connection =? ws0) (registered this pollId))
      as [c|] eqn:Hfind.
    2: { apply find_socket_none in Hfind. done. }
    destruct (find_socket_split _ _ _ Hfind) as (before & after & Hsplit & Hws & Hnot).
    exists before, c, after. split; [done|]. split; [done|]. split; [done|].
    assert (registered (removeConnection this pollId ws0) pollId = before ++ after)
      as Hafter.
    { rewrite Hreg. rewrite Hsplit. apply set_delete_member.
      rewrite <-Hsplit. apply Hwf. }
    split; [done|].
    rewrite !getConnectionCount_registered, Hafter, Hsplit, !length_app. cbn. lia.
  - rewrite getConnectionCount_registered, Hgc. split; [by intros ->|].
    by destruct (registered _ _).
  - done.
  - done.
Qed.

Lemma removeConnection_removes_oldest_witness :
  let this := addConnection (addConnection WebSocket.new "poll-1" 7 "client-1")
                "poll-1" 7 "client-2" in
  clientId <$> registered (removeConnection this "poll-1" 7) "poll-1" = ["client-2"].
Proof.
  cbn zeta.
  destruct (addConnection_spec WebSocket.new "poll-1" 7 "client-1"
              well_allocated_new) as (_ & _ & Hwf1).
  destruct (addConnection_spec _ "poll-1" 7 "client-2" Hwf1) as (_ & _ & Hwf2).
  destruct (removeConnection_removes_oldest _ "poll-1" 7 Hwf2) as (_ & Hin & _).
  destruct Hin as (before & c & after & Hsplit & Hws & Hnot & Hafter & _).
  { vm_compute. apply elem_of_cons. by left. }
  by vm_compute.
Defined.

(** X22. Registering a socket that is not registered under the poll and
    removing it again gives back the set of the poll and its count. *)
Theorem add_then_remove this pollId ws0 clientId :
  well_allocated this →
  ws0 ∉ ws <$> registered this pollId →
  registered (removeConnection (addConnection this pollId ws0 clientId) pollId ws0) pollId
  = registered this pollId
  ∧ getConnectionCount
      (removeConnection (addConnection this pollId ws0 clientId) pollId ws0) pollId
    = getConnectionCount this pollId.
Proof.
  intros Hwf Hnot.
  destruct (addConnection_spec this pollId ws0 clientId Hwf) as (Hadd & _ & Hwf').
  cbn zeta in *.
  destruct (registered_removeConnection (addConnection this pollId ws0 clientId)
              pollId ws0) as (Hreg & _).
  assert (registered (removeConnection (addConnection this pollId ws0 clientId)
                        pollId ws0) pollId
          = registered this pollId) as Heq.
  { rewrite Hreg, Hadd.
    assert (List.find (fun connection => ws connection =? ws0)
              (registered this pollId
               ++ [mkConnection (allocated this) ws0 pollId clientId])
            = Some (mkConnection (allocated this) ws0 pollId clientId)) as ->.
    { apply find_socket_none in Hnot. rewrite find_socket_app by done. cbn.
      by rewrite Nat.eqb_refl. }
    rewrite set_delete_member; [by rewrite app_nil_r|].
    rewrite <-Hadd. apply Hwf'. }
  split; [done|]. by rewrite !getConnectionCount_registered, Heq.
Qed.

Lemma add_then_remove_witness :
  getConnectionCount
    (removeConnection (addConnection WebSocket.new "poll-1" 7 "client-1") "poll-1" 7)
    "poll-1" = 0.
Proof.
  destruct (add_then_remove WebSocket.new "poll-1" 7 "client-1" well_allocated_new)
    as [_ Hcount].
  - vm_compute. apply not_elem_of_nil.
  - exact Hcount.
Defined.

(** X23. [broadcastToPoll] does nothing for a poll without a set, and never
    adds a set to the map or drops one: a set whose sockets all fail stays
    in the map, empty (only [removeConnection] drops it). After a
    broadcast, the next one removes no connection and reaches every
    connection that is left. *)
Theorem broadcast_aftermath this net pollId message message' :
  well_allocated this →
  let first := broadcastToPoll this net pollId message in
  let second := broadcastToPoll first.1 first.2 pollId message' in
  (connections this !! pollId = None → first = (this, net))
  ∧ (is_Some (connections first.1 !! pollId) ↔ is_Some (connections this !! pollId))
  ∧ timers first.1 = timers this
  ∧ registered second.1 pollId = registered first.1 pollId
  ∧ sent second.2
    = sent first.2 ++ ((fun c => (ws c, message')) <$> registered first.1 pollId).
Proof.
  intros Hwf. cbn zeta.
  destruct (broadcastToPoll_spec this net pollId message Hwf)
    as (Hreg & Hnet & _ & Hwf').
  cbn zeta in *.
  destruct (broadcastToPoll_spec _ (broadcastToPoll this net pollId message).2
              pollId message' Hwf') as (Hreg2 & Hnet2 & _).
  cbn zeta in *.
  assert (broken (broadcastToPoll this net pollId message).2 = broken net) as Hbroken
    by (by rewrite Hnet).
  split; [|split]; [| |split; [|split]].
  - unfold broadcastToPoll. by intros ->.
  - unfold broadcastToPoll.
    destruct (connections this !! pollId) as [s|] eqn:Hs.
    + destruct (broadcast_loop message s s net). cbn. rewrite lookup_insert_eq.
      split; eauto.
    + cbn. by rewrite Hs.
  - unfold broadcastToPoll.
    destruct (connections this !! pollId) as [s|]; [|done].
    by destruct (broadcast_loop message s s net).
  - rewrite Hreg2, Hbroken, Hreg. apply filter_filter_same.
  - rewrite Hnet2. cbn. rewrite Hbroken, Hreg. by rewrite filter_filter_same.
Qed.

Lemma broadcast_aftermath_witness :
  let this := addConnection WebSocket.new "poll-1" 7 "client-1" in
  let net := {| broken := {[7]}; sent := [] |} in
  let message := {| type := poll_updated; payload := PollView None |} in
  connections (broadcastToPoll this net "poll-1" message).1 !! "poll-1" = Some [].
Proof.
  cbn zeta.
  destruct (addConnection_spec WebSocket.new "poll-1" 7 "client-1"
              well_allocated_new) as (_ & _ & Hwf1).
  destruct (broadcast_aftermath _ {| broken := {[7]}; sent := [] |} "poll-1"
              {| type := poll_updated; payload := PollView None |}
              {| type := poll_updated; payload := PollView None |} Hwf1)
    as (_ & Hkey & _).
  by vm_compute.
Defined.

(** X24. Every [addConnection] schedules one confirmation for its
    connection, and nothing cancels it: neither [removeConnection] nor
    [broadcastToPoll] touches the scheduled confirmations. When it runs, on
    a manager that had none scheduled before, the ["join-poll"] message with
    the poll and the client identifier is sent to the socket if the socket
    works, also when the connection has been removed since; if the socket
    fails, nothing is sent and, unlike in a broadcast, no connection is
    removed. *)
Theorem join_confirmation this net pollId ws0 clientId :
  timers this = [] →
  let added := addConnection this pollId ws0 clientId in
  let removed := removeConnection added pollId ws0 in
  timers added = [(mkConnection (allocated this) ws0 pollId clientId,
                   joined pollId clientId)]
  ∧ timers removed = timers added
  ∧ (∀ message, timers (broadcastToPoll added net pollId message).1 = timers added)
  ∧ connections (run_timer added net).1 = connections added
  ∧ connections (run_timer removed net).1 = connections removed
  ∧ (ws0 ∉ broken net →
     sent (run_timer added net).2 = sent net ++ [(ws0, joined pollId clientId)]
     ∧ sent (run_timer removed net).2 = sent net ++ [(ws0, joined pollId clientId)])
  ∧ (ws0 ∈ broken net →
     (run_timer added net).2 = net ∧ (run_timer removed net).2 = net).
Proof.
  intros Hnone. cbn zeta.
  destruct (registered_removeConnection (addConnection this pollId ws0 clientId)
              pollId ws0) as (_ & _ & _ & _ & Htimers).
  assert (timers (addConnection this pollId ws0 clientId)
          = [(mkConnection (allocated this) ws0 pollId clientId, joined pollId clientId)])
    as Hadded by (unfold addConnection; cbn; by rewrite Hnone).
  split; [done|]. split; [done|]. split.
  { intros message. unfold broadcastToPoll.
    destruct (connections _ !! pollId) as [s|]; [|done].
    by destruct (broadcast_loop message s s net). }
  unfold run_timer. rewrite Htimers, Hadded. cbn.
  split; [done|]. split; [done|]. unfold sendToClient, send. cbn. split.
  - intros Hworks. by rewrite decide_False.
  - intros Hbroken. by rewrite decide_True.
Qed.

Lemma join_confirmation_witness :
  sent (run_timer
          (removeConnection (addConnection WebSocket.new "poll-1" 7 "client-1")
             "poll-1" 7)
          {| broken := ∅; sent := [] |}).2
  = [(7, joined "poll-1" "client-1")].
Proof.
  destruct (join_confirmation WebSocket.new {| broken := ∅; sent := [] |}
              "poll-1" 7 "client-1" eq_refl) as (_ & _ & _ & _ & _ & Hworks & _).
  destruct Hworks as [_ Hsent]; [apply not_elem_of_empty|]. exact Hsent.
Defined.

End RegistryExtras.

Section Trace.
Import WebSocket.

Lemma explained_more events event ws0 m :
  explained events ws0 m → explained (events ++ [event]) ws0 m.
Proof.
  intros (p & cid & Hopen & Hm). exists p, cid.
  split; [apply elem_of_app; by left|].
  destruct Hm as [->|Hpub]; [by left|]. right. apply elem_of_app. by left.
Qed.

Lemma traced_new : traced [] (WebSocket.new, {| broken := ∅; sent := [] |}).
Proof.
  split; [|split]; cbn.
  - intros p c. unfold registered; cbn. rewrite lookup_empty. cbn. by intros ?%elem_of_nil.
  - intros c m. by intros ?%elem_of_nil.
  - intros ws0 m. by intros ?%elem_of_nil.
Qed.

Lemma traced_step events state event :
  well_allocated state.1 →
  traced events state →
  traced (events ++ [event]) (step state event).
Proof.
  destruct state as [this net]. cbn [fst]. intros Hwf (Hreg & Htimers & Hsent).
  cbn [fst snd] in *.
  assert (∀ p c, c ∈ registered this p →
                 pollId c = p ∧ Opened p (ws c) (clientId c) ∈ events ++ [event])
    as Hreg'.
  { intros p c Hc. destruct (Hreg p c Hc). split; [done|]. apply elem_of_app. by left. }
  assert (∀ c m, (c, m) ∈ timers this →
                 m = joined (pollId c) (clientId c)
                 ∧ Opened (pollId c) (ws c) (clientId c) ∈ events ++ [event])
    as Htimers'.
  { intros c m Hc. destruct (Htimers c m Hc). split; [done|]. apply elem_of_app. by left. }
  assert (∀ ws0 m, (ws0, m) ∈ sent net → explained (events ++ [event]) ws0 m)
    as Hsent'.
  { intros ws0 m Hm. by apply explained_more, Hsent. }
  destruct event as [p ws0 cid|p ws0|p message| |ws0]; cbn [step].
  - split; [|split]; cbn [fst snd].
    + intros q c. destruct (decide (q = p)) as [->|Hne].
      * rewrite registered_addConnection. unfold set_add.
        destruct (set_has _ _); [apply Hreg'|].
        intros [Hc|Hc]%elem_of_app; [by apply Hreg'|].
        apply list_elem_of_singleton in Hc. subst c. cbn. split; [done|].
        apply elem_of_app. right. by apply list_elem_of_singleton.
      * unfold registered. rewrite connections_addConnection_ne by done. apply Hreg'.
    + intros c m. unfold addConnection; cbn.
      intros [Hc|Hc]%elem_of_app; [by apply Htimers'|].
      apply list_elem_of_singleton in Hc. injection Hc as -> ->. cbn. split; [done|].
      apply elem_of_app. right. by apply list_elem_of_singleton.
    + done.
  - destruct (registered_removeConnection this p ws0) as (Hrm & _ & Hother & _ & Htm).
    split; [|split]; cbn [fst snd].
    + intros q c. destruct (decide (q = p)) as [->|Hne].
      * rewrite Hrm. destruct (List.find _ _); [|apply Hreg'].
        unfold set_delete. intros Hc%list_elem_of_In%filter_In.
        apply Hreg'. apply list_elem_of_In. by destruct Hc.
      * unfold registered. rewrite Hother by done. apply Hreg'.
    + rewrite Htm. done.
    + done.
  - destruct (broadcastToPoll_spec this net p message Hwf) as (Hbc & Hnet & Hother & _).
    cbn zeta in *.
    assert (timers (broadcastToPoll this net p message).1 = timers this) as Htm.
    { unfold broadcastToPoll. destruct (connections this !! p) as [s|]; [|done].
      by destruct (broadcast_loop message s s net). }
    split; [|split].
    + intros q c. destruct (decide (q = p)) as [->|Hne].
      * rewrite Hbc. intros [_ Hc]%list_elem_of_filter. by apply Hreg'.
      * unfold registered. rewrite Hother by done. apply Hreg'.
    + rewrite Htm. done.
    + rewrite Hnet. cbn [sent]. intros ws1 m [Hm|Hm]%elem_of_app; [by apply Hsent'|].
      apply list_elem_of_fmap in Hm as (c & [= -> ->] & [_ Hc]%list_elem_of_filter).
      destruct (Hreg' p c Hc) as [Hp Hopen].
      exists p, (clientId c). split; [done|]. right.
      apply elem_of_app. right. by apply list_elem_of_singleton.
  - unfold run_timer. destruct (timers this) as [|[c m] rest] eqn:Ht.
    { split; [exact Hreg'|]. split; [|exact Hsent'].
      intros c m Hc. cbn [fst] in Hc. rewrite Ht in Hc. by apply elem_of_nil in Hc. }
    split; [|split]; cbn [fst snd timers].
    + done.
    + intros c' m' Hc'. apply Htimers'. apply elem_of_cons. by right.
    + unfold sendToClient, send. destruct (decide _); [done|]. cbn [sent].
      intros ws1 m1 [Hm|Hm]%elem_of_app; [by apply Hsent'|].
      apply list_elem_of_singleton in Hm. injection Hm as -> ->.
      destruct (Htimers' c m) as [-> Hopen]; [apply elem_of_cons; by left|].
      exists (pollId c), (clientId c). split; [done|]. by left.
  - split; [done|]. split; [done|]. done.
Qed.

Lemma run_snoc events event : run (events ++ [event]) = step (run events) event.
Proof. unfold run. by rewrite foldl_snoc. Qed.

Lemma traced_run events : traced events (run events).
Proof.
  induction events as [|event events IH] using rev_ind.
  - apply traced_new.
  - rewrite run_snoc. apply traced_step; [apply well_allocated_run|done].
Qed.

(** X25. Whatever happens to a manager (sockets opened and closed,
    messages published, confirmations run, sockets breaking), a message is
    only ever sent to a socket that was opened for a poll, and it is the
    confirmation of that opening or a message published to that poll: no
    socket gets a message of a poll that it was not opened for. Every
    connection registered under a poll is a connection opened for that
    poll. *)
Theorem messages_stay_within_poll events :
  (∀ ws0 message,
     (ws0, message) ∈ sent (run events).2 →
     ∃ pollId clientId,
       Opened pollId ws0 clientId ∈ events
       ∧ (message = joined pollId clientId ∨ Published pollId message ∈ events))
  ∧ (∀ pollId c,
       c ∈ registered (run events).1 pollId →
       WebSocket.pollId c = pollId
       ∧ Opened pollId (ws c) (clientId c) ∈ events).
Proof.
  destruct (traced_run events) as (Hreg & _ & Hsent). split; [exact Hsent|exact Hreg].
Qed.

Lemma messages_stay_within_poll_witness :
  let events :=
    [Opened "poll-1" 7 "client-1"; Opened "poll-2" 8 "client-2";
     Published "poll-1" {| type := poll_updated; payload := PollView None |}] in
  sent (run events).2 = [(7, {| type := poll_updated; payload := PollView None |})]
  ∧ ∃ pollId clientId,
      Opened pollId 7 clientId ∈ events
      ∧ ({| type := poll_updated; payload := PollView None |} = joined pollId clientId
         ∨ Published pollId {| type := poll_updated; payload := PollView None |}
           ∈ events).
Proof.
  cbn zeta. split; [by vm_compute|].
  destruct (messages_stay_within_poll
              [Opened "poll-1" 7 "client-1"; Opened "poll-2" 8 "client-2";
               Published "poll-1" {| type := poll_updated; payload := PollView None |}])
    as [Hsent _].
  apply Hsent. vm_compute. apply elem_of_cons. by left.
Defined.

End Trace.

(** ** The creation form of the client *)

Section Form.
Import CreatePollForm.

Lemma filter_index_ext keep keep' i options :
  (∀ j, i ≤ j → keep j = keep' j) →
  filter_index keep i options = filter_index keep' i options.
Proof.
  revert i. induction options as [|o rest IH]; intros i Hext; cbn; [done|].
  rewrite (Hext i) by lia. rewrite (IH (S i)); [done|]. intros j Hj. apply Hext. lia.
Qed.

Lemma filter_index_all keep i options :
  (∀ j, i ≤ j → keep j = true) → filter_index keep i options = options.
Proof.
  revert i. induction options as [|o rest IH]; intros i Hall; cbn; [done|].
  rewrite Hall by lia. rewrite IH; [done|]. intros j Hj. apply Hall. lia.
Qed.

Lemma filter_index_delete k j (options : list string) :
  filter_index (fun i => negb (i =? k + j)) k options = delete j options.
Proof.
  revert k j. induction options as [|o rest IH]; intros k j; cbn; [done|].
  destruct j as [|j]; cbn.
  - rewrite Nat.add_0_r, Nat.eqb_refl. cbn. apply filter_index_all.
    intros i Hi. apply negb_true_iff, Nat.eqb_neq. lia.
  - replace (k =? k + S j) with false by (symmetry; apply Nat.eqb_neq; lia).
    cbn. f_equal. etransitivity; [|apply (IH (S k) j)]. apply filter_index_ext.
    intros i _. by replace (k + S j) with (S k + j) by lia.
Qed.

Lemma removeOption_deletes form index :
  removeOption form index
  = if 2 <? length (options form)
    then {| title := title form; options := delete index (options form) |}
    else form.
Proof.
  unfold removeOption. destruct (2 <? length (options form)); [|done].
  f_equal. apply (filter_index_delete 0 index).
Qed.

Lemma act_keeps_count form action form' :
  rendered form action = true →
  act form action = Some form' →
  2 ≤ length (options form) ≤ 10 →
  2 ≤ length (options form') ≤ 10.
Proof.
  intros Hr Hact Hn.
  destruct action as [value| |index|index value]; cbn [rendered act] in *.
  - by injection Hact as <-.
  - injection Hact as <-. unfold addOption.
    destruct (length (options form) <? 10) eqn:Hlt; [|done].
    apply Nat.ltb_lt in Hlt. cbn. rewrite length_app. cbn. lia.
  - injection Hact as <-. rewrite removeOption_deletes.
    destruct (2 <? length (options form)) eqn:Hlt; [|done].
    apply Nat.ltb_lt in Hlt. apply Nat.ltb_lt in Hr. cbn.
    rewrite length_delete by (by apply lookup_lt_is_Some). lia.
  - unfold updateOption in Hact. rewrite Hr in Hact. injection Hact as <-. cbn.
    by rewrite length_insert.
Qed.

Lemma use_keeps_count actions form form' :
  use form actions = Some form' →
  2 ≤ length (options form) ≤ 10 →
  2 ≤ length (options form') ≤ 10.
Proof.
  revert form. induction actions as [|action actions IH]; intros form; cbn.
  - by intros [= <-].
  - destruct (rendered form action) eqn:Hr; [|done].
    destruct (act form action) as [form1|] eqn:Hact; [|done].
    intros Huse Hn. apply (IH form1 Huse). by apply (act_keeps_count form action).
Qed.

Lemma too_long_none i options :
  too_long i options = None →
  Forall (fun option => nonblank option = true → String.length option ≤ 100) options.
Proof.
  revert i. induction options as [|o rest IH]; intros i; cbn [too_long];
    [constructor|].
  destruct (nonblank o) eqn:Hb; cbn [andb].
  - destruct (100 <? String.length o) eqn:Hlen; [done|].
    intros Hrest. constructor; [|by apply (IH (S i))].
    intros _. by apply Nat.ltb_ge.
  - intros Hrest. constructor; [congruence|by apply (IH (S i))].
Qed.

Lemma submitted_options_acceptable options :
  Forall (fun option => nonblank option = true → String.length option ≤ 100) options →
  Forall acceptable_option
    (map JStr (map (fun opt => trim opt) (List.filter nonblank options))).
Proof.
  induction 1 as [|o rest Ho _ IH]; cbn [List.filter map]; [constructor|].
  destruct (nonblank o) eqn:Hb; [|done]. cbn [List.filter map].
  constructor; [|done].
  exists (trim o). split; [done|]. rewrite trim_idem. split.
  - unfold nonblank in Hb. apply Nat.ltb_lt in Hb. intros Hnil.
    rewrite Hnil in Hb. cbn in Hb. lia.
  - pose proof (trim_length o). specialize (Ho eq_refl). lia.
Qed.

Lemma length_filter_bool {A} (f : A → bool) (l : list A) :
  length (List.filter f l) ≤ length l.
Proof. induction l as [|x l IH]; cbn; [done|]. destruct (f x); cbn; lia. Qed.

Lemma handleSubmit_acceptable form body :
  length (options form) ≤ 10 →
  handleSubmit form = Some body →
  body = stringify (requestData form) ∧ acceptable_creation body.
Proof.
  intros Hmax. unfold handleSubmit, validateForm.
  destruct (String.eqb_spec (trim (title form)) EmptyString) as [|Hblank]; [done|].
  destruct (200 <? String.length (title form)) eqn:Hlong; [done|].
  destruct (length (List.filter nonblank (options form)) <? 2) eqn:Hfew; [done|].
  destruct (too_long 0 (options form)) eqn:Hopts; [done|].
  intros [= <-]. split; [done|].
  apply Nat.ltb_ge in Hlong. apply Nat.ltb_ge in Hfew.
  exists (trim (title form)),
    (map JStr (map (fun opt => trim opt) (List.filter nonblank (options form)))).
  split; [done|]. split; [by rewrite trim_idem|]. split.
  { pose proof (trim_length (title form)). lia. }
  split; [done|]. split.
  { rewrite !length_map. pose proof (length_filter_bool nonblank (options form)). lia. }
  by apply submitted_options_acceptable, (too_long_none 0).
Qed.

Lemma as_request_stringify data : as_CreatePollRequest (stringify data) = data.
Proof.
  destruct data as [title options]. unfold as_CreatePollRequest, stringify.
  cbn [req_title req_options]. f_equal.
  change (map (fun o => as_string (Some o)) (map JStr options) = options).
  induction options as [|o rest IH]; cbn; [done|]. f_equal. exact IH.
Qed.

End Form.

(** X26. The creation form always shows between 2 and 10 options: from the
    initial form with two empty options, after any sequence of typing,
    adding and removing on what is rendered, the count stays in that range;
    removing is refused at two options and adding at ten, and removing
    drops exactly the option at the index. *)
Theorem form_keeps_option_count actions form :
  CreatePollForm.use CreatePollForm.initial actions = Some form →
  2 ≤ length (CreatePollForm.options form) ≤ 10
  ∧ (∀ index,
       CreatePollForm.removeOption form index
       = if 2 <? length (CreatePollForm.options form)
         then {| CreatePollForm.title := CreatePollForm.title form;
                 CreatePollForm.options := delete index (CreatePollForm.options form) |}
         else form)
  ∧ (length (CreatePollForm.options form) = 10 → CreatePollForm.addOption form = form).
Proof.
  intros Huse. split; [|split].
  - apply (use_keeps_count actions CreatePollForm.initial form Huse). cbn. lia.
  - apply removeOption_deletes.
  - intros Hten. unfold CreatePollForm.addOption. by rewrite Hten.
Qed.

Lemma form_keeps_option_count_witness :
  ∃ form,
    CreatePollForm.use CreatePollForm.initial
      [CreatePollForm.ClickAdd; CreatePollForm.TypeOption 2 "Udon";
       CreatePollForm.ClickRemove 0; CreatePollForm.ClickRemove 0]
    = Some form
    ∧ CreatePollForm.options form = [EmptyString; "Udon"]
    ∧ 2 ≤ length (CreatePollForm.options form) ≤ 10.
Proof.
  eexists. split; [by vm_compute|]. split; [done|].
  apply (form_keeps_option_count
           [CreatePollForm.ClickAdd; CreatePollForm.TypeOption 2 "Udon";
            CreatePollForm.ClickRemove 0; CreatePollForm.ClickRemove 0]).
  by vm_compute.
Defined.

(** X27. What the creation form submits, the server accepts: when the form,
    after any use of it, passes its own [validateForm], the body that
    [handleSubmit] posts passes [validatePollCreation], and the creation
    route answers 201 with a poll whose title is the sanitised trimmed
    title of the form and whose options are the non-blank options of the
    form, trimmed and sanitised, in their order. *)
Theorem submitted_form_is_accepted actions form body env store :
  CreatePollForm.use CreatePollForm.initial actions = Some form →
  CreatePollForm.handleSubmit form = Some body →
  isValid (validatePollCreation body) = true
  ∧ ∃ poll,
      (post_poll env store body).1 = json_response (ApiSuccess poll) 201
      ∧ Poll.title poll = sanitizeHtml (trim (CreatePollForm.title form))
      ∧ PollOption.text <$> Poll.options poll
        = (fun opt => sanitizeHtml (trim opt))
            <$> List.filter CreatePollForm.nonblank (CreatePollForm.options form).
Proof.
  intros Huse Hsubmit.
  assert (length (CreatePollForm.options form) ≤ 10) as Hmax.
  { apply (use_keeps_count actions CreatePollForm.initial form Huse). cbn. lia. }
  destruct (handleSubmit_acceptable form body Hmax Hsubmit) as [-> Hacc].
  apply validatePollCreation_valid in Hacc. split; [done|].
  unfold post_poll. rewrite Hacc. cbn [negb].
  eexists. split; [reflexivity|]. cbn [Poll.title Poll.options].
  rewrite as_request_stringify.
  unfold sanitizePollData, CreatePollForm.requestData. cbn [req_title req_options].
  split.
  - by rewrite trim_idem.
  - rewrite imap_texts. rewrite map_map. apply map_ext. intros o.
    by rewrite trim_idem.
Qed.

Lemma submitted_form_is_accepted_witness :
  ∃ form body poll,
    CreatePollForm.use CreatePollForm.initial
      [CreatePollForm.TypeTitle " Lunch? "; CreatePollForm.TypeOption 0 "Sushi";
       CreatePollForm.ClickAdd; CreatePollForm.TypeOption 2 "Ramen "]
    = Some form
    ∧ CreatePollForm.handleSubmit form = Some body
    ∧ (post_poll Sample.create_env DataStore.new body).1
      = json_response (ApiSuccess poll) 201
    ∧ Poll.title poll = "Lunch?"
    ∧ PollOption.text <$> Poll.options poll = ["Sushi"; "Ramen"].
Proof.
  eexists _, _. 
  destruct (submitted_form_is_accepted
              [CreatePollForm.TypeTitle " Lunch? "; CreatePollForm.TypeOption 0 "Sushi";
               CreatePollForm.ClickAdd; CreatePollForm.TypeOption 2 "Ramen "]
              {| CreatePollForm.title := " Lunch? ";
                 CreatePollForm.options := ["Sushi"; EmptyString; "Ramen "] |}
              (CreatePollForm.stringify
                 {| req_title := "Lunch?"; req_options := ["Sushi"; "Ramen"] |})
              Sample.create_env DataStore.new)
    as (_ & poll & Hr & Ht & Ho); [by vm_compute|by vm_compute|].
  exists poll. split; [by vm_compute|]. split; [by vm_compute|].
  split; [exact Hr|]. split; [by rewrite Ht|by rewrite Ho].
Defined.

(** ** The vote page of the client *)

(** X28. A vote that the vote page posts always passes [validateVote]: its
    option is the non-empty selection and its voter identifier starts with
    ["voter-"]. The page shows "already voted" for every 409: a vote on an
    ended poll is shown as already voted, though the voter has not voted,
    just like a second vote on an active poll. *)
Theorem vote_page_feedback selectedOption poll now random body :
  VotePage.handleVote selectedOption poll (VotePage.voterId now random) = Some body →
  isValid (validateVote body) = true
  ∧ (∀ env store pollId p,
       DataStore.getPoll store pollId = Some p →
       Poll.status p = ended →
       VotePage.after_vote (post_vote env store pollId body).1
       = VotePage.ShownAlreadyVoted)
  ∧ (∀ env store pollId p,
       DataStore.getPoll store pollId = Some p →
       Poll.status p = active →
       optionId (as_VoteRequest body) ∈ PollOption.id <$> Poll.options p →
       DataStore.hasVoted store pollId (voterId (as_VoteRequest body)) = true →
       VotePage.after_vote (post_vote env store pollId body).1
       = VotePage.ShownAlreadyVoted).
Proof.
  unfold VotePage.handleVote.
  destruct selectedOption as [o|]; [|done]. destruct poll as [poll|]; [|done].
  destruct (String.eqb_spec o EmptyString) as [|Hne]; [done|]. intros [= <-].
  assert (isValid (validateVote
                     (JObj [("optionId", JStr o);
                            ("voterId", JStr (VotePage.voterId now random))])) = true)
    as Hvalid.
  { unfold validateVote. cbn [truthy negb prop assoc String.eqb Ascii.eqb Bool.eqb].
    unfold validate_id. cbn [truthy].
    destruct (String.eqb_spec o EmptyString) as [|_]; [done|]. done. }
  split; [done|]. split.
  - intros env store pollId p Hp Hended. unfold post_vote.
    rewrite Hvalid, Hp, Hended. done.
  - intros env store pollId p Hp Hactive Hopt Hhas. unfold post_vote.
    rewrite Hvalid, Hp, Hactive. cbn [negb bool_decide].
    rewrite bool_decide_eq_true_2 by done. cbn [negb].
    destruct (find_option_Some _ _ Hopt) as [x ->]. by rewrite Hhas.
Qed.

Lemma vote_page_feedback_witness :
  VotePage.after_vote
    (post_vote Sample.vote_env Sample.closed "poll-1"
       (JObj [("optionId", JStr "b");
              ("voterId", JStr (VotePage.voterId "1700000000000" "k3j9x2m1q"))])).1
  = VotePage.ShownAlreadyVoted.
Proof.
  destruct (vote_page_feedback (Some "b")
              (Some (Poll.mk "poll-1" "Lunch?" [] ended 0%Z "anonymous" 0))
              "1700000000000" "k3j9x2m1q"
              (JObj [("optionId", JStr "b");
                     ("voterId", JStr (VotePage.voterId "1700000000000" "k3j9x2m1q"))]))
    as (_ & Hended & _); [reflexivity|].
  apply (Hended Sample.vote_env Sample.closed "poll-1"
           (Poll.mk "poll-1" "Lunch?"
              [PollOption.mk "a" "Sushi" 0 0%float;
               PollOption.mk "b" "Ramen" 0 0%float]
              ended 0%Z "anonymous" 0)); [by vm_compute|reflexivity].
Defined.

(** ** The reconnection of the client *)

Section Reconnect.
Import UseWebSocket.

Lemma handle_attempts hook event :
  reconnectAttempts hook ≤ 5 → reconnectAttempts (handle hook event) ≤ 5.
Proof.
  intros Hle. destruct event; cbn; try lia.
  unfold onclose, maxReconnectAttempts.
  destruct (reconnectAttempts hook <? 5) eqn:Hlt; cbn; [|done].
  apply Nat.ltb_lt in Hlt. lia.
Qed.

Lemma handle_scheduled hook event :
  scheduled (handle hook event) = scheduled hook
  ∨ (event = SocketClosed
     ∧ reconnectAttempts hook < 5
     ∧ scheduled (handle hook event)
       = scheduled hook ++ [(2 ^ Z.of_nat (reconnectAttempts hook) * 1000)%Z]).
Proof.
  destruct event; cbn; try by left.
  unfold onclose, maxReconnectAttempts.
  destruct (reconnectAttempts hook <? 5) eqn:Hlt; cbn; [|by left].
  apply Nat.ltb_lt in Hlt. by right.
Qed.

Lemma run_hook_snoc events event :
  run (events ++ [event]) = handle (run events) event.
Proof. unfold run. by rewrite foldl_snoc. Qed.

Lemma run_bounded events :
  reconnectAttempts (run events) ≤ 5
  ∧ Forall (fun delay => ∃ k, k < 5 ∧ delay = (2 ^ Z.of_nat k * 1000)%Z)
           (scheduled (run events)).
Proof.
  induction events as [|event events [IHa IHs]] using rev_ind.
  - split; [cbn; lia|constructor].
  - rewrite run_hook_snoc. split; [by apply handle_attempts|].
    destruct (handle_scheduled (run events) event) as [->|(_ & Hlt & ->)]; [done|].
    apply Forall_app. split; [done|]. constructor; [|constructor]. eauto.
Qed.

Lemma closes_from_zero n hook :
  reconnectAttempts hook = 0 →
  n ≤ 5 →
  Nat.iter n onclose hook
  = {| isConnected := if n =? 0 then isConnected hook else false;
       error := error hook;
       reconnectAttempts := n;
       scheduled :=
         scheduled hook ++ ((fun k => (2 ^ Z.of_nat k * 1000)%Z) <$> seq 0 n) |}.
Proof.
  intros Hzero. induction n as [|n IH]; intros Hn.
  - cbn. rewrite app_nil_r. destruct hook; cbn in *. by subst.
  - rewrite Nat.iter_succ, IH by lia. unfold onclose, maxReconnectAttempts.
    cbn [reconnectAttempts scheduled error].
    replace (n <? 5) with true by (symmetry; apply Nat.ltb_lt; lia).
    rewrite seq_S, fmap_app. cbn. by rewrite <-app_assoc.
Qed.

End Reconnect.

(** X29. The hook reconnects with a bounded backoff: whatever the socket
    does, the attempt counter never exceeds 5 and every delay that is
    scheduled is 1000 times 2^k milliseconds with k below 5, so at most 16
    seconds. After the socket has opened, closes without an opening in
    between schedule 1, 2, 4, 8 and 16 seconds, the sixth close schedules
    nothing and reports the connection as lost. *)
Theorem reconnect_backoff_bounded events :
  let hook := UseWebSocket.run events in
  UseWebSocket.reconnectAttempts hook ≤ 5
  ∧ Forall (fun delay =>
              (1000 ≤ delay ≤ 16000)%Z
              ∧ ∃ k, k < 5 ∧ delay = (2 ^ Z.of_nat k * 1000)%Z)
           (UseWebSocket.scheduled hook)
  ∧ (∀ n, n ≤ 5 →
          UseWebSocket.scheduled (Nat.iter n UseWebSocket.onclose (UseWebSocket.onopen hook))
          = UseWebSocket.scheduled hook
            ++ take n [1000; 2000; 4000; 8000; 16000]%Z
          ∧ UseWebSocket.error (Nat.iter n UseWebSocket.onclose (UseWebSocket.onopen hook))
            = None)
  ∧ UseWebSocket.scheduled (Nat.iter 6 UseWebSocket.onclose (UseWebSocket.onopen hook))
    = UseWebSocket.scheduled hook ++ [1000; 2000; 4000; 8000; 16000]%Z
  ∧ UseWebSocket.error (Nat.iter 6 UseWebSocket.onclose (UseWebSocket.onopen hook))
    = Some UseWebSocket.ConnectionLost.
Proof.
  cbn zeta. destruct (run_bounded events) as [Ha Hs].
  split; [done|]. split.
  { eapply Forall_impl; [exact Hs|]. intros delay (k & Hk & ->). split; [|eauto].
    do 5 (destruct k as [|k]; [cbn; lia|]). lia. }
  split.
  { intros n Hn.
    rewrite (closes_from_zero n (UseWebSocket.onopen (UseWebSocket.run events)))
      by done.
    cbn [UseWebSocket.scheduled UseWebSocket.error UseWebSocket.onopen].
    split; [|done]. f_equal.
    do 6 (destruct n as [|n]; [done|]). lia. }
  change (Nat.iter 6 UseWebSocket.onclose ?h)
    with (UseWebSocket.onclose (Nat.iter 5 UseWebSocket.onclose h)).
  rewrite (closes_from_zero 5 (UseWebSocket.onopen (UseWebSocket.run events)))
    by done.
  done.
Qed.

Lemma reconnect_backoff_bounded_witness :
  UseWebSocket.scheduled
    (UseWebSocket.run
       [UseWebSocket.SocketOpened; UseWebSocket.SocketClosed;
        UseWebSocket.SocketClosed; UseWebSocket.SocketOpened;
        UseWebSocket.SocketClosed])
  = [1000; 2000; 1000]%Z
  ∧ UseWebSocket.reconnectAttempts
      (UseWebSocket.run
         [UseWebSocket.SocketOpened; UseWebSocket.SocketClosed;
          UseWebSocket.SocketClosed; UseWebSocket.SocketOpened;
          UseWebSocket.SocketClosed]) ≤ 5.
Proof.
  split; [reflexivity|].
  by destruct (reconnect_backoff_bounded
                 [UseWebSocket.SocketOpened; UseWebSocket.SocketClosed;
                  UseWebSocket.SocketClosed; UseWebSocket.SocketOpened;
                  UseWebSocket.SocketClosed]) as [Hle _].
Defined.

(** ** Identifiers *)

Lemma append_inj prefix (a b : string) :
  String.append prefix a = String.append prefix b → a = b.
Proof.
  induction prefix as [|c prefix IH]; cbn; [done|]. intros [= H]. by apply IH.
Qed.

(** X30. The identifiers of polls, votes and options never clash with each
    other, whatever [generateId] returns, and two identifiers of one kind
    are equal only if [generateId] returned the same string. *)
Theorem generated_ids_are_apart a b :
  Id.generatePollId a ≠ Id.generateVoteId b
  ∧ Id.generatePollId a ≠ Id.generateOptionId b
  ∧ Id.generateVoteId a ≠ Id.generateOptionId b
  ∧ (Id.generatePollId a = Id.generatePollId b → a = b)
  ∧ (Id.generateVoteId a = Id.generateVoteId b → a = b)
  ∧ (Id.generateOptionId a = Id.generateOptionId b → a = b).
Proof.
  unfold Id.generatePollId, Id.generateVoteId, Id.generateOptionId.
  repeat split; try (cbn; discriminate); apply append_inj.
Qed.
